(** * privy-agent0-provider: a Rocq model of the adapter

    The repository is glue between three collaborators: the file system
    (wallet file), a custody service (wallet creation and signing) and a
    JSON-RPC node.  The development below embeds

    - [src/chains.ts]   : [CHAIN_MAP], [resolveChain];
    - [src/wallet.ts]   : [createWallet], [loadWallet], [saveWallet],
                          [getOrCreateWallet];
    - [src/provider.ts] : [createPrivyProvider], [proxyToRpc], [request];
    - [src/wallet-client.ts] : [createPrivyWalletClient];

    together with the part of the JavaScript platform these functions lean
    on: strings as sequences of UTF-16 code units, numbers as IEEE doubles,
    [JSON.parse], [JSON.stringify], [BigInt], [Number], truthiness and
    property access.  External services are oracles held in an environment
    record; the calls the program makes to them are logged in the state so
    that "how many calls were made, and with what" can be stated.  A write
    to a file can fail, and so can the making of the signing account.

    What the model leaves out:
    - the sign of zero, getters, [toJSON], symbols, functions and bigint
      values inside the values handed to the program;
    - properties inherited from built-in prototypes, but for the
      [toString] a conversion to a string looks up (the code reads none);
    - files that exist and cannot be read;
    - what the wallet client sends while it serves a call;
    - the bytes of a file: a file holds the text that its UTF-8 bytes
      decode to;
    - chain ids that are not integers.

    Layout: the platform, the three source files, the definitions used to
    state the theorems, then the proofs, claim by claim. *)

From Stdlib Require Import ZArith NArith List Lia Bool Ascii String.
From stdpp Require Import gmap.
Import ListNotations.

Local Open Scope N_scope.

(** ** Strings *)

(** A JavaScript string is a sequence of 16-bit code units. *)
Definition jsstring := list N.

Definition code_unit (c : N) : Prop := c < 65536.
Definition valid_string (s : jsstring) : Prop := Forall code_unit s.

(** String literals of the source, written in ASCII. *)
Definition js (s : string) : jsstring :=
  map N_of_ascii (list_ascii_of_string s).

Definition jsstring_eqb (a b : jsstring) : bool := bool_decide (a = b).

Definition is_high_surrogate (c : N) : bool := (55296 <=? c) && (c <=? 56319).
Definition is_low_surrogate (c : N) : bool := (56320 <=? c) && (c <=? 57343).
Definition is_surrogate (c : N) : bool := (55296 <=? c) && (c <=? 57343).

(** What a text becomes when it is written as UTF-8 and decoded again: a
    surrogate that is not part of a pair is replaced by U+FFFD. *)
Fixpoint toWellFormed (s : jsstring) : jsstring :=
  match s with
  | [] => []
  | c :: r =>
      if is_high_surrogate c then
        match r with
        | d :: r' =>
            if is_low_surrogate d then c :: d :: toWellFormed r'
            else 65533 :: toWellFormed r
        | [] => [65533]
        end
      else if is_low_surrogate c then 65533 :: toWellFormed r
      else c :: toWellFormed r
  end.

Fixpoint join (sep : jsstring) (l : list jsstring) : jsstring :=
  match l with
  | [] => []
  | [x] => x
  | x :: r => x ++ sep ++ join sep r
  end.

(** ** Digits *)

Definition digit_char (d : N) : N := if d <? 10 then 48 + d else 87 + d.

Definition digit_val (c : N) : option N :=
  if (48 <=? c) && (c <=? 57) then Some (c - 48)
  else if (97 <=? c) && (c <=? 122) then Some (c - 87)
  else if (65 <=? c) && (c <=? 90) then Some (c - 55)
  else None.

Definition is_digit (radix c : N) : bool :=
  match digit_val c with Some d => d <? radix | None => false end.

Fixpoint to_radix_aux (fuel : nat) (radix n : N) (acc : jsstring) : jsstring :=
  match fuel with
  | O => acc
  | S f =>
      let acc' := digit_char (n mod radix) :: acc in
      if n / radix =? 0 then acc' else to_radix_aux f radix (n / radix) acc'
  end.

(** The digits of [n] in the given radix, most significant first,
    lowercase letters above 9. *)
Definition N_to_radix (radix n : N) : jsstring :=
  to_radix_aux (S (N.to_nat (N.log2 n))) radix n [].

Definition Z_to_radix (radix : N) (z : Z) : jsstring :=
  match z with
  | Z0 => [48]
  | Zpos p => N_to_radix radix (Npos p)
  | Zneg p => 45 :: N_to_radix radix (Npos p)
  end.

Definition digits_value (radix : N) (ds : jsstring) : N :=
  fold_left (fun acc c => acc * radix + default 0 (digit_val c)) ds 0.

Fixpoint take_digits (radix : N) (s : jsstring) : jsstring * jsstring :=
  match s with
  | c :: r =>
      if is_digit radix c then
        let '(ds, rest) := take_digits radix r in (c :: ds, rest)
      else ([], s)
  | [] => ([], [])
  end.

(** ** Numbers

    A JavaScript number is an IEEE 754 double.  A finite double is kept as
    the exact dyadic rational it denotes: [Fin m e] is [m * 2^e], with [m]
    odd, or [m = 0 = e].  The sign of zero is not tracked: nothing in the
    code under study can observe it. *)

Local Open Scope Z_scope.

Inductive number :=
| Fin (m e : Z)
| Inf (negative : bool)
| NaN.

Global Instance number_eq_dec : EqDecision number.
Proof. solve_decision. Defined.

Fixpoint ctz (p : positive) : Z * positive :=
  match p with
  | xO q => let '(k, r) := ctz q in (k + 1, r)
  | _ => (0, p)
  end.

Definition norm (m e : Z) : number :=
  match m with
  | Z0 => Fin 0 0
  | Zpos p => let '(k, r) := ctz p in Fin (Zpos r) (e + k)
  | Zneg p => let '(k, r) := ctz p in Fin (Zneg r) (e + k)
  end.

Definition number_neg (x : number) : number :=
  match x with
  | Fin m e => Fin (- m) e
  | Inf b => Inf (negb b)
  | NaN => NaN
  end.

(** [a / b] rounded to the nearest integer, ties to even ([0 <= a], [0 < b]). *)
Definition round_half_even (a b : Z) : Z :=
  let q := a / b in
  let r2 := 2 * (a mod b) in
  if r2 <? b then q
  else if b <? r2 then q + 1
  else if Z.even q then q else q + 1.

(** [q * 2^k <= p]. *)
Definition scaled_le (q k p : Z) : bool :=
  if 0 <=? k then q * 2 ^ k <=? p else q <=? p * 2 ^ (- k).

(** The [k] with [2^k <= p / q < 2^(k+1)], for positive [p] and [q]. *)
Definition floor_log2 (p q : Z) : Z :=
  let k := Z.log2 p - Z.log2 q in
  if scaled_le q k p then k else k - 1.

(** The double nearest to the positive rational [p / q] (round to nearest,
    ties to even; subnormals below [2^-1022]; overflow to infinity). *)
Definition round_pos (p q : Z) : number :=
  let k := floor_log2 p q in
  if 1024 <=? k then Inf false
  else
    let e := Z.max (k - 52) (-1074) in
    let m := if 0 <=? e then round_half_even p (q * 2 ^ e)
             else round_half_even (p * 2 ^ (- e)) q in
    if (m =? 2 ^ 53) && (e =? 971) then Inf false else norm m e.

Definition double_of_rational (p q : Z) : number :=
  match p with
  | Z0 => Fin 0 0
  | Zpos _ => round_pos p q
  | Zneg p' => number_neg (round_pos (Zpos p') q)
  end.

(** The rational [a / b * 10^j], for [0 < b]. *)
Definition scale10 (a b j : Z) : Z * Z :=
  if 0 <=? j then (a * 10 ^ j, b) else (a, b * 10 ^ (- j)).

(** The double a decimal [m * 10^e] is read as. *)
Definition double_of_decimal (m e : Z) : number :=
  let '(p, q) := scale10 m 1 e in double_of_rational p q.

Definition number_of_Z (z : Z) : number := double_of_rational z 1.

(** The integer an integral double denotes. *)
Definition number_to_Z (x : number) : option Z :=
  match x with
  | Fin m e => if 0 <=? e then Some (m * 2 ^ e) else None
  | _ => None
  end.

Definition number_is_zero (x : number) : bool :=
  match x with Fin 0 _ => true | _ => false end.

(** *** Number::toString, radix 10

    The digits are the shortest decimal that reads back as the same
    double; [shortest] looks for it with 1, 2, ... 17 digits. *)

Fixpoint first_scale (fuel : nat) (a b j : Z) : Z :=
  match fuel with
  | O => j
  | S f => if b <=? a * 10 ^ j then j else first_scale f a b (j + 1)
  end.

(** The [n] with [10^(n-1) <= a / b < 10^n]. *)
Definition decimal_exponent (a b : Z) : Z :=
  if b <=? a then Z.of_nat (length (N_to_radix 10 (Z.to_N (a / b))))
  else 1 - first_scale (S (Z.to_nat (Z.log2 b))) a b 1.

Definition reads_back (x : number) (s n k : Z) : bool :=
  let '(p, q) := scale10 s 1 (n - k) in
  bool_decide (double_of_rational p q = x).

Fixpoint shortest (fuel : nat) (x : number) (a b n0 k : Z) : Z * Z :=
  let '(ta, tb) := scale10 a b (k - n0) in
  let lo := ta / tb in
  let '(hi, nhi) :=
    if lo + 1 <? 10 ^ k then (lo + 1, n0) else (10 ^ (k - 1), n0 + 1) in
  let r2 := 2 * (ta mod tb) in
  match fuel with
  | O => (lo, n0)
  | S f =>
      let ok_lo := reads_back x lo n0 k in
      let ok_hi := reads_back x hi nhi k in
      if ok_lo && ok_hi then
        if r2 <? tb then (lo, n0)
        else if tb <? r2 then (hi, nhi)
        else if Z.even lo then (lo, n0) else (hi, nhi)
      else if ok_lo then (lo, n0)
      else if ok_hi then (hi, nhi)
      else shortest f x a b n0 (k + 1)
  end.

Definition zeros (n : Z) : jsstring := repeat 48%N (Z.to_nat n).

Definition format_decimal (s n : Z) : jsstring :=
  let ds := N_to_radix 10 (Z.to_N s) in
  let k := Z.of_nat (length ds) in
  if (k <=? n) && (n <=? 21) then ds ++ zeros (n - k)
  else if (0 <? n) && (n <=? 21) then
    take (Z.to_nat n) ds ++ 46%N :: drop (Z.to_nat n) ds
  else if (-6 <? n) && (n <=? 0) then
    48%N :: 46%N :: zeros (- n) ++ ds
  else
    let e := n - 1 in
    let sign := if e <? 0 then 45%N else 43%N in
    let ex := 101%N :: sign :: N_to_radix 10 (Z.to_N (Z.abs e)) in
    match ds with
    | [d] => d :: ex
    | d :: r => d :: 46%N :: r ++ ex
    | [] => ex
    end.

Definition Number_toString (x : number) : jsstring :=
  match x with
  | NaN => js "NaN"
  | Inf false => js "Infinity"
  | Inf true => js "-Infinity"
  | Fin 0 _ => js "0"
  | Fin m e =>
      let '(a, b) := if 0 <=? e then (Z.abs m * 2 ^ e, 1)
                     else (Z.abs m, 2 ^ (- e)) in
      let n0 := decimal_exponent a b in
      let '(s, n) := shortest 17 (Fin (Z.abs m) e) a b n0 1 in
      (if m <? 0 then [45%N] else []) ++ format_decimal s n
  end.

(** ** Values *)

Local Open Scope N_scope.

(** [JObj] lists the own enumerable properties in property order. *)
Unset Elimination Schemes.
Inductive jsval :=
| JUndefined
| JNull
| JBool (b : bool)
| JNum (x : number)
| JStr (s : jsstring)
| JArr (elems : list jsval)
| JObj (props : list (jsstring * jsval)).
Set Elimination Schemes.

(** What [if (v)] tests. *)
Definition truthy (v : jsval) : bool :=
  match v with
  | JUndefined | JNull => false
  | JBool b => b
  | JNum NaN => false
  | JNum x => negb (number_is_zero x)
  | JStr s => match s with [] => false | _ => true end
  | JArr _ | JObj _ => true
  end.

(** [v == null], the test behind [v != null] and [v ?? d]. *)
Definition nullish (v : jsval) : bool :=
  match v with JUndefined | JNull => true | _ => false end.

(** [a ?? b] *)
Definition coalesce (a b : jsval) : jsval := if nullish a then b else a.

(** A property name that is an array index: the canonical decimal of a
    number below [2^32 - 1]. *)
Definition array_index (k : jsstring) : option N :=
  match k with
  | [] => None
  | c :: r =>
      if forallb (is_digit 10) k
         && (negb (c =? 48) || match r with [] => true | _ => false end)
         && (digits_value 10 k <? 4294967295)
      then Some (digits_value 10 k)
      else None
  end.

Fixpoint lookup_prop {A} (k : jsstring) (props : list (jsstring * A))
  : option A :=
  match props with
  | [] => None
  | (k', v) :: r => if jsstring_eqb k k' then Some v else lookup_prop k r
  end.

Fixpoint replace_prop {A} (k : jsstring) (v : A)
  (props : list (jsstring * A)) : list (jsstring * A) :=
  match props with
  | [] => []
  | (k', v') :: r =>
      if jsstring_eqb k k' then (k, v) :: r else (k', v') :: replace_prop k v r
  end.

Fixpoint insert_index {A} (i : N) (k : jsstring) (v : A)
  (props : list (jsstring * A)) : list (jsstring * A) :=
  match props with
  | [] => [(k, v)]
  | (k', v') :: r =>
      match array_index k' with
      | Some j => if i <? j then (k, v) :: props
                  else (k', v') :: insert_index i k v r
      | None => (k, v) :: props
      end
  end.

(** Defining a property: an existing one keeps its place; a new array
    index goes among the indices, in ascending order; any other new name
    goes last. *)
Definition define_prop {A} (k : jsstring) (v : A)
  (props : list (jsstring * A)) : list (jsstring * A) :=
  match lookup_prop k props with
  | Some _ => replace_prop k v props
  | None =>
      match array_index k with
      | Some i => insert_index i k v props
      | None => props ++ [(k, v)]
      end
  end.

(** ** Exceptions and results *)

Inductive exn :=
| SyntaxError
| TypeError
| RangeError
| Error (message : jsstring)
| Rejected (reason : jsstring).

Inductive result (A : Type) :=
| Ok (a : A)
| Throw (e : exn).
Arguments Ok {A} a.
Arguments Throw {A} e.

(** [v[k]] and [v.k].  None of the names the code reads is a property of a
    built-in prototype, so only own properties are looked at. *)
Definition get_prop (v : jsval) (k : jsstring) : result jsval :=
  match v with
  | JUndefined | JNull => Throw TypeError
  | JObj props => Ok (default JUndefined (lookup_prop k props))
  | JArr l =>
      match array_index k with
      | Some i => Ok (default JUndefined (l !! N.to_nat i))
      | None =>
          if jsstring_eqb k (js "length")
          then Ok (JNum (number_of_Z (Z.of_nat (length l))))
          else Ok JUndefined
      end
  | JStr s =>
      match array_index k with
      | Some i => Ok (match s !! N.to_nat i with
                      | Some c => JStr [c]
                      | None => JUndefined
                      end)
      | None =>
          if jsstring_eqb k (js "length")
          then Ok (JNum (number_of_Z (Z.of_nat (length s))))
          else Ok JUndefined
      end
  | JBool _ | JNum _ => Ok JUndefined
  end.

(** The own enumerable properties of a value that is not null or
    undefined, as object rest destructuring copies them. *)
Definition own_props (v : jsval) : result (list (jsstring * jsval)) :=
  match v with
  | JUndefined | JNull => Throw TypeError
  | JObj props => Ok props
  | JArr l => Ok (imap (fun i e => (N_to_radix 10 (N.of_nat i), e)) l)
  | JStr s => Ok (imap (fun i c => (N_to_radix 10 (N.of_nat i), JStr [c])) s)
  | JBool _ | JNum _ => Ok []
  end.

(** What a template literal makes of a value ([ToString]).  The values
    are data, none is a function: an own property named [toString]
    hides the method an object inherits without being callable, and the
    conversion then throws a TypeError; without one an object prints as
    [[object Object]].  An array prints its elements, [null] and
    [undefined] as nothing, with commas between; an element that cannot
    be converted makes the whole conversion throw. *)
Fixpoint ToString (v : jsval) : result jsstring :=
  match v with
  | JUndefined => Ok (js "undefined")
  | JNull => Ok (js "null")
  | JBool true => Ok (js "true")
  | JBool false => Ok (js "false")
  | JNum x => Ok (Number_toString x)
  | JStr s => Ok s
  | JArr l =>
      match
        (fix elements (l : list jsval) : result (list jsstring) :=
           match l with
           | [] => Ok []
           | e :: r =>
               match (match e with
                      | JUndefined | JNull => Ok []
                      | _ => ToString e
                      end) with
               | Throw x => Throw x
               | Ok part =>
                   match elements r with
                   | Throw x => Throw x
                   | Ok parts => Ok (part :: parts)
                   end
               end
           end) l
      with
      | Throw x => Throw x
      | Ok parts => Ok (join [44] parts)
      end
  | JObj props =>
      match lookup_prop (js "toString") props with
      | Some _ => Throw TypeError
      | None => Ok (js "[object Object]")
      end
  end.

(** ** JSON.stringify *)

Definition hex4 (c : N) : jsstring :=
  [digit_char (c / 4096); digit_char ((c / 256) mod 16);
   digit_char ((c / 16) mod 16); digit_char (c mod 16)].

Definition UnicodeEscape (c : N) : jsstring := 92 :: 117 :: hex4 c.

Definition escape_unit (c : N) : jsstring :=
  if c =? 8 then [92; 98]
  else if c =? 9 then [92; 116]
  else if c =? 10 then [92; 110]
  else if c =? 12 then [92; 102]
  else if c =? 13 then [92; 114]
  else if c =? 34 then [92; 34]
  else if c =? 92 then [92; 92]
  else if c <? 32 then UnicodeEscape c
  else [c].

(** A surrogate pair is copied; a surrogate on its own is escaped. *)
Fixpoint quote_body (s : jsstring) : jsstring :=
  match s with
  | [] => []
  | c :: r =>
      if is_high_surrogate c then
        match r with
        | d :: r' =>
            if is_low_surrogate d then c :: d :: quote_body r'
            else UnicodeEscape c ++ quote_body r
        | [] => UnicodeEscape c
        end
      else if is_low_surrogate c then UnicodeEscape c ++ quote_body r
      else escape_unit c ++ quote_body r
  end.

Definition QuoteJSONString (s : jsstring) : jsstring :=
  34 :: quote_body s ++ [34].

Definition is_nil {A} (l : list A) : bool :=
  match l with [] => true | _ => false end.

(** [SerializeJSONProperty]: [None] is [undefined].  [gap] is the
    indentation unit, [indent] the current indentation. *)
Fixpoint SerializeJSONProperty (gap indent : jsstring) (v : jsval)
  : option jsstring :=
  match v with
  | JUndefined => None
  | JNull => Some (js "null")
  | JBool true => Some (js "true")
  | JBool false => Some (js "false")
  | JNum (Fin m e) => Some (Number_toString (Fin m e))
  | JNum _ => Some (js "null")
  | JStr s => Some (QuoteJSONString s)
  | JArr l =>
      let stepback := indent in
      let indent := indent ++ gap in
      let partial :=
        map (fun e => default (js "null") (SerializeJSONProperty gap indent e)) l in
      Some (if is_nil partial then js "[]"
            else if is_nil gap then 91 :: join [44] partial ++ [93]
            else 91 :: 10 :: indent ++ join (44 :: 10 :: indent) partial
                 ++ 10 :: stepback ++ [93])
  | JObj props =>
      let stepback := indent in
      let indent := indent ++ gap in
      let partial :=
        flat_map (fun p => match p with
                           | (k, e) =>
                               match SerializeJSONProperty gap indent e with
                               | Some str =>
                                   [QuoteJSONString k
                                    ++ 58 :: (if is_nil gap then [] else [32])
                                    ++ str]
                               | None => []
                               end
                           end) props in
      Some (if is_nil partial then js "{}"
            else if is_nil gap then 123 :: join [44] partial ++ [125]
            else 123 :: 10 :: indent ++ join (44 :: 10 :: indent) partial
                 ++ 10 :: stepback ++ [125])
  end.

(** [JSON.stringify(v, null, space)] *)
Definition JSON_stringify (v : jsval) (space : nat) : option jsstring :=
  SerializeJSONProperty (repeat 32 (Nat.min 10 space)) [] v.

(** ** JSON.parse *)

Definition is_json_ws (c : N) : bool :=
  (c =? 9) || (c =? 10) || (c =? 13) || (c =? 32).

Fixpoint skip_ws (s : jsstring) : jsstring :=
  match s with
  | c :: r => if is_json_ws c then skip_ws r else s
  | [] => []
  end.

Definition simple_escape (e : N) : option N :=
  if e =? 34 then Some 34
  else if e =? 92 then Some 92
  else if e =? 47 then Some 47
  else if e =? 98 then Some 8
  else if e =? 102 then Some 12
  else if e =? 110 then Some 10
  else if e =? 114 then Some 13
  else if e =? 116 then Some 9
  else None.

Definition hex4_value (a b c d : N) : option N :=
  if forallb (is_digit 16) [a; b; c; d]
  then Some (digits_value 16 [a; b; c; d])
  else None.

Definition cons_fst {A B} (a : A) (p : list A * B) : list A * B :=
  (a :: fst p, snd p).

(** The characters of a string after its opening quote, up to and
    including the closing one. *)
Fixpoint parse_string_body (s : jsstring) : option (jsstring * jsstring) :=
  match s with
  | [] => None
  | c :: r =>
      if c =? 34 then Some ([], r)
      else if c =? 92 then
        match r with
        | [] => None
        | e :: r' =>
            if e =? 117 then
              match r' with
              | h1 :: h2 :: h3 :: h4 :: r'' =>
                  match hex4_value h1 h2 h3 h4 with
                  | Some u => cons_fst u <$> parse_string_body r''
                  | None => None
                  end
              | _ => None
              end
            else
              match simple_escape e with
              | Some u => cons_fst u <$> parse_string_body r'
              | None => None
              end
        end
      else if c <? 32 then None
      else cons_fst c <$> parse_string_body r
  end.

Definition Z_of_digits (radix : N) (ds : jsstring) : Z :=
  Z.of_N (digits_value radix ds).

(** An optional exponent part [e|E (+|-)? digits]. *)
Definition parse_exponent (s : jsstring) : option (Z * jsstring) :=
  match s with
  | c :: r =>
      if (c =? 101) || (c =? 69) then
        let '(neg, r1) :=
          match r with
          | d :: r' => if d =? 45 then (true, r')
                       else if d =? 43 then (false, r') else (false, r)
          | [] => (false, r)
          end in
        let '(ds, rest) := take_digits 10 r1 in
        if is_nil ds then None
        else Some ((if neg then - Z_of_digits 10 ds else Z_of_digits 10 ds)%Z, rest)
      else Some (0%Z, s)
  | [] => Some (0%Z, s)
  end.

Definition parse_number (s : jsstring) : option (number * jsstring) :=
  let '(neg, s1) :=
    match s with
    | c :: r => if c =? 45 then (true, r) else (false, s)
    | [] => (false, s)
    end in
  let '(int, s2) := take_digits 10 s1 in
  match int with
  | [] => None
  | d :: more =>
      if (d =? 48) && negb (is_nil more) then None
      else
        let frac :=
          match s2 with
          | c :: r =>
              if c =? 46 then
                let '(fd, s3) := take_digits 10 r in
                if is_nil fd then None else Some (fd, s3)
              else Some ([], s2)
          | [] => Some ([], s2)
          end in
        match frac with
        | None => None
        | Some (fd, s3) =>
            match parse_exponent s3 with
            | None => None
            | Some (ex, rest) =>
                let m := Z_of_digits 10 (int ++ fd) in
                let x := double_of_decimal m (ex - Z.of_nat (length fd)) in
                Some (if neg then number_neg x else x, rest)
            end
        end
  end.

Fixpoint strip_prefix (p s : jsstring) : option jsstring :=
  match p, s with
  | [], _ => Some s
  | a :: p', b :: s' => if a =? b then strip_prefix p' s' else None
  | _ :: _, [] => None
  end.

Definition parse_literal (word : jsstring) (v : jsval) (s : jsstring)
  : option (jsval * jsstring) :=
  match strip_prefix word s with
  | Some rest => Some (v, rest)
  | None => None
  end.

Fixpoint parse_value (fuel : nat) (s : jsstring) : option (jsval * jsstring) :=
  match fuel with
  | O => None
  | S f =>
      match skip_ws s with
      | [] => None
      | c :: r =>
          if c =? 34 then
            match parse_string_body r with
            | Some (str, rest) => Some (JStr str, rest)
            | None => None
            end
          else if c =? 123 then
            match skip_ws r with
            | d :: r' => if d =? 125 then Some (JObj [], r')
                         else parse_members f [] (d :: r')
            | [] => None
            end
          else if c =? 91 then
            match skip_ws r with
            | d :: r' => if d =? 93 then Some (JArr [], r')
                         else parse_elements f [] (d :: r')
            | [] => None
            end
          else if c =? 116 then parse_literal (js "true") (JBool true) (c :: r)
          else if c =? 102 then parse_literal (js "false") (JBool false) (c :: r)
          else if c =? 110 then parse_literal (js "null") JNull (c :: r)
          else
            match parse_number (c :: r) with
            | Some (x, rest) => Some (JNum x, rest)
            | None => None
            end
      end
  end
with parse_elements (fuel : nat) (acc : list jsval) (s : jsstring)
  : option (jsval * jsstring) :=
  match fuel with
  | O => None
  | S f =>
      match parse_value f s with
      | Some (v, r) =>
          match skip_ws r with
          | c :: r' =>
              if c =? 44 then parse_elements f (acc ++ [v]) r'
              else if c =? 93 then Some (JArr (acc ++ [v]), r')
              else None
          | [] => None
          end
      | None => None
      end
  end
with parse_members (fuel : nat) (acc : list (jsstring * jsval)) (s : jsstring)
  : option (jsval * jsstring) :=
  match fuel with
  | O => None
  | S f =>
      match skip_ws s with
      | q :: r =>
          if q =? 34 then
            match parse_string_body r with
            | Some (k, r1) =>
                match skip_ws r1 with
                | c :: r2 =>
                    if c =? 58 then
                      match parse_value f r2 with
                      | Some (v, r3) =>
                          match skip_ws r3 with
                          | d :: r4 =>
                              if d =? 44
                              then parse_members f (define_prop k v acc) r4
                              else if d =? 125
                              then Some (JObj (define_prop k v acc), r4)
                              else None
                          | [] => None
                          end
                      | None => None
                      end
                    else None
                | [] => None
                end
            | None => None
            end
          else None
      | [] => None
      end
  end.

(** [JSON.parse(text)]: [None] is a SyntaxError.  Every call of the
    parser is made on a shorter rest of the text or right after one
    character was read, so twice the length is fuel enough
    ([JSON_parse_complete] below). *)
Definition JSON_parse (text : jsstring) : option jsval :=
  match parse_value (2 * length text + 2) text with
  | Some (v, rest) => if is_nil (skip_ws rest) then Some v else None
  | None => None
  end.

(** ** Numeric strings: what [Number] and [BigInt] read *)

Definition is_str_ws (c : N) : bool :=
  ((9 <=? c) && (c <=? 13)) || (c =? 32) || (c =? 160) || (c =? 5760)
  || ((8192 <=? c) && (c <=? 8202)) || (c =? 8232) || (c =? 8233)
  || (c =? 8239) || (c =? 8287) || (c =? 12288) || (c =? 65279).

Fixpoint trim_start (s : jsstring) : jsstring :=
  match s with
  | c :: r => if is_str_ws c then trim_start r else s
  | [] => []
  end.

Definition trim (s : jsstring) : jsstring :=
  rev (trim_start (rev (trim_start s))).

Definition all_digits (radix : N) (ds : jsstring) : bool :=
  negb (is_nil ds) && forallb (is_digit radix) ds.

(** [0x..], [0o..], [0b..] *)
Definition non_decimal_integer (s : jsstring) : option Z :=
  match s with
  | z :: p :: ds =>
      let radix :=
        if (p =? 120) || (p =? 88) then Some 16
        else if (p =? 111) || (p =? 79) then Some 8
        else if (p =? 98) || (p =? 66) then Some 2
        else None in
      match radix with
      | Some rx => if (z =? 48) && all_digits rx ds
                   then Some (Z_of_digits rx ds) else None
      | None => None
      end
  | _ => None
  end.

Definition strip_sign (s : jsstring) : bool * jsstring :=
  match s with
  | c :: r => if c =? 45 then (true, r)
              else if c =? 43 then (false, r) else (false, s)
  | [] => (false, s)
  end.

(** [StringToBigInt]: [None] is "not an integer literal". *)
Definition StringToBigInt (s : jsstring) : option Z :=
  let t := trim s in
  if is_nil t then Some 0%Z
  else
    match non_decimal_integer t with
    | Some z => Some z
    | None =>
        let '(neg, ds) := strip_sign t in
        if all_digits 10 ds
        then Some (if neg then - Z_of_digits 10 ds else Z_of_digits 10 ds)%Z
        else None
    end.

Definition unsigned_decimal (s : jsstring) : number :=
  if bool_decide (s = js "Infinity") then Inf false
  else
    let '(int, s1) := take_digits 10 s in
    let '(fd, s2) :=
      match s1 with
      | c :: r => if c =? 46 then take_digits 10 r else ([], s1)
      | [] => ([], s1)
      end in
    if is_nil int && is_nil fd then NaN
    else
      match parse_exponent s2 with
      | Some (ex, []) =>
          double_of_decimal (Z_of_digits 10 (int ++ fd))
                            (ex - Z.of_nat (length fd))
      | _ => NaN
      end.

(** [StringToNumber] *)
Definition StringToNumber (s : jsstring) : number :=
  let t := trim s in
  if is_nil t then Fin 0 0
  else
    match non_decimal_integer t with
    | Some z => number_of_Z z
    | None =>
        let '(neg, u) := strip_sign t in
        if neg then number_neg (unsigned_decimal u) else unsigned_decimal u
    end.

(** An array or object becomes the string it prints as, when it can be
    printed: the inherited [valueOf] gives the object back, so the
    conversion falls to [toString], with either hint. *)
Definition ToPrimitive (v : jsval) : result jsval :=
  match v with
  | JArr _ | JObj _ =>
      match ToString v with
      | Ok s => Ok (JStr s)
      | Throw e => Throw e
      end
  | _ => Ok v
  end.

(** [BigInt(v)] *)
Definition BigInt (v : jsval) : result Z :=
  match ToPrimitive v with
  | Throw e => Throw e
  | Ok (JNum x) =>
      match number_to_Z x with
      | Some z => Ok z
      | None => Throw RangeError
      end
  | Ok (JBool b) => Ok (if b then 1 else 0)%Z
  | Ok (JStr s) =>
      match StringToBigInt s with
      | Some z => Ok z
      | None => Throw SyntaxError
      end
  | Ok _ => Throw TypeError
  end.

(** [Number(v)] *)
Definition Number (v : jsval) : result number :=
  match ToPrimitive v with
  | Throw e => Throw e
  | Ok JNull => Ok (Fin 0 0)
  | Ok (JBool b) => Ok (if b then Fin 1 0 else Fin 0 0)
  | Ok (JNum x) => Ok x
  | Ok (JStr s) => Ok (StringToNumber s)
  | Ok _ => Ok NaN
  end.

(** * src/chains.ts *)

Local Open Scope Z_scope.

(** The chain objects come from [viem/chains]; their id and name are kept. *)
Record Chain := { chain_id : Z; chain_name : jsstring }.

Definition mainnet : Chain := {| chain_id := 1; chain_name := js "Ethereum" |}.
Definition sepolia : Chain := {| chain_id := 11155111; chain_name := js "Sepolia" |}.
Definition base : Chain := {| chain_id := 8453; chain_name := js "Base" |}.

(** The object literal [{ 1: mainnet, 11155111: sepolia, 8453: base }]:
    three properties defined in that order, named by the decimal of the
    key. *)
Definition CHAIN_MAP : list (jsstring * Chain) :=
  define_prop (js "8453") base
    (define_prop (js "11155111") sepolia
       (define_prop (js "1") mainnet [])).

Definition Object_keys {A} (o : list (jsstring * A)) : list jsstring :=
  map fst o.

(** A chain id is a number holding an integer; [Z_to_radix 10] is what
    the property access and the template literal make of it (for a safe
    integer, the plain decimal). *)
Definition resolveChain (chainId : Z) : result Chain :=
  match lookup_prop (Z_to_radix 10 chainId) CHAIN_MAP with
  | Some chain => Ok chain
  | None =>
      Throw (Error (js "Unsupported chain ID: " ++ Z_to_radix 10 chainId
                    ++ js ". Supported: "
                    ++ join (js ", ") (Object_keys CHAIN_MAP)))
  end.

Definition safe_integer (z : Z) : Prop := - 2 ^ 53 < z < 2 ^ 53.

(** * The world outside: files, custody service, clock, RPC node, signer *)

Record CreateWalletOptions := {
  opt_privyAppId : jsstring;
  opt_privyAppSecret : jsstring
}.

Record PersistedWallet := {
  walletId : jsstring;
  address : jsstring;
  authPrivateKey : jsstring;
  authPublicKey : jsstring;
  createdAt : jsstring
}.

Record PrivyProviderConfig := {
  privyAppId : jsstring;
  privyAppSecret : jsstring;
  cfg_walletId : jsstring;
  walletAddress : jsstring;
  authorizationPrivateKey : jsstring;
  rpcUrl : jsstring;
  chainId : Z
}.

(** What [generateP256KeyPair] resolves to. *)
Record KeyPair := { privateKey : jsstring; publicKey : jsstring }.

(** What [privy.wallets().create] resolves to, as far as it is read. *)
Record CreatedWallet := { wallet_id : jsstring; wallet_address : jsstring }.

Record HttpRequest := {
  http_url : jsstring;
  http_method : jsstring;
  http_headers : list (jsstring * jsstring);
  http_body : jsstring
}.

(** The wallet client of the provider: the account made by
    [createViemAccount], the chain and the transport URL. *)
Record WalletClient := {
  wc_appId : jsstring;
  wc_appSecret : jsstring;
  wc_walletId : jsstring;
  wc_address : jsstring;
  wc_authorization_private_keys : list jsstring;
  wc_chain : Chain;
  wc_transport : jsstring
}.

(** The three operations the provider asks of the wallet client, with
    their arguments.  [None] is a field passed as [undefined]. *)
Inductive SignerCall :=
| sendTransaction (to data : jsval) (value gas : option Z)
    (nonce : option number) (chain : Chain)
| signMessage (raw : jsval)
| signTypedData (domain : jsval) (types : list (jsstring * jsval))
    (primaryType message : jsval).

(** The state: the files (resolved path to text), and a log of every call
    the program itself makes to the outside.  [http_posts] holds the
    requests the program sends with [fetch]; what the wallet client sends
    while it serves a call is its own and is behind [signer_reply].
    [createWallet_calls] counts the entries into [createWallet]; it is not
    part of the program. *)
Record State := {
  files : gmap jsstring jsstring;
  keygen_calls : nat;
  custody_creates : list (CreateWalletOptions * jsstring);
  clock_reads : nat;
  http_posts : list HttpRequest;
  signer_calls : list (WalletClient * SignerCall);
  createWallet_calls : nat
}.

(** How a write ends.  The text is stored; or the call throws, and the
    file is as it was ([None]: it could not be opened) or holds what was
    written when the failure came ([Some partial]). *)
Inductive WriteOutcome :=
| Written
| WriteFailed (e : exn) (left : option jsstring).

(** The environment: how the outside answers.  Each answer may depend on
    everything that happened before (the state) and on the request.
    [write_reply] is how a write of a text to a path ends;
    [account_reply] is whether [createViemAccount] accepts the
    application, the wallet id, the address and the authorization keys
    (it validates the address). *)
Record Env := {
  path_resolve : jsstring -> jsstring;
  keygen_reply : State -> result KeyPair;
  custody_reply : State -> CreateWalletOptions -> jsstring -> result CreatedWallet;
  clock_reply : State -> jsstring;
  fetch_reply : State -> HttpRequest -> result jsstring;
  signer_reply : State -> WalletClient -> SignerCall -> result jsval;
  write_reply : State -> jsstring -> jsstring -> WriteOutcome;
  account_reply : jsstring -> jsstring -> jsstring -> jsstring -> list jsstring
                  -> result unit
}.

(** ** The monad of the program: state and exceptions *)

Definition M (A : Type) : Type := State -> result A * State.

Definition ret {A} (a : A) : M A := fun st => (Ok a, st).
Definition throw {A} (e : exn) : M A := fun st => (Throw e, st).
Definition lift {A} (r : result A) : M A := fun st => (r, st).

Definition bind {A B} (m : M A) (k : A -> M B) : M B :=
  fun st =>
    match m st with
    | (Ok a, st') => k a st'
    | (Throw e, st') => (Throw e, st')
    end.

Notation "'let*' x ':=' m 'in' k" := (bind m (fun x => k))
  (at level 10, x pattern, m at level 100, k at level 200).

(** ** Primitive effects *)

Definition existsSync (p : jsstring) : M bool :=
  fun st => (Ok (bool_decide (is_Some (files st !! p))), st).

(** The files of the model are regular, readable files. *)
Definition readFileSync (p : jsstring) : M jsstring :=
  fun st =>
    match files st !! p with
    | Some text => (Ok text, st)
    | None => (Throw (Error (js "ENOENT")), st)
    end.

Definition set_file (p : jsstring) (content : jsstring) (st : State) : State :=
  {| files := <[p := content]> (files st);
     keygen_calls := keygen_calls st;
     custody_creates := custody_creates st;
     clock_reads := clock_reads st;
     http_posts := http_posts st;
     signer_calls := signer_calls st;
     createWallet_calls := createWallet_calls st |}.

(** The text is stored as UTF-8.  The write can fail: the call then
    throws, and the file is untouched or left with what got written. *)
Definition writeFileSync (env : Env) (p text : jsstring) : M unit :=
  fun st =>
    match write_reply env st p text with
    | Written => (Ok tt, set_file p (toWellFormed text) st)
    | WriteFailed e None => (Throw e, st)
    | WriteFailed e (Some partial) => (Throw e, set_file p partial st)
    end.

Definition generateP256KeyPair (env : Env) : M KeyPair :=
  fun st =>
    (keygen_reply env st,
     {| files := files st;
        keygen_calls := S (keygen_calls st);
        custody_creates := custody_creates st;
        clock_reads := clock_reads st;
        http_posts := http_posts st;
        signer_calls := signer_calls st;
        createWallet_calls := createWallet_calls st |}).

(** [privy.wallets().create({chain_type: 'ethereum', owner: {public_key}})]
    on a client made from [opts]. *)
Definition wallets_create (env : Env) (opts : CreateWalletOptions)
  (public_key : jsstring) : M CreatedWallet :=
  fun st =>
    (custody_reply env st opts public_key,
     {| files := files st;
        keygen_calls := keygen_calls st;
        custody_creates := custody_creates st ++ [(opts, public_key)];
        clock_reads := clock_reads st;
        http_posts := http_posts st;
        signer_calls := signer_calls st;
        createWallet_calls := createWallet_calls st |}).

(** [new Date().toISOString()] *)
Definition now_toISOString (env : Env) : M jsstring :=
  fun st =>
    (Ok (clock_reply env st),
     {| files := files st;
        keygen_calls := keygen_calls st;
        custody_creates := custody_creates st;
        clock_reads := S (clock_reads st);
        http_posts := http_posts st;
        signer_calls := signer_calls st;
        createWallet_calls := createWallet_calls st |}).

(** [fetch(url, init)] followed by reading the body of the response. *)
Definition fetch (env : Env) (req : HttpRequest) : M jsstring :=
  fun st =>
    (fetch_reply env st req,
     {| files := files st;
        keygen_calls := keygen_calls st;
        custody_creates := custody_creates st;
        clock_reads := clock_reads st;
        http_posts := http_posts st ++ [req];
        signer_calls := signer_calls st;
        createWallet_calls := createWallet_calls st |}).

Definition walletClient_call (env : Env) (wc : WalletClient) (c : SignerCall)
  : M jsval :=
  fun st =>
    (signer_reply env st wc c,
     {| files := files st;
        keygen_calls := keygen_calls st;
        custody_creates := custody_creates st;
        clock_reads := clock_reads st;
        http_posts := http_posts st;
        signer_calls := signer_calls st ++ [(wc, c)];
        createWallet_calls := createWallet_calls st |}).

Definition enter_createWallet : M unit :=
  fun st =>
    (Ok tt,
     {| files := files st;
        keygen_calls := keygen_calls st;
        custody_creates := custody_creates st;
        clock_reads := clock_reads st;
        http_posts := http_posts st;
        signer_calls := signer_calls st;
        createWallet_calls := S (createWallet_calls st) |}).

(** * src/wallet.ts *)

Definition DEFAULT_WALLET_FILE : jsstring := js ".privy-wallet.json".

(** The object a [PersistedWallet] is, properties in the order of the
    object literal of [createWallet]. *)
Definition wallet_object (w : PersistedWallet) : jsval :=
  JObj [(js "walletId", JStr (walletId w));
        (js "address", JStr (address w));
        (js "authPrivateKey", JStr (authPrivateKey w));
        (js "authPublicKey", JStr (authPublicKey w));
        (js "createdAt", JStr (createdAt w))].

Definition createWallet (env : Env) (opts : CreateWalletOptions)
  : M PersistedWallet :=
  let* _ := enter_createWallet in
  let* keypair := generateP256KeyPair env in
  let* wallet := wallets_create env opts (publicKey keypair) in
  let* now := now_toISOString env in
  ret {| walletId := wallet_id wallet;
         address := wallet_address wallet;
         authPrivateKey := privateKey keypair;
         authPublicKey := publicKey keypair;
         createdAt := now |}.

(** The result is whatever the text parses to: the cast to
    [PersistedWallet] checks nothing. *)
Definition loadWallet (env : Env) (filePath : option jsstring) : M jsval :=
  let resolved := path_resolve env (default DEFAULT_WALLET_FILE filePath) in
  let* present := existsSync resolved in
  if negb present then ret JNull
  else
    let* text := readFileSync resolved in
    match JSON_parse text with
    | Some v => ret v
    | None => throw SyntaxError
    end.

(** The text [saveWallet] writes. *)
Definition wallet_text (wallet : PersistedWallet) : jsstring :=
  default (js "undefined") (JSON_stringify (wallet_object wallet) 2) ++ [10%N].

Definition saveWallet (env : Env) (wallet : PersistedWallet)
  (filePath : option jsstring) : M unit :=
  let resolved := path_resolve env (default DEFAULT_WALLET_FILE filePath) in
  writeFileSync env resolved (wallet_text wallet).

Definition getOrCreateWallet (env : Env) (opts : CreateWalletOptions)
  (filePath : option jsstring) : M jsval :=
  let* existing := loadWallet env filePath in
  if truthy existing then ret existing
  else
    let* wallet := createWallet env opts in
    let* _ := saveWallet env wallet filePath in
    ret (wallet_object wallet).

(** * src/provider.ts *)

(** What [createPrivyProvider] closes over. *)
Record Provider := {
  walletClient : WalletClient;
  prov_chain : Chain;
  prov_rpcUrl : jsstring;
  prov_walletAddress : jsstring;
  prov_chainId : Z
}.

(** [createViemAccount(privy, {walletId, address, authorizationContext})]
    on a client made from the application id and secret. *)
Definition createViemAccount (env : Env) (config : PrivyProviderConfig)
  : result unit :=
  account_reply env (privyAppId config) (privyAppSecret config)
    (cfg_walletId config) (walletAddress config)
    [authorizationPrivateKey config].

(** The Privy client and the wallet client keep what they are given and
    call nobody.  The account is made first and may be refused; then
    [resolveChain] may throw. *)
Definition createPrivyProvider (env : Env) (config : PrivyProviderConfig)
  : result Provider :=
  match createViemAccount env config with
  | Throw e => Throw e
  | Ok _ =>
      match resolveChain (chainId config) with
      | Throw e => Throw e
      | Ok chain =>
          Ok {| walletClient :=
                  {| wc_appId := privyAppId config;
                     wc_appSecret := privyAppSecret config;
                     wc_walletId := cfg_walletId config;
                     wc_address := walletAddress config;
                     wc_authorization_private_keys :=
                       [authorizationPrivateKey config];
                     wc_chain := chain;
                     wc_transport := rpcUrl config |};
                prov_chain := chain;
                prov_rpcUrl := rpcUrl config;
                prov_walletAddress := walletAddress config;
                prov_chainId := chainId config |}
      end
  end.

(** The object [proxyToRpc] serializes. *)
Definition rpc_payload (method : jsstring) (params : jsval) : jsval :=
  JObj [(js "jsonrpc", JStr (js "2.0"));
        (js "id", JNum (Fin 1 0));
        (js "method", JStr method);
        (js "params", coalesce params (JArr []))].

Definition rpc_request (p : Provider) (method : jsstring) (params : jsval)
  : HttpRequest :=
  {| http_url := prov_rpcUrl p;
     http_method := js "POST";
     http_headers := [(js "Content-Type", js "application/json")];
     http_body := default (js "undefined")
                    (JSON_stringify (rpc_payload method params) 0) |}.

Definition proxyToRpc (env : Env) (p : Provider) (method : jsstring)
  (params : jsval) : M jsval :=
  let* text := fetch env (rpc_request p method params) in
  match JSON_parse text with
  | None => throw SyntaxError
  | Some json =>
      let* error := lift (get_prop json (js "error")) in
      if truthy error then
        let* message := lift (get_prop error (js "message")) in
        let* text := lift (ToString message) in
        throw (Error (js "RPC error (" ++ method ++ js "): " ++ text))
      else lift (get_prop json (js "result"))
  end.

(** [v != null ? f(v) : undefined] *)
Definition when_present {A} (v : jsval) (f : jsval -> result A)
  : result (option A) :=
  if nullish v then Ok None
  else match f v with
       | Ok a => Ok (Some a)
       | Throw e => Throw e
       end.

Definition request (env : Env) (p : Provider) (method : jsstring)
  (params : jsval) : M jsval :=
  if jsstring_eqb method (js "eth_accounts")
     || jsstring_eqb method (js "eth_requestAccounts")
  then ret (JArr [JStr (prov_walletAddress p)])
  else if jsstring_eqb method (js "eth_chainId")
  then ret (JStr (js "0x" ++ Z_to_radix 16 (prov_chainId p)))
  else if jsstring_eqb method (js "eth_sendTransaction")
  then
    let* tx := lift (get_prop params (js "0")) in
    let* to := lift (get_prop tx (js "to")) in
    let* data := lift (get_prop tx (js "data")) in
    let* tx_value := lift (get_prop tx (js "value")) in
    let* value := lift (when_present tx_value BigInt) in
    let* tx_gas := lift (get_prop tx (js "gas")) in
    let* gas := lift (when_present tx_gas BigInt) in
    let* tx_nonce := lift (get_prop tx (js "nonce")) in
    let* nonce := lift (when_present tx_nonce Number) in
    let* hash :=
      walletClient_call env (walletClient p)
        (sendTransaction to data value gas nonce (prov_chain p)) in
    ret hash
  else if jsstring_eqb method (js "personal_sign")
  then
    let* message := lift (get_prop params (js "0")) in
    let* signature :=
      walletClient_call env (walletClient p) (signMessage message) in
    ret signature
  else if jsstring_eqb method (js "eth_signTypedData_v4")
  then
    let* typedDataRaw := lift (get_prop params (js "1")) in
    let* typedData :=
      match typedDataRaw with
      | JStr text =>
          match JSON_parse text with
          | Some v => ret v
          | None => throw SyntaxError
          end
      | _ => ret typedDataRaw
      end in
    let* types := lift (get_prop typedData (js "types")) in
    let* all_types := lift (own_props types) in
    let typesWithoutDomain :=
      List.filter (fun kv => negb (jsstring_eqb (fst kv) (js "EIP712Domain")))
             all_types in
    let* domain := lift (get_prop typedData (js "domain")) in
    let* primaryType := lift (get_prop typedData (js "primaryType")) in
    let* primary_type := lift (get_prop typedData (js "primary_type")) in
    let* message := lift (get_prop typedData (js "message")) in
    let* signature :=
      walletClient_call env (walletClient p)
        (signTypedData domain typesWithoutDomain
           (coalesce primaryType primary_type) message) in
    ret signature
  else proxyToRpc env p method params.

(** * Definitions used to state the theorems *)

Local Open Scope N_scope.

(** Reading back what [Z_to_radix] prints. *)
Definition Z_of_radix (radix : N) (s : jsstring) : Z :=
  match s with
  | c :: r => if c =? 45 then (- Z.of_N (digits_value radix r))%Z
              else Z.of_N (digits_value radix s)
  | [] => 0%Z
  end.

Definition is_lower_hex (c : N) : bool :=
  ((48 <=? c) && (c <=? 57)) || ((97 <=? c) && (c <=? 102)).

(** A text without a surrogate outside a pair. *)
Inductive well_formed : jsstring -> Prop :=
| wf_nil : well_formed []
| wf_unit c s :
    is_surrogate c = false -> well_formed s -> well_formed (c :: s)
| wf_pair c d s :
    is_high_surrogate c = true -> is_low_surrogate d = true ->
    well_formed s -> well_formed (c :: d :: s).

(** One member of a pretty-printed object whose value is a string. *)
Definition member_text (kv : jsstring * jsstring) : jsstring :=
  QuoteJSONString (fst kv) ++ 58 :: 32 :: QuoteJSONString (snd kv).

Definition wallet_members (w : PersistedWallet) : list (jsstring * jsstring) :=
  [(js "walletId", walletId w);
   (js "address", address w);
   (js "authPrivateKey", authPrivateKey w);
   (js "authPublicKey", authPublicKey w);
   (js "createdAt", createdAt w)].

(** The properties a parser defines for such members, one after the
    other. *)
Definition define_members (members : list (jsstring * jsstring))
  (acc : list (jsstring * jsval)) : list (jsstring * jsval) :=
  fold_left (fun a kv => define_prop (fst kv) (JStr (snd kv)) a) members acc.

(** A syntactically valid credential record: five strings. *)
Definition valid_wallet (w : PersistedWallet) : Prop :=
  valid_string (walletId w) /\ valid_string (address w) /\
  valid_string (authPrivateKey w) /\ valid_string (authPublicKey w) /\
  valid_string (createdAt w).

(** A literal with ['] written for the double quote. *)
Definition jsq (s : string) : jsstring :=
  map (fun c => if c =? 39 then 34 else c) (js s).

Local Open Scope Z_scope.

(** ** A concrete world for examples *)

Definition empty_state : State :=
  {| files := ∅;
     keygen_calls := 0;
     custody_creates := [];
     clock_reads := 0;
     http_posts := [];
     signer_calls := [];
     createWallet_calls := 0 |}.

Definition stub_keypair : KeyPair :=
  {| privateKey := js "cHJpdmF0ZQ=="; publicKey := js "cHVibGlj" |}.

Definition stub_created : CreatedWallet :=
  {| wallet_id := js "wallet-1";
     wallet_address := js "0x00000000000000000000000000000000000000aa" |}.

Definition stub_env : Env :=
  {| path_resolve := fun p => js "/work/" ++ p;
     keygen_reply := fun _ => Ok stub_keypair;
     custody_reply := fun _ _ _ => Ok stub_created;
     clock_reply := fun _ => js "2024-01-01T00:00:00.000Z";
     fetch_reply := fun _ _ => Ok (jsq "{'jsonrpc':'2.0','id':1,'result':'0x10'}");
     signer_reply := fun _ _ _ => Ok (JStr (js "0xsigned"));
     write_reply := fun _ _ _ => Written;
     account_reply := fun _ _ _ _ _ => Ok tt |}.

Definition stub_opts : CreateWalletOptions :=
  {| opt_privyAppId := js "app-id"; opt_privyAppSecret := js "app-secret" |}.

Definition sepolia_config : PrivyProviderConfig :=
  {| privyAppId := js "app-id";
     privyAppSecret := js "app-secret";
     cfg_walletId := js "wallet-1";
     walletAddress := js "0x00000000000000000000000000000000000000aa";
     authorizationPrivateKey := js "cHJpdmF0ZQ==";
     rpcUrl := js "https://rpc.example";
     chainId := 11155111 |}.

Definition sepolia_provider : Provider :=
  {| walletClient :=
       {| wc_appId := js "app-id";
          wc_appSecret := js "app-secret";
          wc_walletId := js "wallet-1";
          wc_address := js "0x00000000000000000000000000000000000000aa";
          wc_authorization_private_keys := [js "cHJpdmF0ZQ=="];
          wc_chain := sepolia;
          wc_transport := js "https://rpc.example" |};
     prov_chain := sepolia;
     prov_rpcUrl := js "https://rpc.example";
     prov_walletAddress := js "0x00000000000000000000000000000000000000aa";
     prov_chainId := 11155111 |}.

(** The path [loadWallet] and [saveWallet] resolve. *)
Definition wallet_path (env : Env) (filePath : option jsstring) : jsstring :=
  path_resolve env (default DEFAULT_WALLET_FILE filePath).

(** The empty world with one file at the default wallet path of
    [stub_env]. *)
Definition state_with_wallet_file (text : jsstring) : State :=
  {| files := {[ js "/work/.privy-wallet.json" := text ]};
     keygen_calls := 0;
     custody_creates := [];
     clock_reads := 0;
     http_posts := [];
     signer_calls := [];
     createWallet_calls := 0 |}.

Definition stub_wallet : PersistedWallet :=
  {| walletId := js "wallet-1";
     address := js "0x00000000000000000000000000000000000000aa";
     authPrivateKey := js "cHJpdmF0ZQ==";
     authPublicKey := js "cHVibGlj";
     createdAt := js "2024-01-01T00:00:00.000Z" |}.

(** An environment whose custody service rejects every creation. *)
Definition rejecting_env : Env :=
  {| path_resolve := path_resolve stub_env;
     keygen_reply := keygen_reply stub_env;
     custody_reply := fun _ _ _ => Throw (Rejected (js "custody service unreachable"));
     clock_reply := clock_reply stub_env;
     fetch_reply := fetch_reply stub_env;
     signer_reply := signer_reply stub_env;
     write_reply := write_reply stub_env;
     account_reply := account_reply stub_env |}.

(** The method names [request] handles itself. *)
Definition handled_methods : list jsstring :=
  [js "eth_accounts"; js "eth_requestAccounts"; js "eth_chainId";
   js "eth_sendTransaction"; js "personal_sign"; js "eth_signTypedData_v4"].

(** An environment whose node answers with an [error] member that is
    [null], next to the result. *)
Definition null_error_env : Env :=
  {| path_resolve := path_resolve stub_env;
     keygen_reply := keygen_reply stub_env;
     custody_reply := custody_reply stub_env;
     clock_reply := clock_reply stub_env;
     fetch_reply := fun _ _ =>
       Ok (jsq "{'jsonrpc':'2.0','id':1,'error':null,'result':'0x1'}");
     signer_reply := signer_reply stub_env;
     write_reply := write_reply stub_env;
     account_reply := account_reply stub_env |}.

(** An environment whose node answers with an error object. *)
Definition failing_node_env : Env :=
  {| path_resolve := path_resolve stub_env;
     keygen_reply := keygen_reply stub_env;
     custody_reply := custody_reply stub_env;
     clock_reply := clock_reply stub_env;
     fetch_reply := fun _ _ =>
       Ok (jsq "{'jsonrpc':'2.0','id':1,'error':{'code':-32601,'message':'Method not found'}}");
     signer_reply := signer_reply stub_env;
     write_reply := write_reply stub_env;
     account_reply := account_reply stub_env |}.

(** An environment whose node answers with an error whose message is an
    object that cannot be printed: its own [toString] is not a function. *)
Definition unprintable_error_env : Env :=
  {| path_resolve := path_resolve stub_env;
     keygen_reply := keygen_reply stub_env;
     custody_reply := custody_reply stub_env;
     clock_reply := clock_reply stub_env;
     fetch_reply := fun _ _ =>
       Ok (jsq "{'jsonrpc':'2.0','id':1,'error':{'message':{'toString':1}}}");
     signer_reply := signer_reply stub_env;
     write_reply := write_reply stub_env;
     account_reply := account_reply stub_env |}.

(** The second parameter of [eth_signTypedData_v4] carries a payload
    either as the value itself or as its JSON text. *)
Definition carries (raw payload : jsval) : Prop :=
  (raw = payload /\ forall s, payload <> JStr s)
  \/ (exists text, raw = JStr text /\ JSON_parse text = Some payload).

(** Neither spelling of the primary-type member is present. *)
Definition no_primary_type (props : list (jsstring * jsval)) : Prop :=
  lookup_prop (js "primaryType") props = None /\
  lookup_prop (js "primary_type") props = None.

(** What the [eth_signTypedData_v4] case does once the payload is at
    hand. *)
Definition sign_typed_payload (env : Env) (p : Provider) (typedData : jsval)
  : M jsval :=
  let* types := lift (get_prop typedData (js "types")) in
  let* all_types := lift (own_props types) in
  let typesWithoutDomain :=
    List.filter (fun kv => negb (jsstring_eqb (fst kv) (js "EIP712Domain")))
                all_types in
  let* domain := lift (get_prop typedData (js "domain")) in
  let* primaryType := lift (get_prop typedData (js "primaryType")) in
  let* primary_type := lift (get_prop typedData (js "primary_type")) in
  let* message := lift (get_prop typedData (js "message")) in
  let* signature :=
    walletClient_call env (walletClient p)
      (signTypedData domain typesWithoutDomain
         (coalesce primaryType primary_type) message) in
  ret signature.

(** A typed-data payload for the examples, with the primary type under
    either name. *)
Definition mail_types : jsval :=
  JObj [(js "EIP712Domain",
         JArr [JObj [(js "name", JStr (js "name")); (js "type", JStr (js "string"))]]);
        (js "Mail",
         JArr [JObj [(js "name", JStr (js "contents")); (js "type", JStr (js "string"))]])].

Definition mail_payload (primary_key : jsstring) : jsval :=
  JObj ([(js "domain", JObj [(js "name", JStr (js "Ether Mail"))]);
         (js "types", mail_types)]
        ++ (primary_key, JStr (js "Mail"))
        :: [(js "message", JObj [(js "contents", JStr (js "Hello"))])]).

(** The JSON text of the payload that uses [primary_type]. *)
Definition mail_text : jsstring :=
  default [] (JSON_stringify (mail_payload (js "primary_type")) 0).

(** The sign a decimal string may start with. *)
Inductive sign := no_sign | plus_sign | minus_sign.

Definition sign_text (sg : sign) : jsstring :=
  match sg with
  | no_sign => []
  | plus_sign => [43%N]
  | minus_sign => [45%N]
  end.

Definition signed (sg : sign) (z : Z) : Z :=
  match sg with
  | minus_sign => - z
  | _ => z
  end.

(** A transaction field given as a decimal string (digits, leading zeros
    allowed, behind an optional sign), a hex string ([0x] or [0X] and
    digits of either case) or an integral number, and the integer it
    stands for. *)
Inductive numeric_input : jsval -> Z -> Prop :=
| decimal_string (sg : sign) (ds : jsstring) :
    all_digits 10 ds = true ->
    numeric_input (JStr (sign_text sg ++ ds)) (signed sg (Z_of_digits 10 ds))
| hex_string (x : N) (hs : jsstring) :
    x = 120%N \/ x = 88%N ->
    all_digits 16 hs = true ->
    numeric_input (JStr (48%N :: x :: hs)) (Z_of_digits 16 hs)
| integral_number (x : number) (z : Z) :
    number_to_Z x = Some z -> numeric_input (JNum x) z.

(** A field of the transaction object and the integer it should be passed
    as: absent ([null] or [undefined]) and passed as [undefined], or a
    numeric input. *)
Definition field_denotes (v : jsval) (z : option Z) : Prop :=
  match z with
  | None => nullish v = true
  | Some n => numeric_input v n
  end.

(** What [Number] makes of a numeric input that stands for [z]: a number
    is passed as it is, a string as the double nearest to [z] (ties to
    even; an infinity beyond the largest double). *)
Definition nonce_of (v : jsval) (z : Z) : number :=
  match v with
  | JNum x => x
  | _ => number_of_Z z
  end.

(** The nonce handed to the signer for a field that denotes [z]. *)
Definition nonce_argument (v : jsval) (z : option Z) : option number :=
  match z with
  | Some n => Some (nonce_of v n)
  | None => None
  end.

(** A transaction for the examples: value in wei as a decimal string, gas
    as a hex string, nonce as a number. *)
Definition transfer_tx : list (jsstring * jsval) :=
  [(js "to", JStr (js "0x00000000000000000000000000000000000000bb"));
   (js "value", JStr (js "1000000000000000000000"));
   (js "gas", JStr (js "0x5208"));
   (js "nonce", JNum (Fin 7 0))].

(** A transaction in looser spellings: leading zeros, [0X] and uppercase
    hex digits, a sign. *)
Definition spelled_tx : list (jsstring * jsval) :=
  [(js "to", JStr (js "0x00000000000000000000000000000000000000bb"));
   (js "value", JStr (js "001000000000000000000000"));
   (js "gas", JStr (js "0X00AB"));
   (js "nonce", JStr (js "+7"))].

(** A transaction whose nonce, a decimal string, is above [2^53]. *)
Definition big_nonce_tx : list (jsstring * jsval) :=
  [(js "to", JStr (js "0x00000000000000000000000000000000000000bb"));
   (js "nonce", JStr (js "9007199254740993"))].

(** * src/wallet-client.ts *)

(** [createPrivyWalletClient]: the same client the provider signs with,
    handed out for direct use. *)
Definition createPrivyWalletClient (env : Env) (config : PrivyProviderConfig)
  : result WalletClient :=
  match createViemAccount env config with
  | Throw e => Throw e
  | Ok _ =>
      match resolveChain (chainId config) with
      | Throw e => Throw e
      | Ok chain =>
          Ok {| wc_appId := privyAppId config;
                wc_appSecret := privyAppSecret config;
                wc_walletId := cfg_walletId config;
                wc_address := walletAddress config;
                wc_authorization_private_keys :=
                  [authorizationPrivateKey config];
                wc_chain := chain;
                wc_transport := rpcUrl config |}
      end
  end.

(** * More definitions used to state theorems *)

(** An environment whose key generation fails. *)
Definition keygen_failing_env : Env :=
  {| path_resolve := path_resolve stub_env;
     keygen_reply := fun _ => Throw (Rejected (js "key generation failed"));
     custody_reply := custody_reply stub_env;
     clock_reply := clock_reply stub_env;
     fetch_reply := fetch_reply stub_env;
     signer_reply := signer_reply stub_env;
     write_reply := write_reply stub_env;
     account_reply := account_reply stub_env |}.

(** An environment whose disk refuses every write: the file cannot be
    opened. *)
Definition unwritable_env : Env :=
  {| path_resolve := path_resolve stub_env;
     keygen_reply := keygen_reply stub_env;
     custody_reply := custody_reply stub_env;
     clock_reply := clock_reply stub_env;
     fetch_reply := fetch_reply stub_env;
     signer_reply := signer_reply stub_env;
     write_reply := fun _ _ _ => WriteFailed (Error (js "ENOENT")) None;
     account_reply := account_reply stub_env |}.

(** An environment whose [createViemAccount] refuses every address. *)
Definition invalid_address_env : Env :=
  {| path_resolve := path_resolve stub_env;
     keygen_reply := keygen_reply stub_env;
     custody_reply := custody_reply stub_env;
     clock_reply := clock_reply stub_env;
     fetch_reply := fetch_reply stub_env;
     signer_reply := signer_reply stub_env;
     write_reply := write_reply stub_env;
     account_reply := fun _ _ _ _ _ => Throw (Error (js "InvalidAddressError")) |}.

(** A second record. *)
Definition other_wallet : PersistedWallet :=
  {| walletId := js "wallet-2";
     address := js "0x00000000000000000000000000000000000000cc";
     authPrivateKey := js "b3RoZXI=";
     authPublicKey := js "cHVibGljMg==";
     createdAt := js "2024-02-02T00:00:00.000Z" |}.

(** [st'] differs from [st] by nothing but the requests [posts] the
    program sent with [fetch] and the calls [calls] it made to the wallet
    client, appended to the logs. *)
Definition only_logs (st st' : State) (posts : list HttpRequest)
  (calls : list (WalletClient * SignerCall)) : Prop :=
  files st' = files st /\
  keygen_calls st' = keygen_calls st /\
  custody_creates st' = custody_creates st /\
  clock_reads st' = clock_reads st /\
  createWallet_calls st' = createWallet_calls st /\
  http_posts st' = http_posts st ++ posts /\
  signer_calls st' = signer_calls st ++ calls.

(** [v.k] for a [v] that is neither [null] nor [undefined]. *)
Definition field_of (v : jsval) (k : jsstring) : jsval :=
  match get_prop v k with
  | Ok x => x
  | Throw _ => JUndefined
  end.

(** The arguments [eth_sendTransaction] hands to the signer for the
    transaction object [tx], once [value], [gas] and [nonce] are
    converted. *)
Definition send_call (p : Provider) (tx : jsval) (value gas : option Z)
  (nonce : option number) : SignerCall :=
  sendTransaction (field_of tx (js "to")) (field_of tx (js "data")) value gas
    nonce (prov_chain p).

(** The arguments [eth_signTypedData_v4] hands to the signer for the
    payload [typedData] whose types have the own properties [all_types]. *)
Definition typed_call (typedData : jsval) (all_types : list (jsstring * jsval))
  : SignerCall :=
  signTypedData (field_of typedData (js "domain"))
    (List.filter (fun kv => negb (jsstring_eqb (fst kv) (js "EIP712Domain")))
                 all_types)
    (coalesce (field_of typedData (js "primaryType"))
              (field_of typedData (js "primary_type")))
    (field_of typedData (js "message")).

(** An environment whose signer refuses. *)
Definition refusing_signer_env : Env :=
  {| path_resolve := path_resolve stub_env;
     keygen_reply := keygen_reply stub_env;
     custody_reply := custody_reply stub_env;
     clock_reply := clock_reply stub_env;
     fetch_reply := fetch_reply stub_env;
     signer_reply := fun _ _ _ => Throw (Rejected (js "policy violation"));
     write_reply := write_reply stub_env;
     account_reply := account_reply stub_env |}.

(** An environment whose node cannot be reached. *)
Definition unreachable_node_env : Env :=
  {| path_resolve := path_resolve stub_env;
     keygen_reply := keygen_reply stub_env;
     custody_reply := custody_reply stub_env;
     clock_reply := clock_reply stub_env;
     fetch_reply := fun _ _ => Throw (Rejected (js "fetch failed"));
     signer_reply := signer_reply stub_env;
     write_reply := write_reply stub_env;
     account_reply := account_reply stub_env |}.

(** An environment whose node answers with a page that is not JSON. *)
Definition html_node_env : Env :=
  {| path_resolve := path_resolve stub_env;
     keygen_reply := keygen_reply stub_env;
     custody_reply := custody_reply stub_env;
     clock_reply := clock_reply stub_env;
     fetch_reply := fun _ _ => Ok (js "<html>Bad Gateway</html>");
     signer_reply := signer_reply stub_env;
     write_reply := write_reply stub_env;
     account_reply := account_reply stub_env |}.

(** An environment whose node answers with the JSON text [null]. *)
Definition null_body_env : Env :=
  {| path_resolve := path_resolve stub_env;
     keygen_reply := keygen_reply stub_env;
     custody_reply := custody_reply stub_env;
     clock_reply := clock_reply stub_env;
     fetch_reply := fun _ _ => Ok (js "null");
     signer_reply := signer_reply stub_env;
     write_reply := write_reply stub_env;
     account_reply := account_reply stub_env |}.

(** A code unit that [JSON.stringify] copies as it is: no control
    character, quote, backslash or surrogate. *)
Definition plain_unit (c : N) : bool :=
  (32 <=? c)%N && negb (c =? 34)%N && negb (c =? 92)%N && negb (is_surrogate c).

Definition plain (s : jsstring) : Prop := forallb plain_unit s = true.

(** * Facts about the platform model *)

(** ** Printing integers *)

Local Open Scope N_scope.

Lemma digit_val_digit_char (d : N) : d < 36 -> digit_val (digit_char d) = Some d.
Proof.
  intros Hd. unfold digit_char, digit_val.
  destruct (N.ltb_spec d 10) as [Hlt | Hge].
  - replace ((48 <=? 48 + d) && (48 + d <=? 57)) with true.
    + f_equal. lia.
    + symmetry. apply andb_true_iff. split; apply N.leb_le; lia.
  - replace ((48 <=? 87 + d) && (87 + d <=? 57)) with false.
    + replace ((97 <=? 87 + d) && (87 + d <=? 122)) with true.
      * f_equal. lia.
      * symmetry. apply andb_true_iff. split; apply N.leb_le; lia.
    + symmetry. apply andb_false_iff. right. apply N.leb_gt. lia.
Qed.

Lemma to_radix_aux_value (radix : N) (fuel : nat) :
  2 <= radix <= 36 ->
  forall n acc,
    n < 2 ^ N.of_nat fuel ->
    fold_left (fun a c => a * radix + default 0 (digit_val c))
              (to_radix_aux fuel radix n acc) 0
    = fold_left (fun a c => a * radix + default 0 (digit_val c)) acc n.
Proof.
  intros Hr. induction fuel as [| f IH]; intros n acc Hn.
  - simpl in Hn. assert (n = 0) by lia. subst n. reflexivity.
  - cbn [to_radix_aux].
    assert (Hmod : n mod radix < 36).
    { pose proof (N.mod_upper_bound n radix). lia. }
    destruct (N.eqb_spec (n / radix) 0) as [Hz | Hnz].
    + cbn [fold_left]. rewrite (digit_val_digit_char _ Hmod). cbn [default].
      f_equal. pose proof (N.div_mod n radix ltac:(lia)) as Hdm.
      rewrite Hz in Hdm. unfold id. lia.
    + rewrite IH.
      * cbn [fold_left]. rewrite (digit_val_digit_char _ Hmod). cbn [default].
        f_equal. pose proof (N.div_mod n radix ltac:(lia)) as Hdm. unfold id. lia.
      * rewrite Nat2N.inj_succ, N.pow_succ_r' in Hn.
        apply N.Div0.div_lt_upper_bound.
        nia.
Qed.

Lemma N_to_radix_value (radix n : N) :
  2 <= radix <= 36 -> digits_value radix (N_to_radix radix n) = n.
Proof.
  intros Hr. unfold digits_value, N_to_radix.
  rewrite to_radix_aux_value; [reflexivity | assumption |].
  rewrite Nat2N.inj_succ, N2Nat.id.
  destruct n as [| p]; [reflexivity |].
  apply N.log2_spec. lia.
Qed.

Lemma N_to_radix_inj (radix a b : N) :
  2 <= radix <= 36 -> N_to_radix radix a = N_to_radix radix b -> a = b.
Proof.
  intros Hr H.
  rewrite <- (N_to_radix_value radix a Hr), <- (N_to_radix_value radix b Hr).
  now rewrite H.
Qed.

Lemma digit_char_ge (d : N) : 48 <= digit_char d.
Proof. unfold digit_char. destruct (d <? 10); lia. Qed.

Lemma to_radix_aux_head (radix : N) (fuel : nat) :
  forall n acc,
    (acc = [] -> fuel <> O) ->
    exists d rest,
      to_radix_aux fuel radix n acc = d :: rest /\
      (48 <= d \/ exists a r, acc = a :: r /\ d = a /\ fuel = O).
Proof.
  induction fuel as [| f IH]; intros n acc Hacc.
  - destruct acc as [| a r]; [now destruct Hacc |].
    exists a, r. split; [reflexivity |]. right. now exists a, r.
  - cbn [to_radix_aux]. destruct (n / radix =? 0).
    + eexists _, _. split; [reflexivity |]. left. apply digit_char_ge.
    + destruct (IH (n / radix) (digit_char (n mod radix) :: acc))
        as (d & rest & Heq & Hd); [discriminate |].
      exists d, rest. split; [exact Heq |]. left.
      destruct Hd as [Hd | (a & r & Ha & -> & _)]; [exact Hd |].
      injection Ha as <- _. apply digit_char_ge.
Qed.

Lemma N_to_radix_head (radix n : N) :
  exists d rest, N_to_radix radix n = d :: rest /\ 48 <= d.
Proof.
  unfold N_to_radix.
  destruct (to_radix_aux_head radix (S (N.to_nat (N.log2 n))) n [])
    as (d & rest & Heq & Hd); [discriminate |].
  exists d, rest. split; [exact Heq |].
  destruct Hd as [Hd | (a & r & Ha & _)]; [exact Hd | discriminate].
Qed.

Lemma Z_of_to_radix (radix : N) (z : Z) :
  2 <= radix <= 36 -> Z_of_radix radix (Z_to_radix radix z) = z.
Proof.
  intros Hr. destruct z as [| p | p]; cbn [Z_to_radix].
  - reflexivity.
  - destruct (N_to_radix_head radix (Npos p)) as (d & rest & Heq & Hd).
    unfold Z_of_radix. rewrite Heq.
    destruct (N.eqb_spec d 45) as [-> | _]; [lia |].
    rewrite <- Heq, N_to_radix_value by assumption. reflexivity.
  - unfold Z_of_radix. rewrite N.eqb_refl, N_to_radix_value by assumption.
    reflexivity.
Qed.

Lemma Z_to_radix_inj (radix : N) (a b : Z) :
  2 <= radix <= 36 -> Z_to_radix radix a = Z_to_radix radix b -> a = b.
Proof.
  intros Hr H.
  rewrite <- (Z_of_to_radix radix a Hr), <- (Z_of_to_radix radix b Hr).
  now rewrite H.
Qed.

Lemma digit_char_lower_hex (d : N) : d < 16 -> is_lower_hex (digit_char d) = true.
Proof.
  intros Hd. unfold is_lower_hex, digit_char.
  destruct (N.ltb_spec d 10).
  - apply orb_true_iff. left. apply andb_true_iff. split; apply N.leb_le; lia.
  - apply orb_true_iff. right. apply andb_true_iff. split; apply N.leb_le; lia.
Qed.

Lemma to_radix_aux_lower_hex (fuel : nat) :
  forall n acc,
    forallb is_lower_hex acc = true ->
    forallb is_lower_hex (to_radix_aux fuel 16 n acc) = true.
Proof.
  induction fuel as [| f IH]; intros n acc Hacc; [exact Hacc |].
  cbn [to_radix_aux].
  assert (H : forallb is_lower_hex (digit_char (n mod 16) :: acc) = true).
  { cbn [forallb]. rewrite digit_char_lower_hex, Hacc; [reflexivity |].
    apply N.mod_upper_bound. lia. }
  destruct (n / 16 =? 0); [exact H | now apply IH].
Qed.

Lemma hex_of_nonneg (z : Z) :
  (0 <= z)%Z ->
  forallb is_lower_hex (Z_to_radix 16 z) = true /\
  Z.of_N (digits_value 16 (Z_to_radix 16 z)) = z.
Proof.
  intros Hz. destruct z as [| p | p]; [split; reflexivity | | lia].
  cbn [Z_to_radix]. split.
  - now apply to_radix_aux_lower_hex.
  - rewrite N_to_radix_value by lia. reflexivity.
Qed.

(** ** The network registry *)

Local Open Scope Z_scope.

Lemma CHAIN_MAP_eq :
  CHAIN_MAP = [(js "1", mainnet); (js "8453", base); (js "11155111", sepolia)].
Proof. reflexivity. Qed.

Lemma resolveChain_Ok_inv (z : Z) (c : Chain) :
  resolveChain z = Ok c ->
  (z = 1 /\ c = mainnet) \/ (z = 8453 /\ c = base)
  \/ (z = 11155111 /\ c = sepolia).
Proof.
  unfold resolveChain. rewrite CHAIN_MAP_eq. cbn [lookup_prop].
  unfold jsstring_eqb.
  repeat case_bool_decide; try discriminate; intros [= <-].
  - left. split; [| reflexivity].
    apply (Z_to_radix_inj 10 z 1); [lia | assumption].
  - right. left. split; [| reflexivity].
    apply (Z_to_radix_inj 10 z 8453); [lia | assumption].
  - right. right. split; [| reflexivity].
    apply (Z_to_radix_inj 10 z 11155111); [lia | assumption].
Qed.

(** C4. [resolveChain] is a function of the id alone (it takes and returns
    no state); on 1, 11155111 and 8453 it returns the entry with that id;
    on every other (safe integer) id it throws an error whose message
    names the id and lists the three supported ids. *)
Theorem resolveChain_total_lookup (id : Z) :
  safe_integer id ->
  (In id [1; 11155111; 8453] ->
   exists chain, resolveChain id = Ok chain /\ chain_id chain = id) /\
  (~ In id [1; 11155111; 8453] ->
   resolveChain id =
   Throw (Error (js "Unsupported chain ID: " ++ Z_to_radix 10 id
                 ++ js ". Supported: 1, 8453, 11155111"))).
Proof.
  intros _. split.
  - intros [<- | [<- | [<- | []]]].
    + exists mainnet. split; reflexivity.
    + exists sepolia. split; reflexivity.
    + exists base. split; reflexivity.
  - intros Hout. destruct (resolveChain id) as [c | e] eqn:Hres.
    + exfalso. apply Hout.
      destruct (resolveChain_Ok_inv _ _ Hres) as [[-> _] | [[-> _] | [-> _]]];
        cbn; tauto.
    + revert Hres. unfold resolveChain.
      destruct (lookup_prop (Z_to_radix 10 id) CHAIN_MAP); [discriminate |].
      intros [= <-]. reflexivity.
Qed.

Lemma resolveChain_total_lookup_witness :
  (exists chain, resolveChain 8453 = Ok chain /\ chain_id chain = 8453) /\
  resolveChain 5 =
  Throw (Error (js "Unsupported chain ID: 5. Supported: 1, 8453, 11155111")).
Proof.
  assert (Hs8 : safe_integer 8453) by (unfold safe_integer; lia).
  assert (Hs5 : safe_integer 5) by (unfold safe_integer; lia).
  split.
  - apply (proj1 (resolveChain_total_lookup 8453 Hs8)). cbn. tauto.
  - apply (proj2 (resolveChain_total_lookup 5 Hs5)). cbn. lia.
Defined.

(** ** The provider *)

Lemma createPrivyProvider_Ok_inv (env : Env) (config : PrivyProviderConfig)
  (p : Provider) :
  createPrivyProvider env config = Ok p ->
  prov_chainId p = chainId config /\
  prov_rpcUrl p = rpcUrl config /\
  prov_walletAddress p = walletAddress config /\
  resolveChain (chainId config) = Ok (prov_chain p) /\
  wc_chain (walletClient p) = prov_chain p.
Proof.
  unfold createPrivyProvider.
  destruct (createViemAccount env config); [| discriminate].
  destruct (resolveChain (chainId config)) as [c | e]; [| discriminate].
  intros [= <-]. cbn. repeat split; reflexivity.
Qed.

(** C3. On a provider made by [createPrivyProvider], [eth_chainId] returns
    ["0x"] followed by the lowercase hexadecimal digits of the configured
    chain id, and leaves the state (files and call logs) as it was; for
    chain id 11155111 the result is ["0xaa36a7"]. *)
Theorem eth_chainId_hex (env : Env) (config : PrivyProviderConfig)
  (p : Provider) (params : jsval) (st : State) :
  createPrivyProvider env config = Ok p ->
  exists digits,
    request env p (js "eth_chainId") params st
    = (Ok (JStr (js "0x" ++ digits)), st) /\
    forallb is_lower_hex digits = true /\
    Z.of_N (digits_value 16 digits) = chainId config /\
    (chainId config = 11155111 -> digits = js "aa36a7").
Proof.
  intros Hp.
  destruct (createPrivyProvider_Ok_inv _ _ _ Hp) as (Hid & _ & _ & Hres & _).
  exists (Z_to_radix 16 (chainId config)).
  assert (Hpos : 0 <= chainId config).
  { destruct (resolveChain_Ok_inv _ _ Hres) as [[-> _] | [[-> _] | [-> _]]]; lia. }
  destruct (hex_of_nonneg _ Hpos) as [Hhex Hval].
  repeat split; try assumption.
  - unfold request. rewrite Hid. reflexivity.
  - intros ->. reflexivity.
Qed.

Lemma sepolia_provider_made :
  createPrivyProvider stub_env sepolia_config = Ok sepolia_provider.
Proof. reflexivity. Qed.

Lemma eth_chainId_hex_witness :
  exists digits,
    request stub_env sepolia_provider (js "eth_chainId") JUndefined empty_state
    = (Ok (JStr (js "0x" ++ digits)), empty_state) /\
    forallb is_lower_hex digits = true /\
    Z.of_N (digits_value 16 digits) = 11155111 /\
    (chainId sepolia_config = 11155111 -> digits = js "aa36a7").
Proof.
  apply (eth_chainId_hex stub_env sepolia_config sepolia_provider JUndefined empty_state).
  reflexivity.
Defined.

(** ** Strings survive [JSON.stringify] and [JSON.parse] *)

Local Open Scope N_scope.

Lemma hex4_digits (c : N) :
  c < 65536 ->
  c / 4096 < 16 /\ (c / 256) mod 16 < 16 /\ (c / 16) mod 16 < 16 /\ c mod 16 < 16.
Proof.
  intros H. repeat split; try (apply N.mod_upper_bound; lia).
  apply N.Div0.div_lt_upper_bound. lia.
Qed.

Lemma is_digit_digit_char (radix d : N) :
  d < radix -> radix <= 36 -> is_digit radix (digit_char d) = true.
Proof.
  intros Hd Hr. unfold is_digit.
  rewrite digit_val_digit_char by lia. now apply N.ltb_lt.
Qed.

Lemma hex4_value_hex4 (c : N) :
  c < 65536 ->
  hex4_value (digit_char (c / 4096)) (digit_char ((c / 256) mod 16))
             (digit_char ((c / 16) mod 16)) (digit_char (c mod 16)) = Some c.
Proof.
  intros H. destruct (hex4_digits c H) as (H1 & H2 & H3 & H4).
  unfold hex4_value. cbn [forallb].
  rewrite !is_digit_digit_char by lia. cbn [andb].
  f_equal. unfold digits_value. cbn [fold_left].
  rewrite !digit_val_digit_char by lia.
  unfold default, from_option, id.
  zify. Z.to_euclidean_division_equations. lia.
Qed.

Lemma parse_UnicodeEscape (c : N) (rest : jsstring) :
  c < 65536 ->
  parse_string_body (UnicodeEscape c ++ rest)
  = cons_fst c <$> parse_string_body rest.
Proof.
  intros H. unfold UnicodeEscape, hex4. cbn [app parse_string_body].
  change (92 =? 34) with false. change (92 =? 92) with true.
  change (117 =? 117) with true. cbv iota.
  now rewrite hex4_value_hex4.
Qed.

Lemma parse_escape_unit (c : N) (rest : jsstring) :
  c < 65536 -> is_surrogate c = false ->
  parse_string_body (escape_unit c ++ rest)
  = cons_fst c <$> parse_string_body rest.
Proof.
  intros H Hs. unfold escape_unit.
  destruct (N.eqb_spec c 8) as [-> | N8]; [reflexivity |].
  destruct (N.eqb_spec c 9) as [-> | N9]; [reflexivity |].
  destruct (N.eqb_spec c 10) as [-> | N10]; [reflexivity |].
  destruct (N.eqb_spec c 12) as [-> | N12]; [reflexivity |].
  destruct (N.eqb_spec c 13) as [-> | N13]; [reflexivity |].
  destruct (N.eqb_spec c 34) as [-> | N34]; [reflexivity |].
  destruct (N.eqb_spec c 92) as [-> | N92]; [reflexivity |].
  destruct (N.ltb_spec c 32) as [Hlt | Hge].
  - now apply parse_UnicodeEscape.
  - cbn [app parse_string_body].
    destruct (N.eqb_spec c 34); [contradiction |].
    destruct (N.eqb_spec c 92); [contradiction |].
    destruct (N.ltb_spec c 32); [lia |]. reflexivity.
Qed.

Lemma parse_raw_unit (c : N) (rest : jsstring) :
  55296 <= c ->
  parse_string_body (c :: rest) = cons_fst c <$> parse_string_body rest.
Proof.
  intros H. cbn [parse_string_body].
  destruct (N.eqb_spec c 34); [lia |].
  destruct (N.eqb_spec c 92); [lia |].
  destruct (N.ltb_spec c 32); [lia |]. reflexivity.
Qed.

Lemma surrogate_split (c : N) :
  is_surrogate c = is_high_surrogate c || is_low_surrogate c.
Proof.
  unfold is_surrogate, is_high_surrogate, is_low_surrogate.
  destruct (N.leb_spec 55296 c), (N.leb_spec c 56319), (N.leb_spec 56320 c),
    (N.leb_spec c 57343); cbn; try reflexivity; lia.
Qed.

Lemma high_surrogate_ge (c : N) : is_high_surrogate c = true -> 55296 <= c.
Proof.
  unfold is_high_surrogate. intros [H _]%andb_true_iff. now apply N.leb_le.
Qed.

Lemma low_surrogate_ge (c : N) : is_low_surrogate c = true -> 55296 <= c.
Proof.
  unfold is_low_surrogate. intros [H _]%andb_true_iff.
  apply N.leb_le in H. lia.
Qed.

(** Induction two code units at a time. *)
Lemma jsstring_ind2 (P : jsstring -> Prop) :
  P [] ->
  (forall c, P [c]) ->
  (forall c d s, P s -> P (d :: s) -> P (c :: d :: s)) ->
  forall s, P s.
Proof.
  intros H0 H1 H2 s.
  assert (H : P s /\ forall c, P (c :: s)); [| exact (proj1 H)].
  induction s as [| d s [IHs IHc]]; split; auto.
Qed.

Lemma quote_body_cons (c : N) (r : jsstring) :
  quote_body (c :: r) =
  if is_high_surrogate c then
    match r with
    | d :: r' =>
        if is_low_surrogate d then c :: d :: quote_body r'
        else UnicodeEscape c ++ quote_body r
    | [] => UnicodeEscape c
    end
  else if is_low_surrogate c then UnicodeEscape c ++ quote_body r
  else escape_unit c ++ quote_body r.
Proof. reflexivity. Qed.

Theorem parse_quote_body (s rest : jsstring) :
  valid_string s ->
  parse_string_body (quote_body s ++ 34 :: rest) = Some (s, rest).
Proof.
  revert rest. induction s as [| c | c d s IHs IHd] using jsstring_ind2;
    intros rest Hv.
  - reflexivity.
  - apply Forall_cons in Hv as [Hc _]. unfold code_unit in Hc.
    cbn [quote_body].
    destruct (is_high_surrogate c) eqn:Hh.
    + rewrite parse_UnicodeEscape by assumption. reflexivity.
    + destruct (is_low_surrogate c) eqn:Hl.
      * rewrite <- app_assoc, parse_UnicodeEscape by assumption. reflexivity.
      * rewrite <- app_assoc, parse_escape_unit; [reflexivity | assumption |].
        now rewrite surrogate_split, Hh, Hl.
  - apply Forall_cons in Hv as [Hc Hv]. unfold code_unit in Hc.
    pose proof Hv as Hv'. apply Forall_cons in Hv' as [Hd Hs].
    rewrite quote_body_cons. cbv beta iota.
    destruct (is_high_surrogate c) eqn:Hh.
    + destruct (is_low_surrogate d) eqn:Hl.
      * cbn [app].
        rewrite parse_raw_unit by now apply high_surrogate_ge.
        rewrite parse_raw_unit by now apply low_surrogate_ge.
        now rewrite IHs.
      * rewrite <- app_assoc, parse_UnicodeEscape by assumption.
        now rewrite IHd.
    + destruct (is_low_surrogate c) eqn:Hl.
      * rewrite <- app_assoc, parse_UnicodeEscape by assumption.
        now rewrite IHd.
      * rewrite <- app_assoc, parse_escape_unit; [now rewrite IHd | assumption |].
        now rewrite surrogate_split, Hh, Hl.
Qed.

(** ** The text of a wallet file *)

Lemma skip_ws_ws (c : N) (s : jsstring) :
  is_json_ws c = true -> skip_ws (c :: s) = skip_ws s.
Proof. intros H. cbn [skip_ws]. now rewrite H. Qed.

Lemma skip_ws_stop (c : N) (s : jsstring) :
  is_json_ws c = false -> skip_ws (c :: s) = c :: s.
Proof. intros H. cbn [skip_ws]. now rewrite H. Qed.

Lemma parse_value_S (f : nat) (s : jsstring) :
  parse_value (S f) s =
  match skip_ws s with
  | [] => None
  | c :: r =>
      if c =? 34 then
        match parse_string_body r with
        | Some (str, rest) => Some (JStr str, rest)
        | None => None
        end
      else if c =? 123 then
        match skip_ws r with
        | d :: r' => if d =? 125 then Some (JObj [], r')
                     else parse_members f [] (d :: r')
        | [] => None
        end
      else if c =? 91 then
        match skip_ws r with
        | d :: r' => if d =? 93 then Some (JArr [], r')
                     else parse_elements f [] (d :: r')
        | [] => None
        end
      else if c =? 116 then parse_literal (js "true") (JBool true) (c :: r)
      else if c =? 102 then parse_literal (js "false") (JBool false) (c :: r)
      else if c =? 110 then parse_literal (js "null") JNull (c :: r)
      else
        match parse_number (c :: r) with
        | Some (x, rest) => Some (JNum x, rest)
        | None => None
        end
  end.
Proof. reflexivity. Qed.

Lemma parse_members_S (f : nat) (acc : list (jsstring * jsval)) (s : jsstring) :
  parse_members (S f) acc s =
  match skip_ws s with
  | q :: r =>
      if q =? 34 then
        match parse_string_body r with
        | Some (k, r1) =>
            match skip_ws r1 with
            | c :: r2 =>
                if c =? 58 then
                  match parse_value f r2 with
                  | Some (v, r3) =>
                      match skip_ws r3 with
                      | d :: r4 =>
                          if d =? 44
                          then parse_members f (define_prop k v acc) r4
                          else if d =? 125
                          then Some (JObj (define_prop k v acc), r4)
                          else None
                      | [] => None
                      end
                  | None => None
                  end
                else None
            | [] => None
            end
        | None => None
        end
      else None
  | [] => None
  end.
Proof. reflexivity. Qed.

(** A quoted string, possibly after one space, parses as a value. *)
Lemma parse_value_quoted (f : nat) (v rest : jsstring) :
  valid_string v ->
  parse_value (S f) (32 :: QuoteJSONString v ++ rest) = Some (JStr v, rest).
Proof.
  intros Hv. rewrite parse_value_S.
  unfold QuoteJSONString. cbn [app].
  rewrite skip_ws_ws, skip_ws_stop by reflexivity.
  change (34 =? 34) with true. cbv iota.
  rewrite <- app_assoc. cbn [app]. now rewrite parse_quote_body.
Qed.

(** One member, up to the rest that follows its value. *)
Lemma parse_member_text (f : nat) (acc : list (jsstring * jsval))
  (k v : jsstring) (rest : jsstring) :
  valid_string k -> valid_string v ->
  parse_members (S (S f)) acc (member_text (k, v) ++ rest) =
  match skip_ws rest with
  | d :: r4 =>
      if d =? 44 then parse_members (S f) (define_prop k (JStr v) acc) r4
      else if d =? 125 then Some (JObj (define_prop k (JStr v) acc), r4)
      else None
  | [] => None
  end.
Proof.
  intros Hk Hv. rewrite parse_members_S.
  unfold member_text. cbn [fst snd].
  unfold QuoteJSONString at 1. cbn [app].
  rewrite skip_ws_stop by reflexivity.
  change (34 =? 34) with true. cbv iota.
  rewrite <- !app_assoc. cbn [app].
  rewrite parse_quote_body by assumption.
  rewrite skip_ws_stop by reflexivity.
  change (58 =? 58) with true. cbv iota.
  now rewrite parse_value_quoted.
Qed.

Lemma parse_members_ws (f : nat) (acc : list (jsstring * jsval)) (c : N)
  (s : jsstring) :
  is_json_ws c = true -> parse_members f acc (c :: s) = parse_members f acc s.
Proof.
  intros Hc. destruct f as [| f]; [reflexivity |].
  now rewrite !parse_members_S, skip_ws_ws.
Qed.

(** The members of a pretty-printed flat object, up to its closing brace. *)
Lemma parse_members_flat (members : list (jsstring * jsstring)) :
  forall (f : nat) (acc : list (jsstring * jsval)) (rest : jsstring),
    members <> [] ->
    Forall (fun kv => valid_string (fst kv) /\ valid_string (snd kv)) members ->
    (length members <= f)%nat ->
    parse_members (S f) acc
      (join [44; 10; 32; 32] (map member_text members) ++ 10 :: 125 :: rest)
    = Some (JObj (define_members members acc), rest).
Proof.
  induction members as [| [k v] ms IH]; intros f acc rest Hne Hall Hlen;
    [contradiction |].
  apply Forall_cons in Hall as [[Hk Hv] Hms]. cbn [fst snd] in Hk, Hv.
  destruct f as [| f]; [cbn in Hlen; lia |].
  destruct ms as [| m ms].
  - cbn [map join].
    rewrite parse_member_text by assumption.
    rewrite skip_ws_ws, skip_ws_stop by reflexivity.
    reflexivity.
  - change (join [44; 10; 32; 32] (map member_text ((k, v) :: m :: ms)))
      with (member_text (k, v) ++ [44; 10; 32; 32]
            ++ join [44; 10; 32; 32] (map member_text (m :: ms))).
    rewrite <- !app_assoc. cbn [app].
    rewrite parse_member_text by assumption.
    rewrite skip_ws_stop by reflexivity.
    change (44 =? 44) with true. cbv iota.
    rewrite !parse_members_ws by reflexivity.
    cbn [length] in Hlen.
    rewrite IH; [reflexivity | discriminate | assumption | cbn [length]; lia].
Qed.

Lemma wallet_text_eq (w : PersistedWallet) :
  wallet_text w =
  123 :: 10 :: 32 :: 32
  :: join [44; 10; 32; 32] (map member_text (wallet_members w))
     ++ 10 :: 125 :: [10].
Proof.
  unfold wallet_text, JSON_stringify.
  change (default (js "undefined")
            (SerializeJSONProperty (repeat 32 (Nat.min 10 2)) [] (wallet_object w)))
    with (123 :: 10 :: 32 :: 32
          :: join [44; 10; 32; 32] (map member_text (wallet_members w))
             ++ 10 :: [125]).
  cbn [app]. now rewrite <- app_assoc.
Qed.

Lemma wallet_members_valid (w : PersistedWallet) :
  valid_wallet w ->
  Forall (fun kv => valid_string (fst kv) /\ valid_string (snd kv))
         (wallet_members w).
Proof.
  intros (H1 & H2 & H3 & H4 & H5).
  repeat constructor; cbn [fst snd]; assumption.
Qed.

Lemma wallet_members_head (w : PersistedWallet) (rest : jsstring) :
  exists t,
    join [44; 10; 32; 32] (map member_text (wallet_members w)) ++ rest
    = 34 :: t.
Proof. eexists. reflexivity. Qed.

Theorem parse_wallet_text (w : PersistedWallet) :
  valid_wallet w -> JSON_parse (wallet_text w) = Some (wallet_object w).
Proof.
  intros Hw. unfold JSON_parse.
  assert (Hfuel : exists f, (2 * length (wallet_text w) + 2 = S (S (S (S (S (S (S f)))))))%nat).
  { exists (2 * length (wallet_text w) + 2 - 7)%nat.
    rewrite wallet_text_eq. cbn [length]. lia. }
  destruct Hfuel as [f ->].
  rewrite wallet_text_eq, parse_value_S.
  rewrite skip_ws_stop by reflexivity.
  change (123 =? 34) with false. change (123 =? 123) with true. cbv iota.
  rewrite !skip_ws_ws by reflexivity.
  destruct (wallet_members_head w (10 :: 125 :: [10])) as [t Ht].
  rewrite Ht, skip_ws_stop by reflexivity.
  change (34 =? 125) with false. cbv iota. rewrite <- Ht.
  rewrite parse_members_flat.
  - reflexivity.
  - discriminate.
  - now apply wallet_members_valid.
  - cbn [wallet_members length]. lia.
Qed.

(** ** Well-formed text is stored as it is *)

Lemma well_formed_app (x y : jsstring) :
  well_formed x -> well_formed y -> well_formed (x ++ y).
Proof.
  induction 1; intros Hy; cbn [app]; [assumption | |].
  - apply wf_unit; auto.
  - apply wf_pair; auto.
Qed.

Lemma toWellFormed_id (s : jsstring) : well_formed s -> toWellFormed s = s.
Proof.
  induction 1 as [| c s Hc _ IH | c d s Hc Hd _ IH]; cbn [toWellFormed].
  - reflexivity.
  - rewrite surrogate_split in Hc. apply orb_false_iff in Hc as [-> ->].
    now rewrite IH.
  - now rewrite Hc, Hd, IH.
Qed.

Lemma well_formed_no_surrogate (s : jsstring) :
  forallb (fun c => negb (is_surrogate c)) s = true -> well_formed s.
Proof.
  induction s as [| c s IH]; cbn [forallb]; [constructor |].
  intros [Hc Hs]%andb_true_iff. apply wf_unit; [| auto].
  now apply negb_true_iff.
Qed.

Lemma digit_char_no_surrogate (d : N) : d < 36 -> is_surrogate (digit_char d) = false.
Proof.
  intros Hd. unfold is_surrogate, digit_char.
  apply andb_false_iff. left. apply N.leb_gt. destruct (d <? 10); lia.
Qed.

Lemma well_formed_UnicodeEscape (c : N) : c < 65536 -> well_formed (UnicodeEscape c).
Proof.
  intros H. destruct (hex4_digits c H) as (H1 & H2 & H3 & H4).
  unfold UnicodeEscape, hex4.
  repeat (apply wf_unit; [try reflexivity; apply digit_char_no_surrogate; lia |]).
  constructor.
Qed.

Lemma well_formed_escape_unit (c : N) :
  is_surrogate c = false -> well_formed (escape_unit c).
Proof.
  intros Hs. unfold escape_unit.
  destruct (c =? 8); [apply well_formed_no_surrogate; reflexivity |].
  destruct (c =? 9); [apply well_formed_no_surrogate; reflexivity |].
  destruct (c =? 10); [apply well_formed_no_surrogate; reflexivity |].
  destruct (c =? 12); [apply well_formed_no_surrogate; reflexivity |].
  destruct (c =? 13); [apply well_formed_no_surrogate; reflexivity |].
  destruct (c =? 34); [apply well_formed_no_surrogate; reflexivity |].
  destruct (c =? 92); [apply well_formed_no_surrogate; reflexivity |].
  destruct (N.ltb_spec c 32).
  - apply well_formed_UnicodeEscape. lia.
  - apply wf_unit; [assumption | constructor].
Qed.

Lemma surrogate_code_unit (c : N) : is_surrogate c = true -> c < 65536.
Proof.
  unfold is_surrogate. intros [_ H]%andb_true_iff. apply N.leb_le in H. lia.
Qed.

Lemma well_formed_quote_body (s : jsstring) : well_formed (quote_body s).
Proof.
  induction s as [| c | c d s IHs IHd] using jsstring_ind2.
  - constructor.
  - cbn [quote_body].
    destruct (is_high_surrogate c) eqn:Hh.
    { apply well_formed_UnicodeEscape, surrogate_code_unit.
      now rewrite surrogate_split, Hh. }
    destruct (is_low_surrogate c) eqn:Hl; rewrite app_nil_r.
    + apply well_formed_UnicodeEscape, surrogate_code_unit.
      now rewrite surrogate_split, Hh, Hl.
    + apply well_formed_escape_unit. now rewrite surrogate_split, Hh, Hl.
  - rewrite quote_body_cons. cbv beta iota.
    destruct (is_high_surrogate c) eqn:Hh.
    + destruct (is_low_surrogate d) eqn:Hl; [now apply wf_pair |].
      apply well_formed_app; [| assumption].
      apply well_formed_UnicodeEscape, surrogate_code_unit.
      now rewrite surrogate_split, Hh.
    + destruct (is_low_surrogate c) eqn:Hl;
        (apply well_formed_app; [| assumption]).
      * apply well_formed_UnicodeEscape, surrogate_code_unit.
        now rewrite surrogate_split, Hh, Hl.
      * apply well_formed_escape_unit. now rewrite surrogate_split, Hh, Hl.
Qed.

Lemma well_formed_member_text (kv : jsstring * jsstring) :
  well_formed (member_text kv).
Proof.
  unfold member_text, QuoteJSONString.
  apply wf_unit; [reflexivity |].
  apply well_formed_app; [apply well_formed_app |].
  - apply well_formed_quote_body.
  - apply well_formed_no_surrogate. reflexivity.
  - do 3 (apply wf_unit; [reflexivity |]).
    apply well_formed_app; [apply well_formed_quote_body |].
    apply well_formed_no_surrogate. reflexivity.
Qed.

Lemma well_formed_join_members (members : list (jsstring * jsstring)) :
  well_formed (join [44; 10; 32; 32] (map member_text members)).
Proof.
  induction members as [| kv ms IH]; [constructor |].
  destruct ms as [| m ms]; [apply well_formed_member_text |].
  change (join [44; 10; 32; 32] (map member_text (kv :: m :: ms)))
    with (member_text kv ++ [44; 10; 32; 32]
          ++ join [44; 10; 32; 32] (map member_text (m :: ms))).
  apply well_formed_app; [apply well_formed_member_text |].
  apply well_formed_app; [apply well_formed_no_surrogate; reflexivity |].
  exact IH.
Qed.

Theorem wallet_text_well_formed (w : PersistedWallet) :
  toWellFormed (wallet_text w) = wallet_text w.
Proof.
  apply toWellFormed_id. rewrite wallet_text_eq.
  do 4 (apply wf_unit; [reflexivity |]).
  apply well_formed_app.
  - apply well_formed_join_members.
  - apply well_formed_no_surrogate. reflexivity.
Qed.

(** ** The fuel of the parser is enough

    [JSON_parse] runs [parse_value] with fuel twice the length of the
    text.  Whatever [parse_value] can read with some fuel, it reads with
    that much: no valid text is refused for lack of fuel. *)

Lemma parse_elements_S (f : nat) (acc : list jsval) (s : jsstring) :
  parse_elements (S f) acc s =
  match parse_value f s with
  | Some (v, r) =>
      match skip_ws r with
      | c :: r' =>
          if c =? 44 then parse_elements f (acc ++ [v]) r'
          else if c =? 93 then Some (JArr (acc ++ [v]), r')
          else None
      | [] => None
      end
  | None => None
  end.
Proof. reflexivity. Qed.

Lemma parse_fuel_succ (f : nat) :
  (forall s r, parse_value f s = Some r -> parse_value (S f) s = Some r) /\
  (forall acc s r,
      parse_elements f acc s = Some r -> parse_elements (S f) acc s = Some r) /\
  (forall acc s r,
      parse_members f acc s = Some r -> parse_members (S f) acc s = Some r).
Proof.
  induction f as [| f (IHv & IHe & IHm)];
    [repeat split; intros; discriminate |].
  repeat split.
  - intros s r. rewrite 2!parse_value_S.
    destruct (skip_ws s) as [| c t]; [discriminate |].
    destruct (c =? 34); [auto |].
    destruct (c =? 123).
    { destruct (skip_ws t) as [| d t']; [discriminate |].
      destruct (d =? 125); auto. }
    destruct (c =? 91); [| auto].
    destruct (skip_ws t) as [| d t']; [discriminate |].
    destruct (d =? 93); auto.
  - intros acc s r. rewrite 2!parse_elements_S.
    destruct (parse_value f s) as [[v t] |] eqn:Hv; [| discriminate].
    rewrite (IHv _ _ Hv).
    destruct (skip_ws t) as [| c t']; [discriminate |].
    destruct (c =? 44); auto.
  - intros acc s r. rewrite 2!parse_members_S.
    destruct (skip_ws s) as [| q t]; [discriminate |].
    destruct (q =? 34); [| discriminate].
    destruct (parse_string_body t) as [[k t1] |]; [| discriminate].
    destruct (skip_ws t1) as [| c t2]; [discriminate |].
    destruct (c =? 58); [| discriminate].
    destruct (parse_value f t2) as [[v t3] |] eqn:Hv; [| discriminate].
    rewrite (IHv _ _ Hv).
    destruct (skip_ws t3) as [| d t4]; [discriminate |].
    destruct (d =? 44); auto.
Qed.

Lemma parse_fuel_le (f f' : nat) :
  (f <= f')%nat ->
  (forall s r, parse_value f s = Some r -> parse_value f' s = Some r) /\
  (forall acc s r,
      parse_elements f acc s = Some r -> parse_elements f' acc s = Some r) /\
  (forall acc s r,
      parse_members f acc s = Some r -> parse_members f' acc s = Some r).
Proof.
  induction 1 as [| f' _ (IHv & IHe & IHm)]; [repeat split; auto |].
  destruct (parse_fuel_succ f') as (Sv & Se & Sm).
  repeat split; intros; auto.
Qed.

Lemma skip_ws_length (s : jsstring) : (length (skip_ws s) <= length s)%nat.
Proof.
  induction s as [| c s IH]; [reflexivity |].
  cbn [skip_ws]. destruct (is_json_ws c); cbn [length]; lia.
Qed.

Lemma parse_string_body_length (s str rest : jsstring) :
  parse_string_body s = Some (str, rest) -> (length rest < length s)%nat.
Proof.
  remember (length s) as n eqn:Hn. revert s str rest Hn.
  induction n as [n IH] using lt_wf_ind. intros s str rest Hn.
  destruct s as [| c s]; [discriminate |]. cbn [parse_string_body].
  destruct (c =? 34). { intros [= _ <-]. cbn [length] in Hn. lia. }
  assert (Hstep : forall t u,
             (length t < n)%nat ->
             cons_fst u <$> parse_string_body t = Some (str, rest) ->
             (length rest < S (length t))%nat).
  { intros t u Ht Hp.
    destruct (parse_string_body t) as [[str' rest'] |] eqn:Hb; [| discriminate].
    injection Hp as _ <-.
    pose proof (IH (length t) Ht t str' rest' eq_refl Hb). lia. }
  cbn [length] in Hn.
  destruct (c =? 92).
  - destruct s as [| e s]; [discriminate |]. cbn [length] in Hn.
    destruct (e =? 117).
    + destruct s as [| h1 [| h2 [| h3 [| h4 s]]]]; try discriminate.
      cbn [length] in *.
      destruct (hex4_value h1 h2 h3 h4); [| discriminate].
      intros Hp. apply Hstep in Hp; lia.
    + destruct (simple_escape e); [| discriminate].
      intros Hp. apply Hstep in Hp; lia.
  - destruct (c <? 32); [discriminate |].
    intros Hp. apply Hstep in Hp; lia.
Qed.

Lemma take_digits_length (radix : N) (s ds rest : jsstring) :
  take_digits radix s = (ds, rest) -> length s = (length ds + length rest)%nat.
Proof.
  revert ds rest. induction s as [| c s IH]; intros ds rest.
  - intros [= <- <-]. reflexivity.
  - cbn [take_digits]. destruct (is_digit radix c).
    + destruct (take_digits radix s) as [ds' rest'].
      intros [= <- <-]. cbn [length]. now rewrite (IH ds' rest' eq_refl).
    + intros [= <- <-]. reflexivity.
Qed.

Lemma parse_exponent_length (s rest : jsstring) (e : Z) :
  parse_exponent s = Some (e, rest) -> (length rest <= length s)%nat.
Proof.
  unfold parse_exponent. destruct s as [| c r]; [intros [= _ <-]; lia |].
  destruct ((c =? 101) || (c =? 69)); [| intros [= _ <-]; lia].
  destruct r as [| d r']; [| destruct (d =? 45); [| destruct (d =? 43)]];
    (match goal with
     | |- context [take_digits 10 ?t] =>
         destruct (take_digits 10 t) as [ds rest0] eqn:Ht
     end;
     apply take_digits_length in Ht;
     destruct (is_nil ds); [discriminate |];
     intros [= _ <-]; cbn [length] in *; lia).
Qed.

Lemma parse_number_length (s rest : jsstring) (x : number) :
  parse_number s = Some (x, rest) -> (length rest < length s)%nat.
Proof.
  unfold parse_number.
  set (start := match s with
                | c :: r => if c =? 45 then (true, r) else (false, s)
                | [] => (false, s)
                end).
  assert (Hstart : (length (snd start) <= length s)%nat).
  { subst start. destruct s as [| c r]; [reflexivity |].
    destruct (c =? 45); cbn [snd length]; lia. }
  destruct start as [neg s1]. cbn [snd] in Hstart.
  destruct (take_digits 10 s1) as [int s2] eqn:Hint.
  apply take_digits_length in Hint.
  destruct int as [| d more]; [discriminate |]. cbn [length] in Hint.
  destruct ((d =? 48) && negb (is_nil more)); [discriminate |].
  set (frac := match s2 with
               | c :: r =>
                   if c =? 46 then
                     let '(fd, s3) := take_digits 10 r in
                     if is_nil fd then None else Some (fd, s3)
                   else Some ([], s2)
               | [] => Some ([], s2)
               end).
  assert (Hfrac : forall fd s3, frac = Some (fd, s3) ->
                                (length s3 <= length s2)%nat).
  { subst frac. intros fd s3. destruct s2 as [| c r]; [intros [= _ <-]; lia |].
    destruct (c =? 46); [| intros [= _ <-]; lia].
    destruct (take_digits 10 r) as [fd' s3'] eqn:Hfd.
    apply take_digits_length in Hfd.
    destruct (is_nil fd'); [discriminate |].
    intros [= _ <-]. cbn [length]. lia. }
  destruct frac as [[fd s3] |]; [| discriminate].
  specialize (Hfrac fd s3 eq_refl).
  destruct (parse_exponent s3) as [[ex rest'] |] eqn:Hex; [| discriminate].
  apply parse_exponent_length in Hex.
  intros [= _ <-]. lia.
Qed.

Lemma strip_prefix_length (p s rest : jsstring) :
  strip_prefix p s = Some rest -> length s = (length p + length rest)%nat.
Proof.
  revert s. induction p as [| a p IH]; intros s; cbn [strip_prefix].
  - intros [= <-]. reflexivity.
  - destruct s as [| b s]; [discriminate |].
    destruct (a =? b); [| discriminate].
    intros H. cbn [length]. now rewrite (IH s H).
Qed.

Lemma parse_literal_length (word : jsstring) (v v' : jsval) (s rest : jsstring) :
  word <> [] ->
  parse_literal word v s = Some (v', rest) ->
  (length rest < length s)%nat.
Proof.
  unfold parse_literal. intros Hw.
  destruct (strip_prefix word s) as [r |] eqn:Hs; [| discriminate].
  intros [= _ <-]. apply strip_prefix_length in Hs.
  destruct word; [contradiction | cbn [length] in Hs; lia].
Qed.

Ltac fuel_S n :=
  let k := fresh "k" in
  let Hk := fresh "Hk" in
  assert (exists k, n = S k) as [k Hk] by (exists (n - 1)%nat; lia);
  rewrite Hk.

(** What is read with some fuel is read with fuel twice the number of
    characters read. *)
Lemma parse_fuel_bound (f : nat) :
  (forall s v rest,
      parse_value f s = Some (v, rest) ->
      exists c, (1 <= c)%nat /\ length s = (c + length rest)%nat /\
                parse_value (2 * c - 1) s = Some (v, rest)) /\
  (forall acc s v rest,
      parse_elements f acc s = Some (v, rest) ->
      exists c, length s = (c + length rest)%nat /\
                parse_elements (2 * c) acc s = Some (v, rest)) /\
  (forall acc s v rest,
      parse_members f acc s = Some (v, rest) ->
      exists c, length s = (c + length rest)%nat /\
                parse_members (2 * c) acc s = Some (v, rest)).
Proof.
  induction f as [| f (IHv & IHe & IHm)];
    [repeat split; intros; discriminate |].
  repeat split.
  - intros s v rest H. rewrite parse_value_S in H.
    pose proof (skip_ws_length s) as Hws.
    destruct (skip_ws s) as [| c0 t] eqn:Hskip; [discriminate |].
    cbn [length] in Hws.
    assert (Hfree : forall r1 : jsstring,
               (length r1 < length (c0 :: t))%nat ->
               (forall k, parse_value (S k) s = Some (v, r1)) ->
               exists c, (1 <= c)%nat /\ length s = (c + length r1)%nat /\
                         parse_value (2 * c - 1) s = Some (v, r1)).
    { intros r1 Hr1 Hall. cbn [length] in Hr1.
      exists (length s - length r1)%nat. split; [lia |]. split; [lia |].
      fuel_S (2 * (length s - length r1) - 1)%nat. apply Hall. }
    destruct (c0 =? 34) eqn:E34.
    { destruct (parse_string_body t) as [[str r1] |] eqn:Hb; [| discriminate].
      injection H as <- <-. apply Hfree.
      - apply parse_string_body_length in Hb. cbn [length]. lia.
      - intros k. now rewrite parse_value_S, Hskip, E34, Hb. }
    destruct (c0 =? 123) eqn:E123.
    { pose proof (skip_ws_length t) as Hws2.
      destruct (skip_ws t) as [| d t'] eqn:Hskip2; [discriminate |].
      cbn [length] in Hws2.
      destruct (d =? 125) eqn:E125.
      - injection H as <- <-. apply Hfree; [cbn [length]; lia |].
        intros k. now rewrite parse_value_S, Hskip, E34, E123, Hskip2, E125.
      - apply IHm in H as (c & Hlen & Hp). cbn [length] in Hlen.
        exists (length s - length rest)%nat. split; [lia |]. split; [lia |].
        fuel_S (2 * (length s - length rest) - 1)%nat.
        rewrite parse_value_S, Hskip, E34, E123, Hskip2, E125.
        apply (proj2 (proj2 (parse_fuel_le (2 * c) k ltac:(lia)))). exact Hp. }
    destruct (c0 =? 91) eqn:E91.
    { pose proof (skip_ws_length t) as Hws2.
      destruct (skip_ws t) as [| d t'] eqn:Hskip2; [discriminate |].
      cbn [length] in Hws2.
      destruct (d =? 93) eqn:E93.
      - injection H as <- <-. apply Hfree; [cbn [length]; lia |].
        intros k. now rewrite parse_value_S, Hskip, E34, E123, E91, Hskip2, E93.
      - apply IHe in H as (c & Hlen & Hp). cbn [length] in Hlen.
        exists (length s - length rest)%nat. split; [lia |]. split; [lia |].
        fuel_S (2 * (length s - length rest) - 1)%nat.
        rewrite parse_value_S, Hskip, E34, E123, E91, Hskip2, E93.
        apply (proj1 (proj2 (parse_fuel_le (2 * c) k ltac:(lia)))). exact Hp. }
    destruct (c0 =? 116) eqn:E116.
    { apply Hfree.
      - apply parse_literal_length in H; [exact H | discriminate].
      - intros k. now rewrite parse_value_S, Hskip, E34, E123, E91, E116. }
    destruct (c0 =? 102) eqn:E102.
    { apply Hfree.
      - apply parse_literal_length in H; [exact H | discriminate].
      - intros k. now rewrite parse_value_S, Hskip, E34, E123, E91, E116, E102. }
    destruct (c0 =? 110) eqn:E110.
    { apply Hfree.
      - apply parse_literal_length in H; [exact H | discriminate].
      - intros k.
        now rewrite parse_value_S, Hskip, E34, E123, E91, E116, E102, E110. }
    destruct (parse_number (c0 :: t)) as [[x r1] |] eqn:Hn; [| discriminate].
    injection H as <- <-. apply Hfree.
    + now apply parse_number_length in Hn.
    + intros k.
      now rewrite parse_value_S, Hskip, E34, E123, E91, E116, E102, E110, Hn.
  - intros acc s v rest H. rewrite parse_elements_S in H.
    destruct (parse_value f s) as [[v1 r1] |] eqn:Hv; [| discriminate].
    apply IHv in Hv as (c1 & Hc1 & Hlen1 & Hp1).
    pose proof (skip_ws_length r1) as Hws.
    destruct (skip_ws r1) as [| c r'] eqn:Hskip; [discriminate |].
    cbn [length] in Hws.
    destruct (c =? 44) eqn:E44.
    + apply IHe in H as (c2 & Hlen2 & Hp2).
      exists (length s - length rest)%nat. split; [lia |].
      fuel_S (2 * (length s - length rest))%nat.
      rewrite parse_elements_S.
      rewrite (proj1 (parse_fuel_le (2 * c1 - 1) k ltac:(lia)) _ _ Hp1).
      rewrite Hskip, E44.
      apply (proj1 (proj2 (parse_fuel_le (2 * c2) k ltac:(lia)))). exact Hp2.
    + destruct (c =? 93) eqn:E93; [| discriminate]. injection H as <- <-.
      exists (length s - length r')%nat. split; [lia |].
      fuel_S (2 * (length s - length r'))%nat.
      rewrite parse_elements_S.
      rewrite (proj1 (parse_fuel_le (2 * c1 - 1) k ltac:(lia)) _ _ Hp1).
      now rewrite Hskip, E44, E93.
  - intros acc s v rest H. rewrite parse_members_S in H.
    pose proof (skip_ws_length s) as Hws0.
    destruct (skip_ws s) as [| q t] eqn:Hskip0; [discriminate |].
    cbn [length] in Hws0.
    destruct (q =? 34) eqn:E34; [| discriminate].
    destruct (parse_string_body t) as [[key t1] |] eqn:Hkey; [| discriminate].
    pose proof (parse_string_body_length _ _ _ Hkey) as Hlenk.
    pose proof (skip_ws_length t1) as Hws1.
    destruct (skip_ws t1) as [| c t2] eqn:Hskip1; [discriminate |].
    cbn [length] in Hws1.
    destruct (c =? 58) eqn:E58; [| discriminate].
    destruct (parse_value f t2) as [[v1 t3] |] eqn:Hv; [| discriminate].
    apply IHv in Hv as (c1 & Hc1 & Hlen1 & Hp1).
    pose proof (skip_ws_length t3) as Hws3.
    destruct (skip_ws t3) as [| d t4] eqn:Hskip3; [discriminate |].
    cbn [length] in Hws3.
    destruct (d =? 44) eqn:E44.
    + apply IHm in H as (c2 & Hlen2 & Hp2).
      exists (length s - length rest)%nat. split; [lia |].
      fuel_S (2 * (length s - length rest))%nat.
      rewrite parse_members_S, Hskip0, E34, Hkey, Hskip1, E58.
      rewrite (proj1 (parse_fuel_le (2 * c1 - 1) k ltac:(lia)) _ _ Hp1).
      rewrite Hskip3, E44.
      apply (proj2 (proj2 (parse_fuel_le (2 * c2) k ltac:(lia)))). exact Hp2.
    + destruct (d =? 125) eqn:E125; [| discriminate]. injection H as <- <-.
      exists (length s - length t4)%nat. split; [lia |].
      fuel_S (2 * (length s - length t4))%nat.
      rewrite parse_members_S, Hskip0, E34, Hkey, Hskip1, E58.
      rewrite (proj1 (parse_fuel_le (2 * c1 - 1) k ltac:(lia)) _ _ Hp1).
      now rewrite Hskip3, E44, E125.
Qed.

(** [JSON_parse] accepts a text exactly when the parser can read it
    whole, with whatever fuel. *)
Theorem JSON_parse_complete (text : jsstring) (v : jsval) :
  JSON_parse text = Some v <->
  exists f rest, parse_value f text = Some (v, rest) /\ skip_ws rest = [].
Proof.
  unfold JSON_parse. split.
  - destruct (parse_value (2 * length text + 2) text) as [[v' rest] |] eqn:Hp;
      [| discriminate].
    destruct (skip_ws rest) eqn:Hrest; [| discriminate].
    intros [= <-]. now exists (2 * length text + 2)%nat, rest.
  - intros (f & rest & Hp & Hrest).
    destruct (proj1 (parse_fuel_bound f) _ _ _ Hp) as (c & Hc & Hlen & Hpc).
    rewrite (proj1 (parse_fuel_le (2 * c - 1) (2 * length text + 2) ltac:(lia))
               _ _ Hpc).
    now rewrite Hrest.
Qed.

(** * src/wallet.ts: the credential store and lifecycle *)

Lemma loadWallet_run (env : Env) (filePath : option jsstring) (st : State) :
  loadWallet env filePath st =
  match files st !! wallet_path env filePath with
  | None => (Ok JNull, st)
  | Some text =>
      match JSON_parse text with
      | Some v => (Ok v, st)
      | None => (Throw SyntaxError, st)
      end
  end.
Proof.
  unfold loadWallet, wallet_path, bind, existsSync, readFileSync.
  destruct (files st !! path_resolve env (default DEFAULT_WALLET_FILE filePath))
    as [text |] eqn:Hfile.
  - rewrite bool_decide_eq_true_2 by eauto. cbn [negb]. rewrite Hfile.
    destruct (JSON_parse text); reflexivity.
  - rewrite bool_decide_eq_false_2 by (intros [? ?]; discriminate). reflexivity.
Qed.

Lemma saveWallet_run (env : Env) (w : PersistedWallet)
  (filePath : option jsstring) (st : State) :
  saveWallet env w filePath st =
  match write_reply env st (wallet_path env filePath) (wallet_text w) with
  | Written =>
      (Ok tt, set_file (wallet_path env filePath) (wallet_text w) st)
  | WriteFailed e None => (Throw e, st)
  | WriteFailed e (Some partial) =>
      (Throw e, set_file (wallet_path env filePath) partial st)
  end.
Proof.
  unfold saveWallet, writeFileSync, wallet_path.
  now rewrite wallet_text_well_formed.
Qed.

(** A save that returns has stored the text of the record. *)
Lemma saveWallet_written (env : Env) (w : PersistedWallet)
  (filePath : option jsstring) (st : State) :
  fst (saveWallet env w filePath st) = Ok tt ->
  saveWallet env w filePath st
  = (Ok tt, set_file (wallet_path env filePath) (wallet_text w) st).
Proof.
  rewrite saveWallet_run.
  destruct (write_reply env st _ _) as [| e [partial |]];
    [reflexivity | discriminate | discriminate].
Qed.

Lemma createWallet_state (env : Env) (opts : CreateWalletOptions) (st : State) :
  files (snd (createWallet env opts st)) = files st /\
  createWallet_calls (snd (createWallet env opts st)) = S (createWallet_calls st).
Proof.
  unfold createWallet, bind, enter_createWallet, generateP256KeyPair,
    wallets_create, now_toISOString, ret.
  cbv beta iota.
  destruct (keygen_reply env _) as [kp | e]; [| split; reflexivity].
  destruct (custody_reply env _ opts (publicKey kp)) as [cw | e];
    split; reflexivity.
Qed.

Lemma createWallet_Ok_custody (env : Env) (opts : CreateWalletOptions)
  (st st1 : State) (w : PersistedWallet) :
  createWallet env opts st = (Ok w, st1) ->
  custody_creates st1 = custody_creates st ++ [(opts, authPublicKey w)].
Proof.
  unfold createWallet, bind, enter_createWallet, generateP256KeyPair,
    wallets_create, now_toISOString, ret.
  cbv beta iota.
  destruct (keygen_reply env _) as [kp | e]; [| discriminate].
  destruct (custody_reply env _ opts (publicKey kp)) as [cw | e];
    [| discriminate].
  intros [= <- <-]. reflexivity.
Qed.

(** What [getOrCreateWallet] does once [loadWallet] found nothing truthy. *)
Lemma getOrCreateWallet_miss (env : Env) (opts : CreateWalletOptions)
  (filePath : option jsstring) (st : State) (v : jsval) :
  loadWallet env filePath st = (Ok v, st) -> truthy v = false ->
  getOrCreateWallet env opts filePath st =
  match createWallet env opts st with
  | (Ok w, st1) =>
      match saveWallet env w filePath st1 with
      | (Ok _, st2) => (Ok (wallet_object w), st2)
      | (Throw e, st2) => (Throw e, st2)
      end
  | (Throw e, st1) => (Throw e, st1)
  end.
Proof.
  intros Hload Hv. unfold getOrCreateWallet, bind at 1.
  rewrite Hload, Hv. unfold bind at 1.
  destruct (createWallet env opts st) as [[w | e] st1]; reflexivity.
Qed.

Lemma getOrCreateWallet_hit (env : Env) (opts : CreateWalletOptions)
  (filePath : option jsstring) (st : State) (v : jsval) :
  loadWallet env filePath st = (Ok v, st) -> truthy v = true ->
  getOrCreateWallet env opts filePath st = (Ok v, st).
Proof.
  intros Hload Hv. unfold getOrCreateWallet, bind.
  now rewrite Hload, Hv.
Qed.

(** C6, as the code has it.  [loadWallet] returns [null] without an error
    when no file exists; when a file exists and its text is not valid
    JSON it throws the parser's SyntaxError; when the text is valid JSON
    the parsed value is returned as it is, whatever its shape. *)
Theorem loadWallet_absent_invalid_or_unchecked (env : Env)
  (filePath : option jsstring) (st : State) :
  match files st !! wallet_path env filePath with
  | None => loadWallet env filePath st = (Ok JNull, st)
  | Some text =>
      match JSON_parse text with
      | None => loadWallet env filePath st = (Throw SyntaxError, st)
      | Some v => loadWallet env filePath st = (Ok v, st)
      end
  end.
Proof.
  rewrite loadWallet_run.
  destruct (files st !! wallet_path env filePath) as [text |]; [| reflexivity].
  destruct (JSON_parse text); reflexivity.
Qed.

(** C6 as stated fails: a file holding [{}] exists and is not a
    credential record, yet [loadWallet] returns the empty object and
    throws nothing; a file holding [null] exists, yet the absent value is
    returned. *)
Lemma loadWallet_checks_no_structure :
  let st := state_with_wallet_file (js "{}") in
  let st' := state_with_wallet_file (js "null") in
  files st !! wallet_path stub_env None = Some (js "{}") /\
  (forall w, JSON_parse (js "{}") <> Some (wallet_object w)) /\
  loadWallet stub_env None st = (Ok (JObj []), st) /\
  files st' !! wallet_path stub_env None = Some (js "null") /\
  loadWallet stub_env None st' = (Ok JNull, st').
Proof.
  cbv zeta. split; [vm_compute; reflexivity |].
  split; [intros w; vm_compute; discriminate |].
  split; [vm_compute; reflexivity |].
  split; vm_compute; reflexivity.
Qed.

(** C5. For every credential record made of five strings and every path,
    a [saveWallet] that returns (the write did not fail) followed by
    [loadWallet] on the same path returns the object that was saved,
    property for property, and the load changes nothing. *)
Theorem save_then_load (env : Env) (w : PersistedWallet)
  (filePath : option jsstring) (st : State) :
  valid_wallet w ->
  fst (saveWallet env w filePath st) = Ok tt ->
  let st' := snd (saveWallet env w filePath st) in
  loadWallet env filePath st' = (Ok (wallet_object w), st').
Proof.
  intros Hw Hsaved st'. subst st'.
  rewrite (saveWallet_written env w filePath st Hsaved). cbn [snd].
  rewrite loadWallet_run. cbn [set_file files]. rewrite lookup_insert_eq.
  now rewrite parse_wallet_text.
Qed.

Lemma stub_wallet_valid : valid_wallet stub_wallet.
Proof.
  unfold valid_wallet, valid_string. repeat constructor.
Qed.

Lemma save_then_load_witness :
  let st' := snd (saveWallet stub_env stub_wallet None empty_state) in
  loadWallet stub_env None st' = (Ok (wallet_object stub_wallet), st').
Proof.
  exact (save_then_load stub_env stub_wallet None empty_state
           stub_wallet_valid eq_refl).
Defined.

(** X24. When a file exists at the resolved path and its text parses to
    a truthy value (any object, so any credential record),
    [getOrCreateWallet] returns that value and changes nothing:
    [createWallet] is not entered and the custody service is not called.
    When no file exists, [createWallet] succeeds and the write does not
    fail, [createWallet] is entered exactly once, the custody service is
    asked exactly once, the created record is returned, and afterwards
    the file holds the text of that record (so that loading it gives the
    returned record back); no other file changes. *)
Theorem getOrCreateWallet_hit_or_create (env : Env) (opts : CreateWalletOptions)
  (filePath : option jsstring) (st : State) :
  (forall text v,
      files st !! wallet_path env filePath = Some text ->
      JSON_parse text = Some v -> truthy v = true ->
      getOrCreateWallet env opts filePath st = (Ok v, st)) /\
  (forall w st1,
      files st !! wallet_path env filePath = None ->
      createWallet env opts st = (Ok w, st1) ->
      fst (saveWallet env w filePath st1) = Ok tt ->
      exists st2,
        getOrCreateWallet env opts filePath st = (Ok (wallet_object w), st2) /\
        createWallet_calls st2 = S (createWallet_calls st) /\
        custody_creates st2 = custody_creates st ++ [(opts, authPublicKey w)] /\
        files st2 = <[wallet_path env filePath := wallet_text w]> (files st) /\
        (valid_wallet w ->
         loadWallet env filePath st2 = (Ok (wallet_object w), st2))).
Proof.
  split.
  - intros text v Hfile Hparse Hv. apply getOrCreateWallet_hit; [| exact Hv].
    now rewrite loadWallet_run, Hfile, Hparse.
  - intros w st1 Hfile Hcreate Hsaved.
    exists (set_file (wallet_path env filePath) (wallet_text w) st1).
    destruct (createWallet_state env opts st) as [Hf1 Hn1].
    rewrite Hcreate in Hf1, Hn1. cbn [snd] in Hf1, Hn1.
    repeat split.
    + rewrite (getOrCreateWallet_miss env opts filePath st JNull);
        [| now rewrite loadWallet_run, Hfile | reflexivity].
      now rewrite Hcreate, (saveWallet_written env w filePath st1 Hsaved).
    + exact Hn1.
    + exact (createWallet_Ok_custody env opts st st1 w Hcreate).
    + cbn [set_file files]. now rewrite Hf1.
    + intros Hw. rewrite loadWallet_run. cbn [set_file files].
      rewrite lookup_insert_eq. now rewrite parse_wallet_text.
Qed.

Lemma getOrCreateWallet_hit_or_create_witness :
  getOrCreateWallet stub_env stub_opts None
    (state_with_wallet_file (wallet_text stub_wallet))
  = (Ok (wallet_object stub_wallet),
     state_with_wallet_file (wallet_text stub_wallet)) /\
  exists st2,
    getOrCreateWallet stub_env stub_opts None empty_state
    = (Ok (wallet_object stub_wallet), st2) /\
    createWallet_calls st2 = 1%nat /\
    custody_creates st2 = [(stub_opts, js "cHVibGlj")] /\
    files st2 = <[wallet_path stub_env None := wallet_text stub_wallet]> ∅ /\
    loadWallet stub_env None st2 = (Ok (wallet_object stub_wallet), st2).
Proof.
  split.
  - apply (proj1 (getOrCreateWallet_hit_or_create stub_env stub_opts None
                    (state_with_wallet_file (wallet_text stub_wallet)))
             (wallet_text stub_wallet) (wallet_object stub_wallet));
      vm_compute; reflexivity.
  - destruct (proj2 (getOrCreateWallet_hit_or_create stub_env stub_opts None
                       empty_state) stub_wallet
                (snd (createWallet stub_env stub_opts empty_state))
                eq_refl eq_refl eq_refl)
      as (st2 & Hret & Hcalls & Hcustody & Hfiles & Hload).
    exists st2. repeat split; try assumption.
    apply Hload. unfold valid_wallet, valid_string. repeat constructor.
Defined.

(** C1 at the failing input.  A file holding [null] exists at the
    resolved path, and [loadWallet] reads it; yet [getOrCreateWallet]
    does not return what it loaded: it enters [createWallet], asks the
    custody service for a new wallet, returns the new record and writes
    it over the file.  A file holding text that is not JSON, next to it,
    is left as it is and nothing is created. *)
Lemma getOrCreateWallet_existing_null_file_creates :
  let st := state_with_wallet_file (js "null") in
  let out := getOrCreateWallet stub_env stub_opts None st in
  let corrupt := state_with_wallet_file (js "nul") in
  files st !! wallet_path stub_env None = Some (js "null") /\
  loadWallet stub_env None st = (Ok JNull, st) /\
  fst out = Ok (wallet_object stub_wallet) /\
  createWallet_calls (snd out) = 1%nat /\
  custody_creates (snd out) = [(stub_opts, js "cHVibGlj")] /\
  files (snd out) !! wallet_path stub_env None = Some (wallet_text stub_wallet) /\
  getOrCreateWallet stub_env stub_opts None corrupt = (Throw SyntaxError, corrupt).
Proof.
  cbv zeta.
  split; [vm_compute; reflexivity |]. split; [vm_compute; reflexivity |].
  split; [vm_compute; reflexivity |]. split; [vm_compute; reflexivity |].
  split; [vm_compute; reflexivity |]. split; vm_compute; reflexivity.
Qed.

(** C10. When the file exists and its text parses to a falsy value,
    [loadWallet] returns that value; [getOrCreateWallet] then enters
    [createWallet] as on a miss.  When the creation succeeds and the write
    does not fail, the custody service was asked once, for a wallet owned
    by the public key of the record, the new record is returned, and the
    file is overwritten with its text: [loadWallet] now gives the new
    record, no longer the falsy value. *)
Theorem falsy_file_is_a_miss (env : Env) (opts : CreateWalletOptions)
  (filePath : option jsstring) (st : State) (text : jsstring) (v : jsval) :
  files st !! wallet_path env filePath = Some text ->
  JSON_parse text = Some v ->
  truthy v = false ->
  loadWallet env filePath st = (Ok v, st) /\
  createWallet_calls (snd (getOrCreateWallet env opts filePath st))
  = S (createWallet_calls st) /\
  (forall w st1,
      createWallet env opts st = (Ok w, st1) ->
      fst (saveWallet env w filePath st1) = Ok tt ->
      let out := getOrCreateWallet env opts filePath st in
      fst out = Ok (wallet_object w) /\
      custody_creates (snd out)
      = custody_creates st ++ [(opts, authPublicKey w)] /\
      files (snd out)
      = <[wallet_path env filePath := wallet_text w]> (files st) /\
      (valid_wallet w ->
       loadWallet env filePath (snd out) = (Ok (wallet_object w), snd out) /\
       wallet_object w <> v)).
Proof.
  intros Hfile Hparse Hv.
  assert (Hload : loadWallet env filePath st = (Ok v, st))
    by now rewrite loadWallet_run, Hfile, Hparse.
  split; [exact Hload |].
  rewrite (getOrCreateWallet_miss env opts filePath st v Hload Hv).
  destruct (createWallet_state env opts st) as [Hf1 Hn1].
  split.
  - destruct (createWallet env opts st) as [[w | e] st1]; cbn [snd] in *;
      [| exact Hn1].
    rewrite saveWallet_run.
    destruct (write_reply env st1 _ _) as [| e [partial |]]; exact Hn1.
  - intros w st1 Hcreate Hsaved. cbv zeta.
    pose proof (createWallet_Ok_custody env opts st st1 w Hcreate) as Hcustody.
    rewrite Hcreate in *. cbn [fst snd] in *.
    rewrite (saveWallet_written env w filePath st1 Hsaved). cbn [fst snd].
    split; [reflexivity |]. split; [exact Hcustody |].
    split; [cbn [set_file files]; now rewrite Hf1 |].
    intros Hw. split.
    + rewrite loadWallet_run. cbn [set_file files].
      rewrite lookup_insert_eq. now rewrite parse_wallet_text.
    + intros <-. discriminate Hv.
Qed.

Lemma falsy_file_is_a_miss_witness :
  let st := state_with_wallet_file (js "null") in
  let out := getOrCreateWallet stub_env stub_opts None st in
  loadWallet stub_env None st = (Ok JNull, st) /\
  createWallet_calls (snd out) = 1%nat /\
  fst out = Ok (wallet_object stub_wallet) /\
  custody_creates (snd out) = [(stub_opts, js "cHVibGlj")] /\
  files (snd out)
  = <[wallet_path stub_env None := wallet_text stub_wallet]> (files st) /\
  loadWallet stub_env None (snd out) = (Ok (wallet_object stub_wallet), snd out) /\
  wallet_object stub_wallet <> JNull.
Proof.
  cbv zeta.
  destruct (falsy_file_is_a_miss stub_env stub_opts None
              (state_with_wallet_file (js "null")) (js "null") JNull
              eq_refl eq_refl eq_refl) as (Hload & Hcalls & Hcreated).
  destruct (Hcreated stub_wallet
              (snd (createWallet stub_env stub_opts
                      (state_with_wallet_file (js "null"))))
              eq_refl eq_refl) as (Hret & Hcustody & Hfiles & Hback).
  destruct (Hback stub_wallet_valid) as [Hread Hnew].
  exact (conj Hload (conj Hcalls (conj Hret (conj Hcustody
           (conj Hfiles (conj Hread Hnew)))))).
Defined.

(** C9. When the keypair was generated and the custody service then fails
    to create the wallet, [createWallet] throws the service's error and
    returns no record; no file changes.  On a miss [getOrCreateWallet]
    throws the same error, and every file is as it was: [saveWallet] was
    not called. *)
Theorem custody_failure_persists_nothing (env : Env)
  (opts : CreateWalletOptions) (filePath : option jsstring) (st : State)
  (keypair : KeyPair) (e : exn) :
  let st1 := snd (enter_createWallet st) in
  let st2 := snd (generateP256KeyPair env st1) in
  keygen_reply env st1 = Ok keypair ->
  custody_reply env st2 opts (publicKey keypair) = Throw e ->
  fst (createWallet env opts st) = Throw e /\
  files (snd (createWallet env opts st)) = files st /\
  (files st !! wallet_path env filePath = None ->
   fst (getOrCreateWallet env opts filePath st) = Throw e /\
   files (snd (getOrCreateWallet env opts filePath st)) = files st).
Proof.
  intros st1 st2 Hkey Hcustody.
  assert (Hcreate : fst (createWallet env opts st) = Throw e).
  { unfold createWallet, bind, enter_createWallet, generateP256KeyPair,
      wallets_create. cbv beta iota.
    unfold st1, enter_createWallet in Hkey. cbn [snd] in Hkey. rewrite Hkey.
    unfold st2, st1, generateP256KeyPair, enter_createWallet in Hcustody.
    cbn [snd] in Hcustody. rewrite Hcustody. reflexivity. }
  destruct (createWallet_state env opts st) as [Hf _].
  split; [exact Hcreate |]. split; [exact Hf |].
  intros Hmiss.
  rewrite (getOrCreateWallet_miss env opts filePath st JNull);
    [| now rewrite loadWallet_run, Hmiss | reflexivity].
  destruct (createWallet env opts st) as [[w | e'] s]; cbn [fst snd] in *;
    [discriminate |].
  injection Hcreate as ->. split; [reflexivity | assumption].
Qed.

Lemma custody_failure_persists_nothing_witness :
  fst (createWallet rejecting_env stub_opts empty_state)
  = Throw (Rejected (js "custody service unreachable")) /\
  files (snd (createWallet rejecting_env stub_opts empty_state)) = ∅ /\
  (files empty_state !! wallet_path rejecting_env None = None ->
   fst (getOrCreateWallet rejecting_env stub_opts None empty_state)
   = Throw (Rejected (js "custody service unreachable")) /\
   files (snd (getOrCreateWallet rejecting_env stub_opts None empty_state)) = ∅).
Proof.
  exact (custody_failure_persists_nothing rejecting_env stub_opts None
           empty_state stub_keypair
           (Rejected (js "custody service unreachable")) eq_refl eq_refl).
Defined.

(** * src/provider.ts: the request router *)

Lemma request_unhandled (env : Env) (p : Provider) (method : jsstring)
  (params : jsval) :
  ~ In method handled_methods ->
  request env p method params = proxyToRpc env p method params.
Proof.
  intros Hout. unfold request, jsstring_eqb.
  repeat (rewrite bool_decide_eq_false_2;
          [| intros ->; apply Hout; cbn; tauto]).
  reflexivity.
Qed.

Lemma serialize_defined (gap indent : jsstring) (v : jsval) :
  v <> JUndefined -> exists s, SerializeJSONProperty gap indent v = Some s.
Proof.
  destruct v as [| | [] | [] | | |]; intros Hv;
    try (eexists; reflexivity). now destruct Hv.
Qed.

Lemma coalesce_defined (a : jsval) : coalesce a (JArr []) <> JUndefined.
Proof. destruct a; discriminate. Qed.

Lemma rpc_body_eq (method : jsstring) (params : jsval) (params_text : jsstring) :
  SerializeJSONProperty [] [] (coalesce params (JArr [])) = Some params_text ->
  default (js "undefined") (JSON_stringify (rpc_payload method params) 0)
  = jsq "{'jsonrpc':'2.0','id':1,'method':" ++ QuoteJSONString method
    ++ jsq ",'params':" ++ params_text ++ js "}".
Proof.
  intros Hs. unfold JSON_stringify, rpc_payload.
  change (repeat 32 (Nat.min 10 0)) with (@nil N).
  cbn [SerializeJSONProperty flat_map app is_nil].
  rewrite Hs.
  change (Number_toString (Fin 1 0)) with (js "1").
  cbn [app is_nil join default from_option id].
  unfold QuoteJSONString.
  generalize (quote_body method). intros quoted.
  repeat (progress (cbn [app]; rewrite <- ?app_assoc)).
  reflexivity.
Qed.

Lemma proxyToRpc_run (env : Env) (p : Provider) (method : jsstring)
  (params : jsval) (st : State) :
  let req := rpc_request p method params in
  let out := proxyToRpc env p method params st in
  http_posts (snd out) = http_posts st ++ [req] /\
  files (snd out) = files st /\
  signer_calls (snd out) = signer_calls st /\
  custody_creates (snd out) = custody_creates st /\
  fst out =
  match fetch_reply env st req with
  | Throw e => Throw e
  | Ok text =>
      match JSON_parse text with
      | None => Throw SyntaxError
      | Some json =>
          match get_prop json (js "error") with
          | Throw e => Throw e
          | Ok error =>
              if truthy error then
                match get_prop error (js "message") with
                | Throw e => Throw e
                | Ok message =>
                    match ToString message with
                    | Throw e => Throw e
                    | Ok text =>
                        Throw (Error (js "RPC error (" ++ method ++ js "): "
                                      ++ text))
                    end
                end
              else get_prop json (js "result")
          end
      end
  end.
Proof.
  cbv zeta. unfold proxyToRpc, bind, fetch, lift. cbv beta iota.
  destruct (fetch_reply env st (rpc_request p method params)) as [text | e];
    [| repeat split; reflexivity].
  destruct (JSON_parse text) as [json |]; [| repeat split; reflexivity].
  destruct (get_prop json (js "error")) as [error | e];
    [| repeat split; reflexivity].
  destruct (truthy error); [| repeat split; reflexivity].
  destruct (get_prop error (js "message")) as [message | e];
    [| repeat split; reflexivity].
  destruct (ToString message); repeat split; reflexivity.
Qed.

(** C2, as the code has it.  For a method name outside the six handled
    ones, [request] makes exactly one POST to the configured RPC URL, with
    header [Content-Type: application/json] and the body
    [{"jsonrpc":"2.0","id":1,"method":<name>,"params":<params or []>}];
    it touches no file and calls no signer.  When the response parses to
    a value whose [error] member is truthy, the call throws
    ["RPC error (<name>): <error.message>"], with [error.message] printed
    as the template literal prints it, or the TypeError of that printing
    when the message is an object that cannot be printed; when the
    [error] member is missing or falsy, it returns the [result] member. *)
Theorem unhandled_method_is_proxied (env : Env) (config : PrivyProviderConfig)
  (p : Provider) (method : jsstring) (params : jsval) (st : State) :
  createPrivyProvider env config = Ok p ->
  ~ In method handled_methods ->
  exists params_text,
    SerializeJSONProperty [] [] (coalesce params (JArr [])) = Some params_text /\
    let req :=
      {| http_url := rpcUrl config;
         http_method := js "POST";
         http_headers := [(js "Content-Type", js "application/json")];
         http_body :=
           jsq "{'jsonrpc':'2.0','id':1,'method':" ++ QuoteJSONString method
           ++ jsq ",'params':" ++ params_text ++ js "}" |} in
    let out := request env p method params st in
    http_posts (snd out) = http_posts st ++ [req] /\
    files (snd out) = files st /\
    signer_calls (snd out) = signer_calls st /\
    forall text json error,
      fetch_reply env st req = Ok text ->
      JSON_parse text = Some json ->
      get_prop json (js "error") = Ok error ->
      (truthy error = true ->
       forall message,
         get_prop error (js "message") = Ok message ->
         match ToString message with
         | Ok printed =>
             fst out = Throw (Error (js "RPC error (" ++ method ++ js "): "
                                     ++ printed))
         | Throw e => fst out = Throw e
         end) /\
      (truthy error = false -> fst out = get_prop json (js "result")).
Proof.
  intros Hp Hout.
  destruct (createPrivyProvider_Ok_inv _ _ _ Hp) as (_ & Hurl & _).
  destruct (serialize_defined [] [] _ (coalesce_defined params))
    as [params_text Hs].
  exists params_text. split; [exact Hs |]. cbv zeta.
  rewrite (request_unhandled env p method params Hout).
  destruct (proxyToRpc_run env p method params st)
    as (Hposts & Hfiles & Hsigner & _ & Hres).
  assert (Hreq : rpc_request p method params =
                 {| http_url := rpcUrl config;
                    http_method := js "POST";
                    http_headers := [(js "Content-Type", js "application/json")];
                    http_body :=
                      jsq "{'jsonrpc':'2.0','id':1,'method':"
                      ++ QuoteJSONString method
                      ++ jsq ",'params':" ++ params_text ++ js "}" |}).
  { unfold rpc_request. now rewrite Hurl, (rpc_body_eq method params params_text Hs). }
  rewrite Hreq in Hposts, Hres.
  split; [exact Hposts |]. split; [exact Hfiles |]. split; [exact Hsigner |].
  intros text json error Hfetch Hparse Herror. split.
  - intros Htruthy message Hmsg.
    rewrite Hres, Hfetch, Hparse, Herror, Htruthy, Hmsg.
    destruct (ToString message); reflexivity.
  - intros Hfalsy. rewrite Hres, Hfetch, Hparse, Herror, Hfalsy. reflexivity.
Qed.

Lemma unknown_method_unhandled : ~ In (js "unknown_method") handled_methods.
Proof.
  intros H. repeat (destruct H as [H | H]; [vm_compute in H; discriminate H |]).
  exact H.
Qed.

Lemma unhandled_method_is_proxied_witness :
  let params := JArr [JNum (Fin 1 0); JNum (Fin 1 1)] in
  let out := request stub_env sepolia_provider (js "unknown_method") params
               empty_state in
  let out' := request failing_node_env sepolia_provider (js "unknown_method")
                params empty_state in
  let out'' := request unprintable_error_env sepolia_provider
                 (js "unknown_method") params empty_state in
  http_posts (snd out)
  = [ {| http_url := js "https://rpc.example";
         http_method := js "POST";
         http_headers := [(js "Content-Type", js "application/json")];
         http_body :=
           jsq "{'jsonrpc':'2.0','id':1,'method':'unknown_method','params':[1,2]}" |} ] /\
  fst out = Ok (JStr (js "0x10")) /\
  fst out' = Throw (Error (js "RPC error (unknown_method): Method not found")) /\
  fst out'' = Throw TypeError.
Proof.
  cbv zeta.
  destruct (unhandled_method_is_proxied stub_env sepolia_config
              sepolia_provider (js "unknown_method")
              (JArr [JNum (Fin 1 0); JNum (Fin 1 1)]) empty_state
              eq_refl unknown_method_unhandled)
    as (params_text & Hs & Hposts & _ & _ & Hreply).
  destruct (unhandled_method_is_proxied failing_node_env sepolia_config
              sepolia_provider (js "unknown_method")
              (JArr [JNum (Fin 1 0); JNum (Fin 1 1)]) empty_state
              eq_refl unknown_method_unhandled)
    as (params_text' & Hs' & _ & _ & _ & Hreply').
  destruct (unhandled_method_is_proxied unprintable_error_env sepolia_config
              sepolia_provider (js "unknown_method")
              (JArr [JNum (Fin 1 0); JNum (Fin 1 1)]) empty_state
              eq_refl unknown_method_unhandled)
    as (params_text'' & Hs'' & _ & _ & _ & Hreply'').
  vm_compute in Hs. injection Hs as <-.
  vm_compute in Hs'. injection Hs' as <-.
  vm_compute in Hs''. injection Hs'' as <-.
  split; [exact Hposts |]. split; [| split].
  - destruct (Hreply _ _ _ eq_refl eq_refl eq_refl) as [_ Hfalsy].
    rewrite (Hfalsy eq_refl). reflexivity.
  - destruct (Hreply' _ _ _ eq_refl eq_refl eq_refl) as [Htruthy _].
    exact (Htruthy eq_refl (JStr (js "Method not found")) eq_refl).
  - destruct (Hreply'' _ _ _ eq_refl eq_refl eq_refl) as [Htruthy _].
    exact (Htruthy eq_refl (JObj [(js "toString", JNum (Fin 1 0))]) eq_refl).
Defined.

(** C2 as stated fails: the response holds an [error] member (it is
    [null]), yet the call does not fail and returns the [result]. *)
Lemma null_error_member_returns_result :
  let reply := jsq "{'jsonrpc':'2.0','id':1,'error':null,'result':'0x1'}" in
  fetch_reply null_error_env empty_state
    (rpc_request sepolia_provider (js "unknown_method") (JArr [])) = Ok reply /\
  (exists props, JSON_parse reply = Some (JObj props) /\
                 lookup_prop (js "error") props = Some JNull) /\
  ~ In (js "unknown_method") handled_methods /\
  fst (request null_error_env sepolia_provider (js "unknown_method") (JArr [])
         empty_state) = Ok (JStr (js "0x1")).
Proof.
  cbv zeta. split; [reflexivity |]. split.
  - eexists. split; [vm_compute; reflexivity | vm_compute; reflexivity].
  - split; [exact unknown_method_unhandled | vm_compute; reflexivity].
Qed.

(** ** Typed data *)

Lemma lookup_prop_app {A} (k : jsstring) (pre post : list (jsstring * A)) :
  lookup_prop k (pre ++ post) =
  match lookup_prop k pre with
  | Some x => Some x
  | None => lookup_prop k post
  end.
Proof.
  induction pre as [| [k' x] pre IH]; [reflexivity |].
  cbn [app lookup_prop]. destruct (jsstring_eqb k k'); [reflexivity | exact IH].
Qed.

Lemma lookup_prop_skip {A} (k k' : jsstring) (x : A)
  (pre post : list (jsstring * A)) :
  k <> k' -> lookup_prop k (pre ++ (k', x) :: post) = lookup_prop k (pre ++ post).
Proof.
  intros Hne. rewrite !lookup_prop_app. cbn [lookup_prop].
  unfold jsstring_eqb. now rewrite bool_decide_eq_false_2.
Qed.

Lemma lookup_prop_here {A} (k : jsstring) (x : A)
  (pre post : list (jsstring * A)) :
  lookup_prop k pre = None -> lookup_prop k (pre ++ (k, x) :: post) = Some x.
Proof.
  intros Hpre. rewrite lookup_prop_app, Hpre. cbn [lookup_prop].
  unfold jsstring_eqb. now rewrite bool_decide_eq_true_2.
Qed.

Lemma request_signTypedData (env : Env) (p : Provider) (account raw : jsval) :
  request env p (js "eth_signTypedData_v4") (JArr [account; raw]) =
  let* typedData :=
    match raw with
    | JStr text =>
        match JSON_parse text with
        | Some v => ret v
        | None => throw SyntaxError
        end
    | _ => ret raw
    end in
  sign_typed_payload env p typedData.
Proof. reflexivity. Qed.

Lemma request_carried_payload (env : Env) (p : Provider)
  (account raw payload : jsval) (st : State) :
  carries raw payload ->
  request env p (js "eth_signTypedData_v4") (JArr [account; raw]) st
  = sign_typed_payload env p payload st.
Proof.
  intros Hc. rewrite request_signTypedData. unfold bind.
  destruct Hc as [[-> Hns] | (text & -> & Hparse)].
  - destruct payload; try reflexivity. now destruct (Hns s).
  - now rewrite Hparse.
Qed.

Lemma filter_not_domain (all_types : list (jsstring * jsval)) :
  let stripped :=
    List.filter (fun kv => negb (jsstring_eqb (fst kv) (js "EIP712Domain")))
                all_types in
  forall k x, In (k, x) stripped <-> In (k, x) all_types /\ k <> js "EIP712Domain".
Proof.
  intros stripped k x. unfold stripped. rewrite filter_In. cbn [fst].
  unfold jsstring_eqb. rewrite negb_true_iff, bool_decide_eq_false. tauto.
Qed.

(** C7. [eth_signTypedData_v4] hands the signer the types of the payload
    without the [EIP712Domain] entry (every other entry is kept), and the
    primary type found under [primaryType] or, failing that, under
    [primary_type]: two payloads that differ only in which of the two
    names carries the (non-null) primary type lead to the same call of the
    signer, hence to the same result and the same state. *)
Theorem typed_data_strips_domain_and_accepts_both_names (env : Env)
  (p : Provider) (st : State) (account rawA rawB primary : jsval)
  (pre post : list (jsstring * jsval)) :
  nullish primary = false ->
  no_primary_type pre -> no_primary_type post ->
  carries rawA (JObj (pre ++ (js "primaryType", primary) :: post)) ->
  carries rawB (JObj (pre ++ (js "primary_type", primary) :: post)) ->
  request env p (js "eth_signTypedData_v4") (JArr [account; rawA]) st
  = request env p (js "eth_signTypedData_v4") (JArr [account; rawB]) st /\
  forall types all_types,
    lookup_prop (js "types") (pre ++ post) = Some types ->
    own_props types = Ok all_types ->
    let stripped :=
      List.filter (fun kv => negb (jsstring_eqb (fst kv) (js "EIP712Domain")))
                  all_types in
    let call :=
      signTypedData (default JUndefined (lookup_prop (js "domain") (pre ++ post)))
        stripped primary
        (default JUndefined (lookup_prop (js "message") (pre ++ post))) in
    let out := request env p (js "eth_signTypedData_v4") (JArr [account; rawA]) st in
    fst out = signer_reply env st (walletClient p) call /\
    signer_calls (snd out) = signer_calls st ++ [(walletClient p, call)] /\
    (forall k x, In (k, x) stripped <->
                 In (k, x) all_types /\ k <> js "EIP712Domain").
Proof.
  intros Hprimary [HpreA HpreB] [HpostA HpostB] HA HB.
  rewrite (request_carried_payload env p account rawA _ st HA).
  rewrite (request_carried_payload env p account rawB _ st HB).
  assert (Hrun : forall key other,
             key <> js "types" -> key <> js "domain" -> key <> js "message" ->
             key <> other ->
             lookup_prop key pre = None ->
             lookup_prop other pre = None -> lookup_prop other post = None ->
             (key = js "primaryType" /\ other = js "primary_type"
              \/ key = js "primary_type" /\ other = js "primaryType") ->
             sign_typed_payload env p (JObj (pre ++ (key, primary) :: post)) st
             = match lookup_prop (js "types") (pre ++ post) with
               | None => (Throw TypeError, st)
               | Some types =>
                   match own_props types with
                   | Throw e => (Throw e, st)
                   | Ok all_types =>
                       walletClient_call env (walletClient p)
                         (signTypedData
                            (default JUndefined (lookup_prop (js "domain") (pre ++ post)))
                            (List.filter
                               (fun kv => negb (jsstring_eqb (fst kv) (js "EIP712Domain")))
                               all_types)
                            primary
                            (default JUndefined (lookup_prop (js "message") (pre ++ post))))
                         st
                   end
               end).
  { intros key other Nt Nd Nm Nko Hkpre Hopre Hopost Hnames.
    unfold sign_typed_payload, bind, lift, get_prop. cbv beta iota.
    rewrite (lookup_prop_skip (js "types") key),
      (lookup_prop_skip (js "domain") key),
      (lookup_prop_skip (js "message") key)
      by (intros E; symmetry in E; contradiction).
    assert (Hkey : lookup_prop key (pre ++ (key, primary) :: post) = Some primary)
      by now apply lookup_prop_here.
    assert (Hother : lookup_prop other (pre ++ (key, primary) :: post) = None).
    { rewrite lookup_prop_skip by (intros E; symmetry in E; contradiction).
      now rewrite lookup_prop_app, Hopre. }
    destruct (lookup_prop (js "types") (pre ++ post)) as [types |];
      [| reflexivity].
    cbn [default from_option id].
    destruct (own_props types) as [all_types | e]; [| reflexivity].
    destruct Hnames as [[-> ->] | [-> ->]]; rewrite Hkey, Hother;
      cbn [default from_option id]; unfold coalesce.
    - rewrite Hprimary. unfold walletClient_call, ret.
      destruct (signer_reply env st _ _); reflexivity.
    - cbn [nullish]. unfold walletClient_call, ret.
      destruct (signer_reply env st _ _); reflexivity. }
  rewrite (Hrun (js "primaryType") (js "primary_type")); try discriminate;
    try assumption; [| now left].
  rewrite (Hrun (js "primary_type") (js "primaryType")); try discriminate;
    try assumption; [| now right].
  split; [reflexivity |].
  intros types all_types Htypes Hown. cbv zeta. rewrite Htypes, Hown.
  split; [reflexivity |]. split; [reflexivity |].
  apply filter_not_domain.
Qed.

Lemma typed_data_strips_domain_and_accepts_both_names_witness :
  let account := JStr (js "0x00000000000000000000000000000000000000aa") in
  let outA := request stub_env sepolia_provider (js "eth_signTypedData_v4")
                (JArr [account; mail_payload (js "primaryType")]) empty_state in
  let outB := request stub_env sepolia_provider (js "eth_signTypedData_v4")
                (JArr [account; JStr mail_text]) empty_state in
  outA = outB /\
  fst outA = Ok (JStr (js "0xsigned")) /\
  signer_calls (snd outA)
  = [(walletClient sepolia_provider,
      signTypedData
        (JObj [(js "name", JStr (js "Ether Mail"))])
        [(js "Mail",
          JArr [JObj [(js "name", JStr (js "contents"));
                      (js "type", JStr (js "string"))]])]
        (JStr (js "Mail"))
        (JObj [(js "contents", JStr (js "Hello"))]))].
Proof.
  cbv zeta.
  assert (HA : carries (mail_payload (js "primaryType"))
                 (JObj ([(js "domain", JObj [(js "name", JStr (js "Ether Mail"))]);
                         (js "types", mail_types)]
                        ++ (js "primaryType", JStr (js "Mail"))
                        :: [(js "message", JObj [(js "contents", JStr (js "Hello"))])]))).
  { left. split; [reflexivity | discriminate]. }
  assert (HB : carries (JStr mail_text)
                 (JObj ([(js "domain", JObj [(js "name", JStr (js "Ether Mail"))]);
                         (js "types", mail_types)]
                        ++ (js "primary_type", JStr (js "Mail"))
                        :: [(js "message", JObj [(js "contents", JStr (js "Hello"))])]))).
  { right. exists mail_text. split; [reflexivity | vm_compute; reflexivity]. }
  destruct (typed_data_strips_domain_and_accepts_both_names stub_env
              sepolia_provider empty_state
              (JStr (js "0x00000000000000000000000000000000000000aa"))
              (mail_payload (js "primaryType")) (JStr mail_text)
              (JStr (js "Mail"))
              [(js "domain", JObj [(js "name", JStr (js "Ether Mail"))]);
               (js "types", mail_types)]
              [(js "message", JObj [(js "contents", JStr (js "Hello"))])]
              eq_refl (conj eq_refl eq_refl) (conj eq_refl eq_refl) HA HB)
    as [Hsame Hcall].
  split; [exact Hsame |].
  destruct (Hcall mail_types _ eq_refl eq_refl) as (Hres & Hlog & _).
  split; [exact Hres | exact Hlog].
Defined.

(** ** Doubles that are integers *)

Local Open Scope Z_scope.

Lemma ctz_spec (p : positive) :
  0 <= fst (ctz p) /\
  Zpos p = Zpos (snd (ctz p)) * 2 ^ fst (ctz p) /\
  Z.odd (Zpos (snd (ctz p))) = true.
Proof.
  induction p as [p _ | p (Hk & Hv & Ho) | ].
  - cbn [ctz fst snd]. repeat split; try reflexivity. lia.
  - cbn [ctz]. destruct (ctz p) as [k r]. cbn [fst snd] in *.
    repeat split; [lia | | exact Ho].
    rewrite Z.pow_add_r by lia. rewrite Pos2Z.inj_xO, Hv. ring.
  - cbn. repeat split; reflexivity.
Qed.

(** The value of a normalized positive double, when it is an integer. *)
Lemma norm_to_Z (m e z : Z) :
  0 < m ->
  (0 <= e /\ z = m * 2 ^ e) \/ (e <= 0 /\ m = z * 2 ^ (- e)) ->
  number_to_Z (norm m e) = Some z.
Proof.
  intros Hm Hz. destruct m as [| p | p]; try lia. cbn [norm].
  destruct (ctz_spec p) as (Hk & Hv & Ho).
  destruct (ctz p) as [k r]. cbn [fst snd] in *. cbn [number_to_Z].
  destruct Hz as [[He ->] | [He Hz]].
  - rewrite (proj2 (Z.leb_le 0 (e + k))) by lia.
    f_equal. rewrite Hv, Z.pow_add_r by lia. ring.
  - assert (Hke : - e <= k).
    { destruct (Z_le_gt_dec (- e) k) as [Hle | Hgt]; [exact Hle | exfalso].
      assert (Heq : Zpos r = z * 2 ^ (- e - k)).
      { apply (Z.mul_reg_r _ _ (2 ^ k)); [apply Z.pow_nonzero; lia |].
        rewrite <- Z.mul_assoc, <- Z.pow_add_r by lia.
        replace (- e - k + k) with (- e) by lia. lia. }
      replace (- e - k) with (Z.succ (- e - k - 1)) in Heq by lia.
      rewrite Z.pow_succ_r in Heq by lia.
      rewrite Heq in Ho.
      replace (z * (2 * 2 ^ (- e - k - 1))) with (2 * (z * 2 ^ (- e - k - 1))) in Ho
        by ring.
      rewrite Z.odd_mul in Ho. discriminate Ho. }
    rewrite (proj2 (Z.leb_le 0 (e + k))) by lia.
    f_equal. apply (Z.mul_reg_r _ _ (2 ^ (- e))); [apply Z.pow_nonzero; lia |].
    rewrite <- Hz, Hv, <- Z.mul_assoc, <- Z.pow_add_r by lia.
    f_equal. f_equal. lia.
Qed.

Lemma round_half_even_1 (a : Z) : round_half_even a 1 = a.
Proof.
  unfold round_half_even. rewrite Z.div_1_r, Z.mod_1_r. reflexivity.
Qed.

(** Integers up to [2^53] are doubles. *)
Lemma round_pos_exact (p : Z) :
  0 < p <= 2 ^ 53 -> number_to_Z (round_pos p 1) = Some p.
Proof.
  intros Hp. unfold round_pos, floor_log2.
  change (Z.log2 1) with 0. rewrite Z.sub_0_r.
  pose proof (Z.log2_nonneg p) as Hk0.
  destruct (Z.log2_spec p) as [Hlo Hhi]; [lia |].
  assert (Hk : Z.log2 p <= 53).
  { change 53 with (Z.log2 (2 ^ 53)). apply Z.log2_le_mono. lia. }
  unfold scaled_le. rewrite (proj2 (Z.leb_le 0 (Z.log2 p))) by lia.
  rewrite (proj2 (Z.leb_le (1 * 2 ^ Z.log2 p) p)) by lia.
  rewrite (proj2 (Z.leb_gt 1024 (Z.log2 p))) by lia.
  rewrite Z.max_l by lia.
  destruct (Z_lt_le_dec (Z.log2 p) 52) as [Hsmall | Hbig].
  - rewrite (proj2 (Z.leb_gt 0 (Z.log2 p - 52))) by lia.
    rewrite round_half_even_1.
    rewrite (proj2 (Z.eqb_neq (Z.log2 p - 52) 971)) by lia.
    rewrite andb_false_r.
    apply norm_to_Z.
    + apply Z.mul_pos_pos; [lia | apply Z.pow_pos_nonneg; lia].
    + right. split; [lia | reflexivity].
  - rewrite (proj2 (Z.leb_le 0 (Z.log2 p - 52))) by lia.
    rewrite (proj2 (Z.eqb_neq (Z.log2 p - 52) 971)) by lia.
    rewrite andb_false_r.
    assert (Hcase : Z.log2 p = 52 \/ Z.log2 p = 53) by lia.
    destruct Hcase as [H52 | H53].
    + rewrite H52. change (1 * 2 ^ (52 - 52)) with 1.
      rewrite round_half_even_1. apply norm_to_Z; [lia |].
      left. split; [lia |]. change (2 ^ (52 - 52)) with 1. lia.
    + rewrite H53 in *. assert (p = 2 ^ 53) by lia. subst p. reflexivity.
Qed.

Lemma number_to_Z_neg (x : number) :
  number_to_Z (number_neg x) = Z.opp <$> number_to_Z x.
Proof.
  destruct x as [m e | |]; try reflexivity. cbn [number_neg number_to_Z].
  destruct (0 <=? e); [| reflexivity]. cbn. f_equal. ring.
Qed.

Theorem number_of_Z_exact (z : Z) :
  Z.abs z <= 2 ^ 53 -> number_to_Z (number_of_Z z) = Some z.
Proof.
  intros Hz. unfold number_of_Z, double_of_rational.
  destruct z as [| p | p]; [reflexivity | |].
  - apply round_pos_exact. lia.
  - rewrite number_to_Z_neg, round_pos_exact by lia. reflexivity.
Qed.

(** ** Numeric strings *)

Local Open Scope N_scope.

Lemma to_radix_aux_digits (radix : N) (fuel : nat) :
  2 <= radix <= 36 ->
  forall n acc,
    forallb (is_digit radix) acc = true ->
    forallb (is_digit radix) (to_radix_aux fuel radix n acc) = true.
Proof.
  intros Hr. induction fuel as [| f IH]; intros n acc Hacc; [exact Hacc |].
  cbn [to_radix_aux].
  assert (H : forallb (is_digit radix) (digit_char (n mod radix) :: acc) = true).
  { cbn [forallb]. rewrite is_digit_digit_char, Hacc; [reflexivity | | lia].
    apply N.mod_upper_bound. lia. }
  destruct (n / radix =? 0); [exact H | now apply IH].
Qed.

Lemma N_to_radix_digits (radix n : N) :
  2 <= radix <= 36 -> forallb (is_digit radix) (N_to_radix radix n) = true.
Proof. intros Hr. now apply to_radix_aux_digits. Qed.

Lemma N_to_radix_all_digits (radix n : N) :
  2 <= radix <= 36 -> all_digits radix (N_to_radix radix n) = true.
Proof.
  intros Hr. unfold all_digits. rewrite N_to_radix_digits by assumption.
  destruct (N_to_radix_head radix n) as (d & rest & -> & _). reflexivity.
Qed.

Lemma digit_range (radix c : N) :
  is_digit radix c = true -> 48 <= c <= 122.
Proof.
  unfold is_digit, digit_val. intros Hd.
  destruct ((48 <=? c) && (c <=? 57)) eqn:E1.
  { apply andb_true_iff in E1 as [A B]. apply N.leb_le in A, B. lia. }
  destruct ((97 <=? c) && (c <=? 122)) eqn:E2.
  { apply andb_true_iff in E2 as [A B]. apply N.leb_le in A, B. lia. }
  destruct ((65 <=? c) && (c <=? 90)) eqn:E3; [| discriminate Hd].
  apply andb_true_iff in E3 as [A B]. apply N.leb_le in A, B. lia.
Qed.

Lemma decimal_digit_range (c : N) : is_digit 10 c = true -> 48 <= c <= 57.
Proof.
  unfold is_digit, digit_val. intros Hd.
  destruct ((48 <=? c) && (c <=? 57)) eqn:E1.
  { apply andb_true_iff in E1 as [A B]. apply N.leb_le in A, B. lia. }
  destruct ((97 <=? c) && (c <=? 122)) eqn:E2.
  { apply andb_true_iff in E2 as [A B]. apply N.leb_le in A, B.
    apply N.ltb_lt in Hd. lia. }
  destruct ((65 <=? c) && (c <=? 90)) eqn:E3; [| discriminate Hd].
  apply andb_true_iff in E3 as [A B]. apply N.leb_le in A, B.
  apply N.ltb_lt in Hd. lia.
Qed.

Lemma not_ws_in_range (c : N) : 45 <= c <= 122 -> is_str_ws c = false.
Proof.
  intros Hc. unfold is_str_ws.
  rewrite (proj2 (N.leb_gt c 13)) by lia.
  rewrite (proj2 (N.leb_gt 8192 c)) by lia.
  rewrite !(proj2 (N.eqb_neq c _)) by lia.
  now rewrite andb_false_r.
Qed.

Lemma digit_not_ws (radix c : N) : is_digit radix c = true -> is_str_ws c = false.
Proof.
  intros H. apply digit_range in H. apply not_ws_in_range. lia.
Qed.

Lemma trim_start_no_ws (s : jsstring) :
  Forall (fun c => is_str_ws c = false) s -> trim_start s = s.
Proof.
  destruct 1 as [| c s Hc _]; [reflexivity |].
  cbn [trim_start]. now rewrite Hc.
Qed.

Lemma trim_no_ws (s : jsstring) :
  Forall (fun c => is_str_ws c = false) s -> trim s = s.
Proof.
  intros H. unfold trim. rewrite (trim_start_no_ws s H).
  rewrite trim_start_no_ws by now apply Forall_rev.
  apply rev_involutive.
Qed.

Lemma digits_no_ws (radix : N) (s : jsstring) :
  forallb (is_digit radix) s = true -> Forall (fun c => is_str_ws c = false) s.
Proof.
  induction s as [| c s IH]; cbn [forallb]; [constructor |].
  intros [Hc Hs]%andb_true_iff. constructor; [| auto].
  now apply (digit_not_ws radix).
Qed.

Lemma take_digits_all (radix : N) (s : jsstring) :
  forallb (is_digit radix) s = true -> take_digits radix s = (s, []).
Proof.
  induction s as [| c s IH]; cbn [forallb take_digits]; [reflexivity |].
  intros [Hc Hs]%andb_true_iff. now rewrite Hc, IH.
Qed.

(** A string of decimal digits is no [0x], [0o] or [0b] literal. *)
Lemma decimal_not_prefixed (z : N) (s : jsstring) :
  forallb (is_digit 10) s = true -> non_decimal_integer (z :: s) = None.
Proof.
  destruct s as [| q ds]; [reflexivity |]. cbn [forallb].
  intros [Hq _]%andb_true_iff. apply decimal_digit_range in Hq.
  unfold non_decimal_integer.
  repeat match goal with
         | |- context [?a =? ?b] => destruct (N.eqb_spec a b); try lia
         end; reflexivity.
Qed.

Lemma all_digits_inv (radix : N) (ds : jsstring) :
  all_digits radix ds = true ->
  exists d rest, ds = d :: rest /\ forallb (is_digit radix) ds = true.
Proof.
  unfold all_digits. destruct ds as [| d rest]; [discriminate |].
  cbn [is_nil negb andb]. intros H. now exists d, rest.
Qed.

Lemma sign_no_ws (sg : sign) :
  Forall (fun c => is_str_ws c = false) (sign_text sg).
Proof. destruct sg; repeat constructor. Qed.

(** What is left of a signed decimal once the sign is read. *)
Lemma signed_decimal_read (sg : sign) (ds : jsstring) :
  all_digits 10 ds = true ->
  trim (sign_text sg ++ ds) = sign_text sg ++ ds /\
  is_nil (sign_text sg ++ ds) = false /\
  non_decimal_integer (sign_text sg ++ ds) = None /\
  strip_sign (sign_text sg ++ ds)
  = (match sg with minus_sign => true | _ => false end, ds).
Proof.
  intros Ha. destruct (all_digits_inv 10 ds Ha) as (d & rest & -> & Hd).
  pose proof Hd as Hd'. cbn [forallb] in Hd'.
  apply andb_true_iff in Hd' as [Hd1 Hrest].
  pose proof (decimal_digit_range d Hd1) as Hrange.
  split.
  { apply trim_no_ws. apply Forall_app. split; [apply sign_no_ws |].
    now apply (digits_no_ws 10). }
  split; [now destruct sg |].
  split.
  - destruct sg; cbn [sign_text app].
    + exact (decimal_not_prefixed d rest Hrest).
    + exact (decimal_not_prefixed 43 (d :: rest) Hd).
    + exact (decimal_not_prefixed 45 (d :: rest) Hd).
  - destruct sg; cbn [sign_text app]; unfold strip_sign.
    + destruct (N.eqb_spec d 45); [lia |]. destruct (N.eqb_spec d 43); [lia |].
      reflexivity.
    + reflexivity.
    + reflexivity.
Qed.

Lemma StringToBigInt_signed (sg : sign) (ds : jsstring) :
  all_digits 10 ds = true ->
  StringToBigInt (sign_text sg ++ ds) = Some (signed sg (Z_of_digits 10 ds)).
Proof.
  intros Ha.
  destruct (signed_decimal_read sg ds Ha) as (Htrim & Hnil & Hnd & Hsign).
  unfold StringToBigInt. rewrite Htrim, Hnil, Hnd, Hsign, Ha.
  now destruct sg.
Qed.

Lemma hex_literal_read (x : N) (hs : jsstring) :
  x = 120 \/ x = 88 ->
  all_digits 16 hs = true ->
  trim (48 :: x :: hs) = 48 :: x :: hs /\
  non_decimal_integer (48 :: x :: hs) = Some (Z_of_digits 16 hs).
Proof.
  intros Hx Ha. destruct (all_digits_inv 16 hs Ha) as (d & rest & Heq & Hd).
  split.
  - apply trim_no_ws.
    constructor; [reflexivity |].
    constructor; [destruct Hx as [-> | ->]; reflexivity |].
    now apply (digits_no_ws 16).
  - unfold non_decimal_integer.
    replace ((x =? 120) || (x =? 88)) with true
      by (destruct Hx as [-> | ->]; reflexivity).
    change (48 =? 48) with true. cbn [andb]. now rewrite Ha.
Qed.

(** [BigInt] reads a decimal string, a hex string or an integral number
    as the integer it stands for, whatever its size. *)
Theorem BigInt_exact (v : jsval) (z : Z) : numeric_input v z -> BigInt v = Ok z.
Proof.
  destruct 1 as [sg ds Ha | x hs Hx Ha | x z Hx]; unfold BigInt;
    cbn [ToPrimitive].
  - now rewrite StringToBigInt_signed.
  - destruct (hex_literal_read x hs Hx Ha) as [Htrim Hhex].
    unfold StringToBigInt. rewrite Htrim, Hhex. reflexivity.
  - now rewrite Hx.
Qed.

Local Open Scope Z_scope.

Lemma number_neg_of_Z (z : Z) :
  0 <= z -> number_neg (number_of_Z z) = number_of_Z (- z).
Proof. destruct z; [reflexivity | reflexivity | lia]. Qed.

Local Open Scope N_scope.

Lemma unsigned_decimal_digits (ds : jsstring) :
  all_digits 10 ds = true ->
  unsigned_decimal ds = number_of_Z (Z_of_digits 10 ds).
Proof.
  intros Ha. destruct (all_digits_inv 10 ds Ha) as (d & rest & Heq & Hd).
  unfold unsigned_decimal.
  rewrite bool_decide_eq_false_2.
  - rewrite (take_digits_all 10 _ Hd).
    rewrite Heq. cbn [is_nil andb parse_exponent]. rewrite <- Heq.
    rewrite app_nil_r. unfold double_of_decimal. cbn [length].
    change (0 - Z.of_nat 0)%Z with 0%Z. unfold scale10.
    change (0 <=? 0)%Z with true. cbv beta iota.
    now rewrite Z.pow_0_r, Z.mul_1_r.
  - rewrite Heq. intros [= -> _].
    rewrite Heq in Hd. cbn [forallb] in Hd.
    apply andb_true_iff in Hd as [Hd1 _]. apply decimal_digit_range in Hd1. lia.
Qed.

Lemma StringToNumber_signed (sg : sign) (ds : jsstring) :
  all_digits 10 ds = true ->
  StringToNumber (sign_text sg ++ ds)
  = number_of_Z (signed sg (Z_of_digits 10 ds)).
Proof.
  intros Ha.
  destruct (signed_decimal_read sg ds Ha) as (Htrim & Hnil & Hnd & Hsign).
  unfold StringToNumber. rewrite Htrim, Hnil, Hnd, Hsign.
  rewrite (unsigned_decimal_digits ds Ha).
  destruct sg; try reflexivity.
  cbn [signed]. apply number_neg_of_Z. unfold Z_of_digits. lia.
Qed.

Lemma StringToNumber_hex (x : N) (hs : jsstring) :
  x = 120 \/ x = 88 ->
  all_digits 16 hs = true ->
  StringToNumber (48 :: x :: hs) = number_of_Z (Z_of_digits 16 hs).
Proof.
  intros Hx Ha. destruct (hex_literal_read x hs Hx Ha) as [Htrim Hhex].
  unfold StringToNumber. rewrite Htrim, Hhex. reflexivity.
Qed.

(** [Number] passes a number on and reads a string as the double nearest
    to the integer it spells. *)
Theorem Number_reads (v : jsval) (z : Z) :
  numeric_input v z -> Number v = Ok (nonce_of v z).
Proof.
  destruct 1 as [sg ds Ha | x hs Hx Ha | x z Hx]; unfold Number, nonce_of;
    cbn [ToPrimitive].
  - now rewrite StringToNumber_signed.
  - now rewrite StringToNumber_hex.
  - reflexivity.
Qed.

(** That double is the integer itself as long as its magnitude is at most
    [2^53]. *)
Theorem nonce_of_exact (v : jsval) (z : Z) :
  numeric_input v z -> (Z.abs z <= 2 ^ 53)%Z ->
  number_to_Z (nonce_of v z) = Some z.
Proof.
  destruct 1 as [sg ds Ha | x hs Hx Ha | x z Hx]; intros Hz; unfold nonce_of.
  - now apply number_of_Z_exact.
  - now apply number_of_Z_exact.
  - exact Hx.
Qed.

Lemma numeric_input_present (v : jsval) (z : Z) :
  numeric_input v z -> nullish v = false.
Proof. destruct 1; reflexivity. Qed.

Lemma when_present_BigInt (v : jsval) (z : option Z) :
  field_denotes v z -> when_present v BigInt = Ok z.
Proof.
  unfold when_present. destruct z as [n |]; cbn [field_denotes].
  - intros H. now rewrite (numeric_input_present v n H), (BigInt_exact v n H).
  - now intros ->.
Qed.

Lemma when_present_Number (v : jsval) (z : option Z) :
  field_denotes v z -> when_present v Number = Ok (nonce_argument v z).
Proof.
  unfold when_present. destruct z as [n |]; cbn [field_denotes nonce_argument].
  - intros H. now rewrite (numeric_input_present v n H), (Number_reads v n H).
  - now intros ->.
Qed.

Lemma request_sendTransaction (env : Env) (p : Provider)
  (props : list (jsstring * jsval)) (rest : list jsval) (st : State) :
  let field k := default JUndefined (lookup_prop k props) in
  request env p (js "eth_sendTransaction") (JArr (JObj props :: rest)) st =
  match when_present (field (js "value")) BigInt with
  | Throw e => (Throw e, st)
  | Ok value =>
      match when_present (field (js "gas")) BigInt with
      | Throw e => (Throw e, st)
      | Ok gas =>
          match when_present (field (js "nonce")) Number with
          | Throw e => (Throw e, st)
          | Ok nonce =>
              walletClient_call env (walletClient p)
                (sendTransaction (field (js "to")) (field (js "data")) value gas nonce
                   (prov_chain p)) st
          end
      end
  end.
Proof.
  cbv zeta.
  change (request env p (js "eth_sendTransaction") (JArr (JObj props :: rest)) st)
    with (bind (lift (when_present
                        (default JUndefined (lookup_prop (js "value") props)) BigInt))
            (fun value =>
               bind (lift (when_present
                             (default JUndefined (lookup_prop (js "gas") props)) BigInt))
                 (fun gas =>
                    bind (lift (when_present
                                  (default JUndefined (lookup_prop (js "nonce") props))
                                  Number))
                      (fun nonce =>
                         bind (walletClient_call env (walletClient p)
                                 (sendTransaction
                                    (default JUndefined (lookup_prop (js "to") props))
                                    (default JUndefined (lookup_prop (js "data") props))
                                    value gas nonce (prov_chain p)))
                           ret))) st).
  unfold bind, lift.
  destruct (when_present (default JUndefined (lookup_prop (js "value") props)) BigInt);
    [| reflexivity].
  destruct (when_present (default JUndefined (lookup_prop (js "gas") props)) BigInt);
    [| reflexivity].
  destruct (when_present (default JUndefined (lookup_prop (js "nonce") props)) _);
    [| reflexivity].
  unfold walletClient_call, ret.
  destruct (signer_reply env st _ _); reflexivity.
Qed.

(** C8, as the code has it.  In [eth_sendTransaction], [value] and [gas],
    given as a decimal string, a hex string or an integral number, reach
    the signer as exactly that integer (a BigInt), whatever its size.
    [nonce] goes through [Number]: a number is passed as it is, and a
    string as the double nearest to the integer it spells, which is that
    integer whenever its magnitude is at most [2^53].  A field that is
    [null], [undefined] or missing is passed as [undefined]. *)
Theorem sendTransaction_coercions (env : Env) (p : Provider) (st : State)
  (props : list (jsstring * jsval)) (rest : list jsval)
  (value gas nonce : option Z) :
  let field k := default JUndefined (lookup_prop k props) in
  field_denotes (field (js "value")) value ->
  field_denotes (field (js "gas")) gas ->
  field_denotes (field (js "nonce")) nonce ->
  let nonce_arg := nonce_argument (field (js "nonce")) nonce in
  let call := sendTransaction (field (js "to")) (field (js "data")) value gas
                nonce_arg (prov_chain p) in
  let out := request env p (js "eth_sendTransaction")
               (JArr (JObj props :: rest)) st in
  fst out = signer_reply env st (walletClient p) call /\
  signer_calls (snd out) = signer_calls st ++ [(walletClient p, call)] /\
  (forall n, nonce = Some n -> (Z.abs n <= 2 ^ 53)%Z ->
             exists x, nonce_arg = Some x /\ number_to_Z x = Some n).
Proof.
  intros field Hvalue Hgas Hnonce. subst field. cbv beta zeta in *.
  rewrite request_sendTransaction. cbv zeta beta.
  rewrite (when_present_BigInt _ _ Hvalue), (when_present_BigInt _ _ Hgas),
    (when_present_Number _ _ Hnonce).
  split; [reflexivity |]. split; [reflexivity |].
  intros n -> Hn. cbn [nonce_argument field_denotes] in *.
  eexists. split; [reflexivity |]. now apply nonce_of_exact.
Qed.

Lemma sendTransaction_coercions_witness :
  let out := request stub_env sepolia_provider (js "eth_sendTransaction")
               (JArr [JObj spelled_tx]) empty_state in
  let call :=
    sendTransaction
      (JStr (js "0x00000000000000000000000000000000000000bb")) JUndefined
      (Some 1000000000000000000000%Z) (Some 171%Z) (Some (Fin 7 0)) sepolia in
  fst out = Ok (JStr (js "0xsigned")) /\
  signer_calls (snd out) = [(walletClient sepolia_provider, call)] /\
  (forall n, Some 7%Z = Some n -> (Z.abs n <= 2 ^ 53)%Z ->
             exists x, Some (Fin 7 0) = Some x /\ number_to_Z x = Some n).
Proof.
  exact (sendTransaction_coercions stub_env sepolia_provider empty_state
           spelled_tx [] (Some 1000000000000000000000%Z) (Some 171%Z)
           (Some 7%Z)
           (decimal_string no_sign (js "001000000000000000000000") eq_refl)
           (hex_string 88 (js "00AB") (or_intror eq_refl) eq_refl)
           (decimal_string plus_sign (js "7") eq_refl)).
Defined.

(** C8 as stated fails for the nonce: given as the decimal string
    ["9007199254740993"], it reaches the signer as the double
    [9007199254740992]. *)
Lemma nonce_loses_precision :
  let out := request stub_env sepolia_provider (js "eth_sendTransaction")
               (JArr [JObj big_nonce_tx]) empty_state in
  numeric_input (JStr (js "9007199254740993")) 9007199254740993 /\
  signer_calls (snd out)
  = [(walletClient sepolia_provider,
      sendTransaction
        (JStr (js "0x00000000000000000000000000000000000000bb")) JUndefined
        None None (Some (Fin 1 53)) sepolia)] /\
  number_to_Z (Fin 1 53) = Some 9007199254740992%Z /\
  number_to_Z (Fin 1 53) <> Some 9007199254740993%Z.
Proof.
  cbv zeta.
  split; [exact (decimal_string no_sign (js "9007199254740993") eq_refl) |].
  split; [vm_compute; reflexivity |].
  split; [reflexivity | discriminate].
Qed.

(** * More about src/wallet.ts *)

Local Open Scope Z_scope.

(** X1. When key generation and the custody service both answer,
    [createWallet] returns the record made of the service's wallet id and
    address, both halves of the generated keypair and the time of the
    clock.  It generates one keypair, asks the custody service once, for a
    wallet owned by the public key of that very pair and with the given
    credentials, reads the clock once, and touches no file. *)
Theorem createWallet_assembles_record (env : Env) (opts : CreateWalletOptions)
  (st : State) (keypair : KeyPair) (wallet : CreatedWallet) :
  let st1 := snd (enter_createWallet st) in
  let st2 := snd (generateP256KeyPair env st1) in
  let st3 := snd (wallets_create env opts (publicKey keypair) st2) in
  keygen_reply env st1 = Ok keypair ->
  custody_reply env st2 opts (publicKey keypair) = Ok wallet ->
  let out := createWallet env opts st in
  fst out = Ok {| walletId := wallet_id wallet;
                  address := wallet_address wallet;
                  authPrivateKey := privateKey keypair;
                  authPublicKey := publicKey keypair;
                  createdAt := clock_reply env st3 |} /\
  keygen_calls (snd out) = S (keygen_calls st) /\
  custody_creates (snd out) = custody_creates st ++ [(opts, publicKey keypair)] /\
  clock_reads (snd out) = S (clock_reads st) /\
  files (snd out) = files st /\
  http_posts (snd out) = http_posts st /\
  signer_calls (snd out) = signer_calls st.
Proof.
  intros st1 st2 st3 Hkey Hcustody out. subst out st3 st2 st1.
  unfold createWallet, bind, enter_createWallet, generateP256KeyPair,
    wallets_create, now_toISOString, ret in *.
  cbn [snd] in Hkey, Hcustody. cbv beta iota.
  rewrite Hkey. cbv beta iota. rewrite Hcustody.
  repeat split; reflexivity.
Qed.

Lemma createWallet_assembles_record_witness :
  let out := createWallet stub_env stub_opts empty_state in
  fst out = Ok stub_wallet /\
  keygen_calls (snd out) = 1%nat /\
  custody_creates (snd out) = [(stub_opts, js "cHVibGlj")] /\
  clock_reads (snd out) = 1%nat /\
  files (snd out) = ∅ /\
  http_posts (snd out) = [] /\
  signer_calls (snd out) = [].
Proof.
  exact (createWallet_assembles_record stub_env stub_opts empty_state
           stub_keypair stub_created eq_refl eq_refl).
Defined.

(** X2. When key generation fails, [createWallet] throws that error
    without asking the custody service or reading the clock, and no file
    changes; [getOrCreateWallet] on a miss throws the same error and
    leaves the files and the custody service alone. *)
Theorem keygen_failure_calls_nobody (env : Env) (opts : CreateWalletOptions)
  (filePath : option jsstring) (st : State) (e : exn) :
  keygen_reply env (snd (enter_createWallet st)) = Throw e ->
  fst (createWallet env opts st) = Throw e /\
  custody_creates (snd (createWallet env opts st)) = custody_creates st /\
  clock_reads (snd (createWallet env opts st)) = clock_reads st /\
  files (snd (createWallet env opts st)) = files st /\
  (files st !! wallet_path env filePath = None ->
   fst (getOrCreateWallet env opts filePath st) = Throw e /\
   custody_creates (snd (getOrCreateWallet env opts filePath st))
   = custody_creates st /\
   files (snd (getOrCreateWallet env opts filePath st)) = files st).
Proof.
  intros Hkey.
  assert (Hrun : createWallet env opts st
                 = (Throw e, snd (generateP256KeyPair env (snd (enter_createWallet st))))).
  { unfold createWallet, bind, enter_createWallet, generateP256KeyPair in *.
    cbn [snd] in Hkey. cbv beta iota. rewrite Hkey. reflexivity. }
  rewrite Hrun. cbn [fst snd].
  split; [reflexivity |]. split; [reflexivity |]. split; [reflexivity |].
  split; [reflexivity |].
  intros Hmiss.
  rewrite (getOrCreateWallet_miss env opts filePath st JNull);
    [| now rewrite loadWallet_run, Hmiss | reflexivity].
  rewrite Hrun. repeat split; reflexivity.
Qed.

Lemma keygen_failure_calls_nobody_witness :
  fst (createWallet keygen_failing_env stub_opts empty_state)
  = Throw (Rejected (js "key generation failed")) /\
  custody_creates (snd (createWallet keygen_failing_env stub_opts empty_state)) = [] /\
  clock_reads (snd (createWallet keygen_failing_env stub_opts empty_state)) = 0%nat /\
  files (snd (createWallet keygen_failing_env stub_opts empty_state)) = ∅ /\
  fst (getOrCreateWallet keygen_failing_env stub_opts None empty_state)
  = Throw (Rejected (js "key generation failed")) /\
  custody_creates (snd (getOrCreateWallet keygen_failing_env stub_opts None empty_state))
  = [] /\
  files (snd (getOrCreateWallet keygen_failing_env stub_opts None empty_state)) = ∅.
Proof.
  destruct (keygen_failure_calls_nobody keygen_failing_env stub_opts None
              empty_state (Rejected (js "key generation failed")) eq_refl)
    as (H1 & H2 & H3 & H4 & H5).
  split; [exact H1 |]. split; [exact H2 |]. split; [exact H3 |].
  split; [exact H4 |]. exact (H5 eq_refl).
Defined.

(** X3. After a first call of [getOrCreateWallet] that found no file,
    created a wallet and wrote it (the write did not fail), a second call
    on the same path, with whatever credentials, returns the same record
    and changes nothing: nothing is created and the custody service is not
    asked again. *)
Theorem getOrCreateWallet_second_call_loads (env : Env)
  (opts opts' : CreateWalletOptions) (filePath : option jsstring)
  (st st1 : State) (w : PersistedWallet) :
  files st !! wallet_path env filePath = None ->
  createWallet env opts st = (Ok w, st1) ->
  fst (saveWallet env w filePath st1) = Ok tt ->
  valid_wallet w ->
  let first := getOrCreateWallet env opts filePath st in
  let second := getOrCreateWallet env opts' filePath (snd first) in
  fst first = Ok (wallet_object w) /\
  fst second = Ok (wallet_object w) /\
  snd second = snd first.
Proof.
  intros Hmiss Hcreate Hsaved Hw first second. subst second first.
  rewrite (getOrCreateWallet_miss env opts filePath st JNull);
    [| now rewrite loadWallet_run, Hmiss | reflexivity].
  rewrite Hcreate, (saveWallet_written env w filePath st1 Hsaved).
  cbn [fst snd].
  rewrite (getOrCreateWallet_hit env opts' filePath _ (wallet_object w)).
  - split; [reflexivity |]. split; reflexivity.
  - rewrite loadWallet_run. cbn [set_file files]. rewrite lookup_insert_eq.
    now rewrite parse_wallet_text.
  - reflexivity.
Qed.

Lemma getOrCreateWallet_second_call_loads_witness :
  let first := getOrCreateWallet stub_env stub_opts None empty_state in
  let second := getOrCreateWallet stub_env stub_opts None (snd first) in
  fst first = Ok (wallet_object stub_wallet) /\
  fst second = Ok (wallet_object stub_wallet) /\
  snd second = snd first.
Proof.
  exact (getOrCreateWallet_second_call_loads stub_env stub_opts stub_opts None
           empty_state (snd (createWallet stub_env stub_opts empty_state))
           stub_wallet eq_refl eq_refl eq_refl stub_wallet_valid).
Defined.

(** X4. A wallet file whose text is not valid JSON is left alone:
    [getOrCreateWallet] throws the parser's SyntaxError, creates nothing
    and does not overwrite the file. *)
Theorem corrupt_file_is_left_alone (env : Env) (opts : CreateWalletOptions)
  (filePath : option jsstring) (st : State) (text : jsstring) :
  files st !! wallet_path env filePath = Some text ->
  JSON_parse text = None ->
  getOrCreateWallet env opts filePath st = (Throw SyntaxError, st).
Proof.
  intros Hfile Hparse. unfold getOrCreateWallet, bind.
  now rewrite loadWallet_run, Hfile, Hparse.
Qed.

Lemma corrupt_file_is_left_alone_witness :
  getOrCreateWallet stub_env stub_opts None
    (state_with_wallet_file (js "{walletId: 1}"))
  = (Throw SyntaxError, state_with_wallet_file (js "{walletId: 1}")).
Proof.
  exact (corrupt_file_is_left_alone stub_env stub_opts None
           (state_with_wallet_file (js "{walletId: 1}")) (js "{walletId: 1}")
           eq_refl eq_refl).
Defined.

(** X5. A [saveWallet] that returns has replaced whatever the file held
    with the text of the record, changed no other file and called nobody;
    when a second save on the same path returns too, only the last one
    shows: the files are those the second save alone would give. *)
Theorem saveWallet_last_writer_wins (env : Env) (w1 w2 : PersistedWallet)
  (filePath : option jsstring) (st : State) :
  fst (saveWallet env w1 filePath st) = Ok tt ->
  let st1 := snd (saveWallet env w1 filePath st) in
  files st1 !! wallet_path env filePath = Some (wallet_text w1) /\
  (forall q, q <> wallet_path env filePath -> files st1 !! q = files st !! q) /\
  keygen_calls st1 = keygen_calls st /\
  custody_creates st1 = custody_creates st /\
  http_posts st1 = http_posts st /\
  signer_calls st1 = signer_calls st /\
  (fst (saveWallet env w2 filePath st1) = Ok tt ->
   files (snd (saveWallet env w2 filePath st1))
   = <[wallet_path env filePath := wallet_text w2]> (files st)).
Proof.
  intros Hfirst st1. subst st1.
  rewrite (saveWallet_written env w1 filePath st Hfirst). cbn [snd].
  cbn [set_file files keygen_calls custody_creates http_posts signer_calls].
  split; [apply lookup_insert_eq |].
  split; [intros q Hq; now apply lookup_insert_ne |].
  split; [reflexivity |]. split; [reflexivity |].
  split; [reflexivity |]. split; [reflexivity |].
  intros Hsecond. rewrite (saveWallet_written env w2 filePath _ Hsecond).
  cbn [snd set_file files]. apply insert_insert_eq.
Qed.

Lemma saveWallet_last_writer_wins_witness :
  let st1 := snd (saveWallet stub_env stub_wallet None
                    (state_with_wallet_file (js "null"))) in
  files st1 !! wallet_path stub_env None = Some (wallet_text stub_wallet) /\
  files (snd (saveWallet stub_env other_wallet None st1))
  = <[wallet_path stub_env None := wallet_text other_wallet]>
      (files (state_with_wallet_file (js "null"))).
Proof.
  cbv zeta.
  destruct (saveWallet_last_writer_wins stub_env stub_wallet other_wallet None
              (state_with_wallet_file (js "null")) eq_refl)
    as (Hfile & _ & _ & _ & _ & _ & Hsecond).
  exact (conj Hfile (Hsecond eq_refl)).
Defined.

(** X6. [getOrCreateWallet] is not all or nothing.  When no file exists,
    the wallet is created and the write then fails, the call throws the
    write's error after the custody service made the wallet: the record
    is returned to nobody, and the files are as the failed write left
    them.  When the file is still missing, a second call enters
    [createWallet] again. *)
Theorem write_failure_orphans_the_wallet (env : Env)
  (opts : CreateWalletOptions) (filePath : option jsstring) (st st1 : State)
  (w : PersistedWallet) (e : exn) (left : option jsstring) :
  files st !! wallet_path env filePath = None ->
  createWallet env opts st = (Ok w, st1) ->
  write_reply env st1 (wallet_path env filePath) (wallet_text w)
  = WriteFailed e left ->
  let out := getOrCreateWallet env opts filePath st in
  fst out = Throw e /\
  createWallet_calls (snd out) = S (createWallet_calls st) /\
  custody_creates (snd out) = custody_creates st ++ [(opts, authPublicKey w)] /\
  files (snd out)
  = match left with
    | None => files st
    | Some partial => <[wallet_path env filePath := partial]> (files st)
    end /\
  (left = None ->
   createWallet_calls (snd (getOrCreateWallet env opts filePath (snd out)))
   = S (S (createWallet_calls st))).
Proof.
  intros Hmiss Hcreate Hwrite out. subst out.
  assert (Hmiss_run : forall s,
             files s !! wallet_path env filePath = None ->
             getOrCreateWallet env opts filePath s =
             match createWallet env opts s with
             | (Ok w', s1) =>
                 match saveWallet env w' filePath s1 with
                 | (Ok _, s2) => (Ok (wallet_object w'), s2)
                 | (Throw e', s2) => (Throw e', s2)
                 end
             | (Throw e', s1) => (Throw e', s1)
             end).
  { intros s Hs. apply (getOrCreateWallet_miss env opts filePath s JNull);
      [now rewrite loadWallet_run, Hs | reflexivity]. }
  assert (Hcount : forall s,
             files s !! wallet_path env filePath = None ->
             createWallet_calls (snd (getOrCreateWallet env opts filePath s))
             = S (createWallet_calls s)).
  { intros s Hs. rewrite (Hmiss_run s Hs).
    destruct (createWallet_state env opts s) as [_ Hn].
    destruct (createWallet env opts s) as [[w' | e'] s1]; cbn [snd] in Hn;
      [| exact Hn].
    rewrite saveWallet_run.
    destruct (write_reply env s1 _ _) as [| e' [partial |]]; exact Hn. }
  destruct (createWallet_state env opts st) as [Hf1 Hn1].
  pose proof (createWallet_Ok_custody env opts st st1 w Hcreate) as Hcustody.
  rewrite (Hmiss_run st Hmiss).
  rewrite Hcreate in *. cbn [snd] in Hf1, Hn1.
  rewrite saveWallet_run, Hwrite.
  destruct left as [partial |]; cbn [fst snd set_file files createWallet_calls
                                      custody_creates].
  - split; [reflexivity |]. split; [exact Hn1 |]. split; [exact Hcustody |].
    split; [now rewrite Hf1 | discriminate].
  - split; [reflexivity |]. split; [exact Hn1 |]. split; [exact Hcustody |].
    split; [exact Hf1 |].
    intros _. rewrite Hcount by now rewrite Hf1. now rewrite Hn1.
Qed.

Lemma write_failure_orphans_the_wallet_witness :
  let out := getOrCreateWallet unwritable_env stub_opts None empty_state in
  fst out = Throw (Error (js "ENOENT")) /\
  createWallet_calls (snd out) = 1%nat /\
  custody_creates (snd out) = [(stub_opts, js "cHVibGlj")] /\
  files (snd out) = ∅ /\
  createWallet_calls
    (snd (getOrCreateWallet unwritable_env stub_opts None (snd out))) = 2%nat.
Proof.
  cbv zeta.
  destruct (write_failure_orphans_the_wallet unwritable_env stub_opts None
              empty_state
              (snd (createWallet unwritable_env stub_opts empty_state))
              stub_wallet (Error (js "ENOENT")) None eq_refl eq_refl eq_refl)
    as (Hres & Hcalls & Hcustody & Hfiles & Hagain).
  exact (conj Hres (conj Hcalls (conj Hcustody (conj Hfiles (Hagain eq_refl))))).
Defined.

(** * More about src/provider.ts and src/wallet-client.ts *)

Lemma bind_lift {A B} (r : result A) (k : A -> M B) (st : State) :
  bind (lift r) k st =
  match r with
  | Ok a => k a st
  | Throw e => (Throw e, st)
  end.
Proof. unfold bind, lift. destruct r; reflexivity. Qed.

Lemma bind_call_ret (env : Env) (wc : WalletClient) (c : SignerCall) (st : State) :
  bind (walletClient_call env wc c) ret st = walletClient_call env wc c st.
Proof.
  unfold bind, walletClient_call, ret.
  destruct (signer_reply env st wc c); reflexivity.
Qed.

Lemma get_prop_nullish (v : jsval) (k : jsstring) :
  nullish v = true -> get_prop v k = Throw TypeError.
Proof. destruct v; try discriminate; reflexivity. Qed.

Lemma get_prop_field (v : jsval) (k : jsstring) :
  nullish v = false -> get_prop v k = Ok (field_of v k).
Proof.
  intros Hv. unfold field_of.
  destruct v; try discriminate Hv; cbn [get_prop]; try reflexivity;
    destruct (array_index k); try reflexivity;
    destruct (jsstring_eqb k (js "length")); reflexivity.
Qed.

(** The three cases of [request] that go to the signer, step by step. *)

Lemma request_personal_sign_run (env : Env) (p : Provider) (params : jsval)
  (st : State) :
  request env p (js "personal_sign") params st =
  match get_prop params (js "0") with
  | Throw e => (Throw e, st)
  | Ok message => walletClient_call env (walletClient p) (signMessage message) st
  end.
Proof.
  change (request env p (js "personal_sign") params st)
    with (bind (lift (get_prop params (js "0")))
            (fun message =>
               bind (walletClient_call env (walletClient p) (signMessage message))
                 ret) st).
  rewrite bind_lift. destruct (get_prop params (js "0")); [| reflexivity].
  apply bind_call_ret.
Qed.

Lemma request_sendTransaction_run (env : Env) (p : Provider) (params : jsval)
  (st : State) :
  request env p (js "eth_sendTransaction") params st =
  match get_prop params (js "0") with
  | Throw e => (Throw e, st)
  | Ok tx =>
      if nullish tx then (Throw TypeError, st)
      else
        match when_present (field_of tx (js "value")) BigInt with
        | Throw e => (Throw e, st)
        | Ok value =>
            match when_present (field_of tx (js "gas")) BigInt with
            | Throw e => (Throw e, st)
            | Ok gas =>
                match when_present (field_of tx (js "nonce")) Number with
                | Throw e => (Throw e, st)
                | Ok nonce =>
                    walletClient_call env (walletClient p)
                      (send_call p tx value gas nonce) st
                end
            end
        end
  end.
Proof.
  change (request env p (js "eth_sendTransaction") params st)
    with (bind (lift (get_prop params (js "0")))
            (fun tx =>
     bind (lift (get_prop tx (js "to"))) (fun to =>
     bind (lift (get_prop tx (js "data"))) (fun data =>
     bind (lift (get_prop tx (js "value"))) (fun tx_value =>
     bind (lift (when_present tx_value BigInt)) (fun value =>
     bind (lift (get_prop tx (js "gas"))) (fun tx_gas =>
     bind (lift (when_present tx_gas BigInt)) (fun gas =>
     bind (lift (get_prop tx (js "nonce"))) (fun tx_nonce =>
     bind (lift (when_present tx_nonce Number)) (fun nonce =>
     bind (walletClient_call env (walletClient p)
             (sendTransaction to data value gas nonce (prov_chain p)))
       ret))))))))) st).
  rewrite bind_lift. destruct (get_prop params (js "0")) as [tx | e];
    [| reflexivity].
  destruct (nullish tx) eqn:Htx.
  { now rewrite bind_lift, (get_prop_nullish tx _ Htx). }
  rewrite bind_lift, (get_prop_field tx (js "to") Htx).
  rewrite bind_lift, (get_prop_field tx (js "data") Htx).
  rewrite bind_lift, (get_prop_field tx (js "value") Htx).
  rewrite bind_lift.
  destruct (when_present (field_of tx (js "value")) BigInt) as [value | e];
    [| reflexivity].
  rewrite bind_lift, (get_prop_field tx (js "gas") Htx).
  rewrite bind_lift.
  destruct (when_present (field_of tx (js "gas")) BigInt) as [gas | e];
    [| reflexivity].
  rewrite bind_lift, (get_prop_field tx (js "nonce") Htx).
  rewrite bind_lift.
  destruct (when_present (field_of tx (js "nonce")) Number) as [nonce | e];
    [| reflexivity].
  apply bind_call_ret.
Qed.

Lemma sign_typed_payload_run (env : Env) (p : Provider) (typedData : jsval)
  (st : State) :
  sign_typed_payload env p typedData st =
  match get_prop typedData (js "types") with
  | Throw e => (Throw e, st)
  | Ok types =>
      match own_props types with
      | Throw e => (Throw e, st)
      | Ok all_types =>
          walletClient_call env (walletClient p) (typed_call typedData all_types) st
      end
  end.
Proof.
  unfold sign_typed_payload. rewrite bind_lift.
  destruct (nullish typedData) eqn:Htd.
  { now rewrite (get_prop_nullish typedData _ Htd). }
  rewrite (get_prop_field typedData (js "types") Htd).
  rewrite bind_lift.
  destruct (own_props (field_of typedData (js "types"))) as [all_types | e];
    [| reflexivity].
  rewrite bind_lift, (get_prop_field typedData (js "domain") Htd).
  rewrite bind_lift, (get_prop_field typedData (js "primaryType") Htd).
  rewrite bind_lift, (get_prop_field typedData (js "primary_type") Htd).
  rewrite bind_lift, (get_prop_field typedData (js "message") Htd).
  apply bind_call_ret.
Qed.

Lemma request_signTypedData_run (env : Env) (p : Provider) (params : jsval)
  (st : State) :
  request env p (js "eth_signTypedData_v4") params st =
  match get_prop params (js "1") with
  | Throw e => (Throw e, st)
  | Ok (JStr text) =>
      match JSON_parse text with
      | Some typedData => sign_typed_payload env p typedData st
      | None => (Throw SyntaxError, st)
      end
  | Ok typedData => sign_typed_payload env p typedData st
  end.
Proof.
  change (request env p (js "eth_signTypedData_v4") params st)
    with (bind (lift (get_prop params (js "1")))
            (fun typedDataRaw =>
               bind (match typedDataRaw with
                     | JStr text =>
                         match JSON_parse text with
                         | Some v => ret v
                         | None => throw SyntaxError
                         end
                     | _ => ret typedDataRaw
                     end)
                 (sign_typed_payload env p)) st).
  rewrite bind_lift. destruct (get_prop params (js "1")) as [raw | e];
    [| reflexivity].
  destruct raw; try reflexivity.
  unfold bind at 1. destruct (JSON_parse s); reflexivity.
Qed.

Lemma proxyToRpc_state (env : Env) (p : Provider) (method : jsstring)
  (params : jsval) (st : State) :
  snd (proxyToRpc env p method params st)
  = snd (fetch env (rpc_request p method params) st).
Proof.
  unfold proxyToRpc, bind, fetch, lift. cbv beta iota.
  destruct (fetch_reply env st (rpc_request p method params)) as [text | e];
    [| reflexivity].
  destruct (JSON_parse text) as [json |]; [| reflexivity].
  destruct (get_prop json (js "error")) as [error | e]; [| reflexivity].
  destruct (truthy error); [| now destruct (get_prop json (js "result"))].
  destruct (get_prop error (js "message")) as [message | e]; [| reflexivity].
  destruct (ToString message); reflexivity.
Qed.

Lemma resolveChain_id (z : Z) (c : Chain) :
  resolveChain z = Ok c -> chain_id c = z.
Proof.
  intros H.
  destruct (resolveChain_Ok_inv z c H) as [[-> ->] | [[-> ->] | [-> ->]]];
    reflexivity.
Qed.

Lemma get_first (x : jsval) (rest : list jsval) :
  get_prop (JArr (x :: rest)) (js "0") = Ok x.
Proof. reflexivity. Qed.

Lemma get_second (x y : jsval) (rest : list jsval) :
  get_prop (JArr (x :: y :: rest)) (js "1") = Ok y.
Proof. reflexivity. Qed.

Lemma only_logs_refl (st : State) : only_logs st st [] [].
Proof. unfold only_logs. rewrite !app_nil_r. repeat split; reflexivity. Qed.

Lemma only_logs_call (env : Env) (wc : WalletClient) (c : SignerCall)
  (st : State) :
  only_logs st (snd (walletClient_call env wc c st)) [] [(wc, c)].
Proof.
  unfold only_logs, walletClient_call.
  cbn [snd files keygen_calls custody_creates clock_reads createWallet_calls
       http_posts signer_calls].
  rewrite app_nil_r. repeat split; reflexivity.
Qed.

Lemma only_logs_fetch (env : Env) (req : HttpRequest) (st : State) :
  only_logs st (snd (fetch env req st)) [req] [].
Proof.
  unfold only_logs, fetch.
  cbn [snd files keygen_calls custody_creates clock_reads createWallet_calls
       http_posts signer_calls].
  rewrite app_nil_r. repeat split; reflexivity.
Qed.

(** X7. [createPrivyWalletClient] gives the very wallet client that the
    provider made from the same configuration signs with, and fails with
    the same error when the provider cannot be made. *)
Theorem wallet_client_is_the_provider_signer (env : Env)
  (config : PrivyProviderConfig) :
  match createPrivyProvider env config with
  | Ok p => createPrivyWalletClient env config = Ok (walletClient p)
  | Throw e => createPrivyWalletClient env config = Throw e
  end.
Proof.
  unfold createPrivyProvider, createPrivyWalletClient.
  destruct (createViemAccount env config); [| reflexivity].
  destruct (resolveChain (chainId config)); reflexivity.
Qed.

(** X8. [createPrivyProvider] can fail in two places, in this order: the
    account is refused by [createViemAccount], or the chain id is not
    supported.  It succeeds exactly when the account is accepted and the
    id is 1, 8453 or 11155111; the error of a refused account is thrown
    whatever the chain id is, and with an accepted account what is thrown
    is the error of [resolveChain].  The RPC URL is not looked at. *)
Theorem provider_made_iff_account_and_chain (env : Env)
  (config : PrivyProviderConfig) :
  ((exists p, createPrivyProvider env config = Ok p)
   <-> createViemAccount env config = Ok tt
       /\ In (chainId config) [1; 8453; 11155111]) /\
  (forall e, createViemAccount env config = Throw e ->
             createPrivyProvider env config = Throw e) /\
  (forall e, createViemAccount env config = Ok tt ->
             resolveChain (chainId config) = Throw e ->
             createPrivyProvider env config = Throw e).
Proof.
  split; [split |].
  - intros [p Hp].
    destruct (createPrivyProvider_Ok_inv _ _ _ Hp) as (_ & _ & _ & Hc & _).
    split.
    + unfold createPrivyProvider in Hp.
      destruct (createViemAccount env config) as [[] | e];
        [reflexivity | discriminate].
    + destruct (resolveChain_Ok_inv _ _ Hc) as [[-> _] | [[-> _] | [-> _]]];
        cbn; tauto.
  - unfold createPrivyProvider. intros [-> Hin].
    destruct Hin as [<- | [<- | [<- | []]]]; eexists; reflexivity.
  - split.
    + intros e He. unfold createPrivyProvider. now rewrite He.
    + intros e Ha He. unfold createPrivyProvider. now rewrite Ha, He.
Qed.

Lemma provider_made_iff_account_and_chain_witness :
  createPrivyProvider invalid_address_env sepolia_config
  = Throw (Error (js "InvalidAddressError")) /\
  exists p, createPrivyProvider stub_env sepolia_config = Ok p.
Proof.
  destruct (provider_made_iff_account_and_chain invalid_address_env
              sepolia_config) as (_ & Hrefused & _).
  destruct (provider_made_iff_account_and_chain stub_env sepolia_config)
    as ([_ Hmade] & _).
  split; [exact (Hrefused _ eq_refl) |].
  apply Hmade. split; [reflexivity |]. cbn. tauto.
Defined.

(** X9. The chain a provider reports and the chain it transacts on are
    the same: [eth_chainId] answers with the configured id, and every
    call [eth_sendTransaction] makes to the signer is a [sendTransaction]
    on a chain of that id, through a wallet client bound to that chain. *)
Theorem transactions_go_to_the_reported_chain (env : Env)
  (config : PrivyProviderConfig) (p : Provider) (params : jsval) (st : State) :
  createPrivyProvider env config = Ok p ->
  fst (request env p (js "eth_chainId") params st)
  = Ok (JStr (js "0x" ++ Z_to_radix 16 (chainId config))) /\
  exists calls,
    signer_calls (snd (request env p (js "eth_sendTransaction") params st))
    = signer_calls st ++ calls /\
    forall wc call,
      In (wc, call) calls ->
      chain_id (wc_chain wc) = chainId config /\
      exists to data value gas nonce chain,
        call = sendTransaction to data value gas nonce chain /\
        chain_id chain = chainId config.
Proof.
  intros Hp.
  destruct (createPrivyProvider_Ok_inv _ _ _ Hp) as (Hid & _ & _ & Hc & Hwc).
  apply resolveChain_id in Hc. split.
  { change (request env p (js "eth_chainId") params st)
      with (Ok (JStr (js "0x" ++ Z_to_radix 16 (prov_chainId p))), st).
    cbn [fst]. now rewrite Hid. }
  rewrite request_sendTransaction_run.
  assert (Hnone : forall e : exn,
             exists calls,
               signer_calls (snd (@Throw jsval e, st)) = signer_calls st ++ calls /\
               forall wc call,
                 In (wc, call) calls ->
                 chain_id (wc_chain wc) = chainId config /\
                 exists to data value gas nonce chain,
                   call = sendTransaction to data value gas nonce chain /\
                   chain_id chain = chainId config).
  { intros e. exists []. cbn [snd]. rewrite app_nil_r.
    split; [reflexivity | intros ? ? []]. }
  destruct (get_prop params (js "0")) as [tx | e]; [| apply Hnone].
  destruct (nullish tx); [apply Hnone |].
  destruct (when_present (field_of tx (js "value")) BigInt) as [value | e];
    [| apply Hnone].
  destruct (when_present (field_of tx (js "gas")) BigInt) as [gas | e];
    [| apply Hnone].
  destruct (when_present (field_of tx (js "nonce")) Number) as [nonce | e];
    [| apply Hnone].
  exists [(walletClient p, send_call p tx value gas nonce)].
  split; [reflexivity |].
  intros wc call [[= <- <-] | []]. split.
  - now rewrite Hwc.
  - unfold send_call. now repeat eexists.
Qed.

Lemma transactions_go_to_the_reported_chain_witness :
  fst (request stub_env sepolia_provider (js "eth_chainId")
         (JArr [JObj transfer_tx]) empty_state)
  = Ok (JStr (js "0x" ++ Z_to_radix 16 11155111)) /\
  exists calls,
    signer_calls
      (snd (request stub_env sepolia_provider (js "eth_sendTransaction")
              (JArr [JObj transfer_tx]) empty_state))
    = signer_calls empty_state ++ calls /\
    forall wc call,
      In (wc, call) calls ->
      chain_id (wc_chain wc) = 11155111 /\
      exists to data value gas nonce chain,
        call = sendTransaction to data value gas nonce chain /\
        chain_id chain = 11155111.
Proof.
  exact (transactions_go_to_the_reported_chain stub_env sepolia_config
           sepolia_provider (JArr [JObj transfer_tx]) empty_state eq_refl).
Defined.

(** X10. [eth_accounts] and [eth_requestAccounts] give the same answer,
    an array holding the configured wallet address and nothing else,
    whatever the parameters; they ask nobody and change nothing. *)
Theorem account_methods_answer_locally (env : Env)
  (config : PrivyProviderConfig) (p : Provider) (method : jsstring)
  (params : jsval) (st : State) :
  createPrivyProvider env config = Ok p ->
  method = js "eth_accounts" \/ method = js "eth_requestAccounts" ->
  request env p method params st
  = (Ok (JArr [JStr (walletAddress config)]), st).
Proof.
  intros Hp Hm.
  destruct (createPrivyProvider_Ok_inv _ _ _ Hp) as (_ & _ & Haddr & _).
  rewrite <- Haddr. destruct Hm as [-> | ->]; reflexivity.
Qed.

Lemma account_methods_answer_locally_witness :
  request stub_env sepolia_provider (js "eth_requestAccounts")
    (JArr [JStr (js "ignored")]) empty_state
  = (Ok (JArr [JStr (walletAddress sepolia_config)]), empty_state).
Proof.
  apply (account_methods_answer_locally stub_env sepolia_config sepolia_provider).
  - reflexivity.
  - right. reflexivity.
Defined.

(** X11. [personal_sign] makes one call to the signer, [signMessage] on
    the first parameter as it is (no check that it is a hex string;
    [undefined] when the array is empty), and its outcome is the signer's,
    result or rejection; with no parameters at all it throws a TypeError
    and calls nobody. *)
Theorem personal_sign_delegates (env : Env) (p : Provider) (st : State) :
  (forall message rest,
      let out := request env p (js "personal_sign") (JArr (message :: rest)) st in
      fst out = signer_reply env st (walletClient p) (signMessage message) /\
      only_logs st (snd out) [] [(walletClient p, signMessage message)]) /\
  (let out := request env p (js "personal_sign") (JArr []) st in
   fst out = signer_reply env st (walletClient p) (signMessage JUndefined) /\
   only_logs st (snd out) [] [(walletClient p, signMessage JUndefined)]) /\
  (forall params,
      nullish params = true ->
      request env p (js "personal_sign") params st = (Throw TypeError, st)).
Proof.
  split; [| split].
  - intros message rest. cbv zeta.
    rewrite request_personal_sign_run, get_first.
    split; [reflexivity | apply only_logs_call].
  - cbv zeta. rewrite request_personal_sign_run.
    change (get_prop (JArr []) (js "0")) with (Ok JUndefined).
    split; [reflexivity | apply only_logs_call].
  - intros params Hnull.
    now rewrite request_personal_sign_run, (get_prop_nullish _ _ Hnull).
Qed.

(** X12. Whatever the method and the parameters, [request] itself
    touches no file, generates no key, creates no wallet and reads no
    clock, and it makes at most one call of its own.  A handled method
    never calls [fetch], and calls the wallet client at most once, always
    the provider's own; any other method never calls the wallet client
    and calls [fetch] exactly once, with the request of [proxyToRpc].
    What the wallet client sends to the node or to the custody service
    while it serves its call is not this program's and is not counted:
    [posts] are the calls of [fetch] that [request] makes. *)
Theorem request_delegates_at_most_once (env : Env) (p : Provider)
  (method : jsstring) (params : jsval) (st : State) :
  exists posts calls,
    only_logs st (snd (request env p method params st)) posts calls /\
    (length posts + length calls <= 1)%nat /\
    (forall wc call, In (wc, call) calls -> wc = walletClient p) /\
    (In method handled_methods -> posts = []) /\
    (~ In method handled_methods ->
     posts = [rpc_request p method params] /\ calls = []).
Proof.
  assert (Hsame : forall (r : result jsval),
             In method handled_methods ->
             exists posts calls,
               only_logs st (snd (r, st)) posts calls /\
               (length posts + length calls <= 1)%nat /\
               (forall wc call, In (wc, call) calls -> wc = walletClient p) /\
               (In method handled_methods -> posts = []) /\
               (~ In method handled_methods ->
                posts = [rpc_request p method params] /\ calls = [])).
  { intros r Hin. exists [], []. cbn [snd length Nat.add].
    split; [apply only_logs_refl |]. split; [lia |].
    split; [intros ? ? [] |]. split; [reflexivity | intros Hout; now destruct Hout]. }
  assert (Hcall : forall c,
             In method handled_methods ->
             exists posts calls,
               only_logs st (snd (walletClient_call env (walletClient p) c st))
                 posts calls /\
               (length posts + length calls <= 1)%nat /\
               (forall wc call, In (wc, call) calls -> wc = walletClient p) /\
               (In method handled_methods -> posts = []) /\
               (~ In method handled_methods ->
                posts = [rpc_request p method params] /\ calls = [])).
  { intros c Hin. exists [], [(walletClient p, c)]. cbn [length Nat.add].
    split; [apply only_logs_call |]. split; [lia |].
    split; [now intros wc call [[= <- _] | []] |].
    split; [reflexivity | intros Hout; now destruct Hout]. }
  destruct (in_dec (Stdlib.Lists.List.list_eq_dec N.eq_dec) method handled_methods) as [Hin | Hout].
  - assert (Hcases : method = js "eth_accounts" \/ method = js "eth_requestAccounts"
                     \/ method = js "eth_chainId"
                     \/ method = js "eth_sendTransaction"
                     \/ method = js "personal_sign"
                     \/ method = js "eth_signTypedData_v4").
    { unfold handled_methods in Hin. cbn [In] in Hin.
      intuition (subst; auto). }
    destruct Hcases as [-> | [-> | [-> | [-> | [-> | ->]]]]].
    + exact (Hsame _ Hin).
    + exact (Hsame _ Hin).
    + exact (Hsame _ Hin).
    + rewrite request_sendTransaction_run.
      destruct (get_prop params (js "0")) as [tx | e]; [| exact (Hsame _ Hin)].
      destruct (nullish tx); [exact (Hsame _ Hin) |].
      destruct (when_present (field_of tx (js "value")) BigInt);
        [| exact (Hsame _ Hin)].
      destruct (when_present (field_of tx (js "gas")) BigInt);
        [| exact (Hsame _ Hin)].
      destruct (when_present (field_of tx (js "nonce")) Number);
        [| exact (Hsame _ Hin)].
      exact (Hcall _ Hin).
    + rewrite request_personal_sign_run.
      destruct (get_prop params (js "0")); [exact (Hcall _ Hin) | exact (Hsame _ Hin)].
    + rewrite request_signTypedData_run.
      assert (Hpayload : forall typedData,
                 exists posts calls,
                   only_logs st (snd (sign_typed_payload env p typedData st))
                     posts calls /\
                   (length posts + length calls <= 1)%nat /\
                   (forall wc call, In (wc, call) calls -> wc = walletClient p) /\
                   (In (js "eth_signTypedData_v4") handled_methods -> posts = []) /\
                   (~ In (js "eth_signTypedData_v4") handled_methods ->
                    posts = [rpc_request p (js "eth_signTypedData_v4") params]
                    /\ calls = [])).
      { intros typedData. rewrite sign_typed_payload_run.
        destruct (get_prop typedData (js "types")) as [types | e];
          [| exact (Hsame _ Hin)].
        destruct (own_props types); [exact (Hcall _ Hin) | exact (Hsame _ Hin)]. }
      destruct (get_prop params (js "1")) as [raw | e]; [| exact (Hsame _ Hin)].
      destruct raw; try apply Hpayload.
      destruct (JSON_parse s); [apply Hpayload | exact (Hsame _ Hin)].
  - rewrite (request_unhandled env p method params Hout), proxyToRpc_state.
    exists [rpc_request p method params], []. cbn [length Nat.add].
    split; [apply only_logs_fetch |]. split; [lia |].
    split; [intros ? ? [] |].
    split; [intros Hin; now destruct Hout | intros _; split; reflexivity].
Qed.

(** X13. In [eth_sendTransaction], a [value] that [BigInt] rejects, or a
    [gas] that it rejects after [value] was accepted, makes the request
    throw that error before the signer is asked: nothing is called and
    nothing changes. *)
Theorem bad_amount_stops_before_the_signer (env : Env) (p : Provider)
  (tx : jsval) (rest : list jsval) (st : State) (e : exn) :
  nullish tx = false ->
  when_present (field_of tx (js "value")) BigInt = Throw e \/
  ((exists value, when_present (field_of tx (js "value")) BigInt = Ok value) /\
   when_present (field_of tx (js "gas")) BigInt = Throw e) ->
  request env p (js "eth_sendTransaction") (JArr (tx :: rest)) st
  = (Throw e, st).
Proof.
  intros Htx Hbad. rewrite request_sendTransaction_run, get_first, Htx.
  destruct Hbad as [-> | [[value ->] ->]]; reflexivity.
Qed.

Lemma bad_amount_stops_before_the_signer_witness :
  request stub_env sepolia_provider (js "eth_sendTransaction")
    (JArr [JObj [(js "to", JStr (js "0x00000000000000000000000000000000000000bb"));
                 (js "value", JStr (js "1.5"))]]) empty_state
  = (Throw SyntaxError, empty_state) /\
  request stub_env sepolia_provider (js "eth_sendTransaction")
    (JArr [JObj [(js "value", JStr (js "10"));
                 (js "gas", JNum (Fin 3 (-1)))]]) empty_state
  = (Throw RangeError, empty_state).
Proof.
  split.
  - apply bad_amount_stops_before_the_signer; [reflexivity |].
    left. vm_compute. reflexivity.
  - apply bad_amount_stops_before_the_signer; [reflexivity |].
    right. split; [exists (Some 10) |]; vm_compute; reflexivity.
Defined.

(** X14. Once [value] and [gas] are converted, [to] and [data] are
    handed over as found ([undefined] when missing) and [nonce] goes
    through [Number].  A nonce that is a string or a number is never
    refused: the signer is called once, with the number the string reads
    as, NaN for a string that is not numeric, and the outcome is the
    signer's.  A nonce that [Number] cannot convert (an object whose own
    [toString] is not a function) makes the request throw that TypeError
    before the signer is asked. *)
Theorem recipient_data_and_nonce_are_not_checked (env : Env) (p : Provider)
  (tx : jsval) (rest : list jsval) (st : State) (value gas : option Z) :
  nullish tx = false ->
  when_present (field_of tx (js "value")) BigInt = Ok value ->
  when_present (field_of tx (js "gas")) BigInt = Ok gas ->
  let out := request env p (js "eth_sendTransaction") (JArr (tx :: rest)) st in
  match when_present (field_of tx (js "nonce")) Number with
  | Ok nonce =>
      let call :=
        sendTransaction (field_of tx (js "to")) (field_of tx (js "data"))
          value gas nonce (prov_chain p) in
      fst out = signer_reply env st (walletClient p) call /\
      only_logs st (snd out) [] [(walletClient p, call)]
  | Throw e => out = (Throw e, st)
  end /\
  (forall s, field_of tx (js "nonce") = JStr s ->
             when_present (field_of tx (js "nonce")) Number
             = Ok (Some (StringToNumber s))) /\
  (forall x, field_of tx (js "nonce") = JNum x ->
             when_present (field_of tx (js "nonce")) Number = Ok (Some x)).
Proof.
  intros Htx Hvalue Hgas. cbv zeta.
  rewrite request_sendTransaction_run, get_first, Htx, Hvalue, Hgas.
  split; [| split].
  - destruct (when_present (field_of tx (js "nonce")) Number) as [nonce | e];
      [| reflexivity].
    split; [reflexivity | apply only_logs_call].
  - now intros s ->.
  - now intros x ->.
Qed.

Lemma recipient_data_and_nonce_are_not_checked_witness :
  let call :=
    sendTransaction JUndefined JUndefined None None (Some NaN) sepolia in
  let out := request refusing_signer_env sepolia_provider (js "eth_sendTransaction")
               (JArr [JObj [(js "nonce", JStr (js "next"))]]) empty_state in
  (fst out = Throw (Rejected (js "policy violation")) /\
   only_logs empty_state (snd out) [] [(walletClient sepolia_provider, call)]) /\
  request refusing_signer_env sepolia_provider (js "eth_sendTransaction")
    (JArr [JObj [(js "nonce", JObj [(js "toString", JNum (Fin 0 0))])]])
    empty_state
  = (Throw TypeError, empty_state).
Proof.
  split.
  - exact (proj1 (recipient_data_and_nonce_are_not_checked refusing_signer_env
                    sepolia_provider (JObj [(js "nonce", JStr (js "next"))]) []
                    empty_state None None eq_refl eq_refl eq_refl)).
  - exact (proj1 (recipient_data_and_nonce_are_not_checked refusing_signer_env
                    sepolia_provider
                    (JObj [(js "nonce", JObj [(js "toString", JNum (Fin 0 0))])])
                    [] empty_state None None eq_refl eq_refl eq_refl)).
Defined.

(** X15. The three signing methods called without parameters ([params]
    missing or [null]) throw a TypeError; so do [eth_sendTransaction] and
    [eth_signTypedData_v4] on an empty parameter array.  Nothing is
    called and nothing changes. *)
Theorem signing_without_parameters_is_a_type_error (env : Env) (p : Provider)
  (method : jsstring) (params : jsval) (st : State) :
  In method [js "eth_sendTransaction"; js "personal_sign";
             js "eth_signTypedData_v4"] ->
  nullish params = true \/ (params = JArr [] /\ method <> js "personal_sign") ->
  request env p method params st = (Throw TypeError, st).
Proof.
  intros [<- | [<- | [<- | []]]] [Hnull | [-> Hm]].
  - now rewrite request_sendTransaction_run, (get_prop_nullish _ _ Hnull).
  - reflexivity.
  - now rewrite request_personal_sign_run, (get_prop_nullish _ _ Hnull).
  - now destruct Hm.
  - now rewrite request_signTypedData_run, (get_prop_nullish _ _ Hnull).
  - reflexivity.
Qed.

Lemma signing_without_parameters_is_a_type_error_witness :
  request stub_env sepolia_provider (js "eth_sendTransaction") (JArr []) empty_state
  = (Throw TypeError, empty_state) /\
  request stub_env sepolia_provider (js "eth_signTypedData_v4") JUndefined
    empty_state
  = (Throw TypeError, empty_state).
Proof.
  split; apply signing_without_parameters_is_a_type_error.
  - left. reflexivity.
  - right. split; [reflexivity | discriminate].
  - right. right. left. reflexivity.
  - left. reflexivity.
Defined.

(** X16. [eth_signTypedData_v4] given a string that is not JSON throws
    the parser's SyntaxError; the signer is not asked and nothing
    changes. *)
Theorem typed_data_text_must_be_json (env : Env) (p : Provider)
  (account : jsval) (text : jsstring) (rest : list jsval) (st : State) :
  JSON_parse text = None ->
  request env p (js "eth_signTypedData_v4") (JArr (account :: JStr text :: rest)) st
  = (Throw SyntaxError, st).
Proof.
  intros Hparse. now rewrite request_signTypedData_run, get_second, Hparse.
Qed.

Lemma typed_data_text_must_be_json_witness :
  request stub_env sepolia_provider (js "eth_signTypedData_v4")
    (JArr [JStr (js "0xaa"); JStr (js "{domain: {}}")]) empty_state
  = (Throw SyntaxError, empty_state).
Proof.
  apply typed_data_text_must_be_json. vm_compute. reflexivity.
Defined.

(** X17. [eth_signTypedData_v4] on a payload (given as a value or as its
    JSON text) that is [null] or has no [types], or whose [types] is
    [null], throws a TypeError; the signer is not asked and nothing
    changes. *)
Theorem typed_data_needs_types (env : Env) (p : Provider)
  (account raw payload : jsval) (st : State) :
  carries raw payload ->
  nullish (field_of payload (js "types")) = true ->
  request env p (js "eth_signTypedData_v4") (JArr [account; raw]) st
  = (Throw TypeError, st).
Proof.
  intros Hc Htypes.
  rewrite (request_carried_payload env p account raw payload st Hc).
  rewrite sign_typed_payload_run.
  destruct (nullish payload) eqn:Hp.
  - now rewrite (get_prop_nullish _ _ Hp).
  - rewrite (get_prop_field _ _ Hp).
    destruct (field_of payload (js "types")); try discriminate Htypes;
      reflexivity.
Qed.

Lemma typed_data_needs_types_witness :
  request stub_env sepolia_provider (js "eth_signTypedData_v4")
    (JArr [JStr (js "0xaa"); JStr (jsq "{'primaryType':'Mail','message':{}}")])
    empty_state
  = (Throw TypeError, empty_state) /\
  request stub_env sepolia_provider (js "eth_signTypedData_v4")
    (JArr [JStr (js "0xaa"); JStr (js "null")]) empty_state
  = (Throw TypeError, empty_state).
Proof.
  split.
  - apply (typed_data_needs_types stub_env sepolia_provider _ _
             (JObj [(js "primaryType", JStr (js "Mail")); (js "message", JObj [])])).
    + right. eexists. split; [reflexivity |]. vm_compute. reflexivity.
    + reflexivity.
  - apply (typed_data_needs_types stub_env sepolia_provider _ _ JNull).
    + right. eexists. split; [reflexivity |]. vm_compute. reflexivity.
    + reflexivity.
Defined.

(** X18. When a typed-data payload has both [primaryType] and
    [primary_type], the signer gets [primaryType] as long as it is not
    [null] or [undefined]; [primary_type] is then not looked at. *)
Theorem primaryType_wins_over_primary_type (env : Env) (p : Provider)
  (account raw payload : jsval) (all_types : list (jsstring * jsval))
  (st : State) :
  carries raw payload ->
  own_props (field_of payload (js "types")) = Ok all_types ->
  nullish (field_of payload (js "primaryType")) = false ->
  let call :=
    signTypedData (field_of payload (js "domain"))
      (List.filter (fun kv => negb (jsstring_eqb (fst kv) (js "EIP712Domain")))
                   all_types)
      (field_of payload (js "primaryType"))
      (field_of payload (js "message")) in
  let out := request env p (js "eth_signTypedData_v4") (JArr [account; raw]) st in
  fst out = signer_reply env st (walletClient p) call /\
  only_logs st (snd out) [] [(walletClient p, call)].
Proof.
  intros Hc Htypes Hprimary. cbv zeta.
  rewrite (request_carried_payload env p account raw payload st Hc).
  rewrite sign_typed_payload_run.
  destruct (nullish payload) eqn:Hp.
  { destruct payload; discriminate. }
  rewrite (get_prop_field _ _ Hp), Htypes.
  unfold typed_call, coalesce. rewrite Hprimary.
  split; [reflexivity | apply only_logs_call].
Qed.

Lemma primaryType_wins_over_primary_type_witness :
  let payload :=
    JObj [(js "types", mail_types);
          (js "primary_type", JStr (js "Envelope"));
          (js "primaryType", JStr (js "Mail"));
          (js "message", JObj [(js "contents", JStr (js "Hello"))])] in
  let call :=
    signTypedData JUndefined
      [(js "Mail",
        JArr [JObj [(js "name", JStr (js "contents"));
                    (js "type", JStr (js "string"))]])]
      (JStr (js "Mail"))
      (JObj [(js "contents", JStr (js "Hello"))]) in
  let out := request stub_env sepolia_provider (js "eth_signTypedData_v4")
               (JArr [JStr (js "0xaa"); payload]) empty_state in
  fst out = signer_reply stub_env empty_state (walletClient sepolia_provider) call /\
  only_logs empty_state (snd out) [] [(walletClient sepolia_provider, call)].
Proof.
  cbv zeta.
  exact (primaryType_wins_over_primary_type stub_env sepolia_provider
           (JStr (js "0xaa"))
           (JObj [(js "types", mail_types);
                  (js "primary_type", JStr (js "Envelope"));
                  (js "primaryType", JStr (js "Mail"));
                  (js "message", JObj [(js "contents", JStr (js "Hello"))])])
           (JObj [(js "types", mail_types);
                  (js "primary_type", JStr (js "Envelope"));
                  (js "primaryType", JStr (js "Mail"));
                  (js "message", JObj [(js "contents", JStr (js "Hello"))])])
           [(js "EIP712Domain",
             JArr [JObj [(js "name", JStr (js "name"));
                         (js "type", JStr (js "string"))]]);
            (js "Mail",
             JArr [JObj [(js "name", JStr (js "contents"));
                         (js "type", JStr (js "string"))]])]
           empty_state
           (or_introl (conj eq_refl (fun s H => eq_ind (JObj _) (fun v => match v with JObj _ => True | _ => False end) I (JStr s) H)))
           eq_refl eq_refl).
Defined.

(** X19. For a method that is proxied, the one request is sent whatever
    comes back, and nothing else is touched.  A transport failure is
    passed on as it is; a response body that is not JSON throws the
    parser's SyntaxError; a body that is the JSON [null] throws a
    TypeError. *)
Theorem proxy_failure_modes (env : Env) (p : Provider) (method : jsstring)
  (params : jsval) (st : State) :
  ~ In method handled_methods ->
  let req := rpc_request p method params in
  let out := request env p method params st in
  only_logs st (snd out) [req] [] /\
  (forall e, fetch_reply env st req = Throw e -> fst out = Throw e) /\
  (forall text,
      fetch_reply env st req = Ok text -> JSON_parse text = None ->
      fst out = Throw SyntaxError) /\
  (forall text,
      fetch_reply env st req = Ok text -> JSON_parse text = Some JNull ->
      fst out = Throw TypeError).
Proof.
  intros Hout. cbv zeta.
  rewrite (request_unhandled env p method params Hout).
  split; [rewrite proxyToRpc_state; apply only_logs_fetch |].
  destruct (proxyToRpc_run env p method params st) as (_ & _ & _ & _ & Hres).
  rewrite Hres.
  split; [| split].
  - now intros e ->.
  - now intros text -> ->.
  - now intros text -> ->.
Qed.

Lemma proxy_failure_modes_witness :
  fst (request unreachable_node_env sepolia_provider (js "unknown_method")
         (JArr []) empty_state)
  = Throw (Rejected (js "fetch failed")) /\
  fst (request html_node_env sepolia_provider (js "unknown_method")
         (JArr []) empty_state)
  = Throw SyntaxError /\
  fst (request null_body_env sepolia_provider (js "unknown_method")
         (JArr []) empty_state)
  = Throw TypeError.
Proof.
  destruct (proxy_failure_modes unreachable_node_env sepolia_provider
              (js "unknown_method") (JArr []) empty_state
              unknown_method_unhandled) as (_ & H1 & _).
  destruct (proxy_failure_modes html_node_env sepolia_provider
              (js "unknown_method") (JArr []) empty_state
              unknown_method_unhandled) as (_ & _ & H2 & _).
  destruct (proxy_failure_modes null_body_env sepolia_provider
              (js "unknown_method") (JArr []) empty_state
              unknown_method_unhandled) as (_ & _ & _ & H3).
  split; [exact (H1 _ eq_refl) |].
  split; [apply (H2 _ eq_refl) | apply (H3 _ eq_refl)]; vm_compute; reflexivity.
Defined.

Lemma quote_body_plain (s : jsstring) : plain s -> quote_body s = s.
Proof.
  unfold plain. induction s as [| c r IH]; [reflexivity |].
  cbn [forallb]. rewrite andb_true_iff. intros [Hc Hr].
  unfold plain_unit in Hc. rewrite !andb_true_iff, !negb_true_iff in Hc.
  destruct Hc as [[[H32 H34] H92] Hs].
  assert (Hhigh : is_high_surrogate c = false).
  { unfold is_surrogate in Hs. unfold is_high_surrogate.
    apply andb_false_iff in Hs. apply andb_false_iff.
    destruct Hs as [Hs | Hs]; [now left | right].
    apply N.leb_gt in Hs. apply N.leb_gt. lia. }
  assert (Hlow : is_low_surrogate c = false).
  { unfold is_surrogate in Hs. unfold is_low_surrogate.
    apply andb_false_iff in Hs. apply andb_false_iff.
    destruct Hs as [Hs | Hs]; [left | now right].
    apply N.leb_gt in Hs. apply N.leb_gt. lia. }
  assert (Hesc : escape_unit c = [c]).
  { unfold escape_unit. apply N.leb_le in H32.
    apply N.eqb_neq in H34. apply N.eqb_neq in H92.
    repeat match goal with
           | |- context [(c =? ?k)%N] =>
               replace (c =? k)%N with false by (symmetry; apply N.eqb_neq; lia)
           end.
    replace (c <? 32)%N with false by (symmetry; apply N.ltb_ge; lia).
    reflexivity. }
  change (quote_body (c :: r))
    with (if is_high_surrogate c then
            match r with
            | d :: r' =>
                if is_low_surrogate d then c :: d :: quote_body r'
                else UnicodeEscape c ++ quote_body r
            | [] => UnicodeEscape c
            end
          else if is_low_surrogate c then UnicodeEscape c ++ quote_body r
          else escape_unit c ++ quote_body r).
  rewrite Hhigh, Hlow, Hesc, (IH Hr). reflexivity.
Qed.

Lemma wallet_text_plain (w : PersistedWallet) :
  plain (walletId w) -> plain (address w) -> plain (authPrivateKey w) ->
  plain (authPublicKey w) -> plain (createdAt w) ->
  wallet_text w
  = join [10%N]
      [js "{";
       jsq "  'walletId': '" ++ walletId w ++ jsq "',";
       jsq "  'address': '" ++ address w ++ jsq "',";
       jsq "  'authPrivateKey': '" ++ authPrivateKey w ++ jsq "',";
       jsq "  'authPublicKey': '" ++ authPublicKey w ++ jsq "',";
       jsq "  'createdAt': '" ++ createdAt w ++ jsq "'";
       js "}";
       []].
Proof.
  intros H1 H2 H3 H4 H5.
  rewrite wallet_text_eq. unfold wallet_members, member_text, QuoteJSONString.
  cbn [map fst snd join].
  rewrite (quote_body_plain _ H1), (quote_body_plain _ H2),
    (quote_body_plain _ H3), (quote_body_plain _ H4), (quote_body_plain _ H5).
  change (quote_body (js "walletId")) with (js "walletId").
  change (quote_body (js "address")) with (js "address").
  change (quote_body (js "authPrivateKey")) with (js "authPrivateKey").
  change (quote_body (js "authPublicKey")) with (js "authPublicKey").
  change (quote_body (js "createdAt")) with (js "createdAt").
  change (js "{") with [123%N]. change (js "}") with [125%N].
  change (jsq "',") with [34%N; 44%N]. change (jsq "'") with [34%N].
  change (jsq "  'walletId': '")
    with ([32; 32; 34]%N ++ js "walletId" ++ [34; 58; 32; 34]%N).
  change (jsq "  'address': '")
    with ([32; 32; 34]%N ++ js "address" ++ [34; 58; 32; 34]%N).
  change (jsq "  'authPrivateKey': '")
    with ([32; 32; 34]%N ++ js "authPrivateKey" ++ [34; 58; 32; 34]%N).
  change (jsq "  'authPublicKey': '")
    with ([32; 32; 34]%N ++ js "authPublicKey" ++ [34; 58; 32; 34]%N).
  change (jsq "  'createdAt': '")
    with ([32; 32; 34]%N ++ js "createdAt" ++ [34; 58; 32; 34]%N).
  generalize (js "walletId") (js "address") (js "authPrivateKey")
    (js "authPublicKey") (js "createdAt").
  intros k1 k2 k3 k4 k5.
  repeat (progress (cbn [app]; rewrite <- ?app_assoc)).
  reflexivity.
Qed.

(** X20. The file [saveWallet] writes for a record as [createWallet]
    makes it: the five members in the order [walletId], [address],
    [authPrivateKey], [authPublicKey], [createdAt], one per line behind
    two spaces, between a line [{] and a line [}], with a newline at the
    end.  Values without control characters, quotes, backslashes and
    surrogates stand in it as they are: the authorization private key is
    stored in clear.  This is the text handed to the write, and what the
    file holds once [saveWallet] has returned. *)
Theorem saved_file_layout (env : Env) (w : PersistedWallet)
  (filePath : option jsstring) (st : State) :
  plain (walletId w) -> plain (address w) -> plain (authPrivateKey w) ->
  plain (authPublicKey w) -> plain (createdAt w) ->
  let layout :=
    join [10%N]
      [js "{";
       jsq "  'walletId': '" ++ walletId w ++ jsq "',";
       jsq "  'address': '" ++ address w ++ jsq "',";
       jsq "  'authPrivateKey': '" ++ authPrivateKey w ++ jsq "',";
       jsq "  'authPublicKey': '" ++ authPublicKey w ++ jsq "',";
       jsq "  'createdAt': '" ++ createdAt w ++ jsq "'";
       js "}";
       []] in
  saveWallet env w filePath st
  = writeFileSync env (wallet_path env filePath) layout st /\
  (fst (saveWallet env w filePath st) = Ok tt ->
   files (snd (saveWallet env w filePath st)) !! wallet_path env filePath
   = Some layout).
Proof.
  intros H1 H2 H3 H4 H5 layout. subst layout.
  rewrite <- (wallet_text_plain w H1 H2 H3 H4 H5).
  split; [reflexivity |].
  intros Hsaved. rewrite (saveWallet_written env w filePath st Hsaved).
  cbn [snd set_file files]. apply lookup_insert_eq.
Qed.

Lemma saved_file_layout_witness :
  files (snd (saveWallet stub_env stub_wallet None empty_state))
    !! wallet_path stub_env None
  = Some (join [10%N]
            [js "{";
             jsq "  'walletId': '" ++ walletId stub_wallet ++ jsq "',";
             jsq "  'address': '" ++ address stub_wallet ++ jsq "',";
             jsq "  'authPrivateKey': '" ++ authPrivateKey stub_wallet ++ jsq "',";
             jsq "  'authPublicKey': '" ++ authPublicKey stub_wallet ++ jsq "',";
             jsq "  'createdAt': '" ++ createdAt stub_wallet ++ jsq "'";
             js "}";
             []]).
Proof.
  refine (proj2 (saved_file_layout stub_env stub_wallet None empty_state
                   _ _ _ _ _) eq_refl); vm_compute; reflexivity.
Defined.

(** X21. [eth_sendTransaction] reads [to], [data], [value], [gas] and
    [nonce] of the first parameter and nothing else: two transaction
    objects that agree on these five give the same call of the signer,
    the same outcome and the same state, whatever else they hold
    ([from], [gasPrice], [chainId], ...) and whatever parameters
    follow. *)
Theorem sendTransaction_reads_five_fields (env : Env) (p : Provider)
  (tx tx' : jsval) (rest rest' : list jsval) (st : State) :
  nullish tx = false -> nullish tx' = false ->
  (forall k, In k [js "to"; js "data"; js "value"; js "gas"; js "nonce"] ->
             field_of tx k = field_of tx' k) ->
  request env p (js "eth_sendTransaction") (JArr (tx :: rest)) st
  = request env p (js "eth_sendTransaction") (JArr (tx' :: rest')) st.
Proof.
  intros Htx Htx' Hsame.
  rewrite !request_sendTransaction_run, !get_first, Htx, Htx'.
  unfold send_call.
  rewrite (Hsame (js "to")), (Hsame (js "data")), (Hsame (js "value")),
    (Hsame (js "gas")), (Hsame (js "nonce")) by (cbn [In]; tauto).
  reflexivity.
Qed.

Lemma sendTransaction_reads_five_fields_witness :
  request stub_env sepolia_provider (js "eth_sendTransaction")
    (JArr [JObj ((js "from", JStr (js "0x00000000000000000000000000000000000000ee"))
                 :: (js "gasPrice", JStr (js "0x3b9aca00"))
                 :: transfer_tx)]) empty_state
  = request stub_env sepolia_provider (js "eth_sendTransaction")
      (JArr [JObj transfer_tx; JStr (js "latest")]) empty_state.
Proof.
  apply sendTransaction_reads_five_fields; [reflexivity | reflexivity |].
  intros k [<- | [<- | [<- | [<- | [<- | []]]]]]; reflexivity.
Defined.

(** X22. [eth_signTypedData_v4] reads [types], [domain], [primaryType],
    [primary_type] and [message] of the payload and nothing else, and
    does not look at the account named in the first parameter: two
    requests whose payloads agree on these five members give the same
    call of the signer, the same outcome and the same state. *)
Theorem typed_data_ignores_the_account (env : Env) (p : Provider)
  (account account' raw raw' payload payload' : jsval) (st : State) :
  carries raw payload -> carries raw' payload' ->
  nullish payload = false -> nullish payload' = false ->
  (forall k, In k [js "types"; js "domain"; js "primaryType";
                   js "primary_type"; js "message"] ->
             field_of payload k = field_of payload' k) ->
  request env p (js "eth_signTypedData_v4") (JArr [account; raw]) st
  = request env p (js "eth_signTypedData_v4") (JArr [account'; raw']) st.
Proof.
  intros Hc Hc' Hp Hp' Hsame.
  rewrite (request_carried_payload env p account raw payload st Hc).
  rewrite (request_carried_payload env p account' raw' payload' st Hc').
  rewrite !sign_typed_payload_run.
  rewrite (get_prop_field _ _ Hp), (get_prop_field _ _ Hp').
  unfold typed_call.
  rewrite (Hsame (js "types")), (Hsame (js "domain")),
    (Hsame (js "primaryType")), (Hsame (js "primary_type")),
    (Hsame (js "message")) by (cbn [In]; tauto).
  reflexivity.
Qed.

Lemma typed_data_ignores_the_account_witness :
  request stub_env sepolia_provider (js "eth_signTypedData_v4")
    (JArr [JStr (js "0x00000000000000000000000000000000000000aa");
           mail_payload (js "primary_type")]) empty_state
  = request stub_env sepolia_provider (js "eth_signTypedData_v4")
      (JArr [JNull; JStr mail_text]) empty_state.
Proof.
  apply (typed_data_ignores_the_account stub_env sepolia_provider _ _ _ _
           (mail_payload (js "primary_type")) (mail_payload (js "primary_type"))).
  - left. split; [reflexivity | discriminate].
  - right. exists mail_text. split; [reflexivity |]. vm_compute. reflexivity.
  - reflexivity.
  - reflexivity.
  - intros k [<- | [<- | [<- | [<- | [<- | []]]]]]; vm_compute; reflexivity.
Defined.

(** ** The request body reads back *)

Local Open Scope N_scope.

Lemma parse_value_compact_string (f : nat) (v rest : jsstring) :
  valid_string v ->
  parse_value (S f) (QuoteJSONString v ++ rest) = Some (JStr v, rest).
Proof.
  intros Hv. rewrite parse_value_S. unfold QuoteJSONString. cbn [app].
  rewrite skip_ws_stop by reflexivity.
  change (34 =? 34) with true. cbv iota.
  rewrite <- app_assoc. cbn [app]. now rewrite parse_quote_body.
Qed.

Lemma parse_object_open (f : nat) (k t : jsstring) :
  parse_value (S f) (123 :: QuoteJSONString k ++ t)
  = parse_members f [] (QuoteJSONString k ++ t).
Proof.
  rewrite parse_value_S. rewrite skip_ws_stop by reflexivity.
  change (123 =? 34) with false. change (123 =? 123) with true. cbv iota.
  unfold QuoteJSONString. cbn [app].
  rewrite skip_ws_stop by reflexivity.
  change (34 =? 125) with false. reflexivity.
Qed.

Lemma parse_member_compact (f : nat) (acc : list (jsstring * jsval))
  (k vtext : jsstring) (v : jsval) (rest : jsstring) :
  valid_string k ->
  parse_value f vtext = Some (v, rest) ->
  parse_members (S f) acc (QuoteJSONString k ++ 58 :: vtext) =
  match skip_ws rest with
  | d :: r4 =>
      if d =? 44 then parse_members f (define_prop k v acc) r4
      else if d =? 125 then Some (JObj (define_prop k v acc), r4)
      else None
  | [] => None
  end.
Proof.
  intros Hk Hv. rewrite parse_members_S.
  unfold QuoteJSONString. cbn [app].
  rewrite skip_ws_stop by reflexivity.
  change (34 =? 34) with true. cbv iota.
  rewrite <- app_assoc. cbn [app].
  rewrite parse_quote_body by assumption.
  rewrite skip_ws_stop by reflexivity.
  change (58 =? 58) with true. cbv iota.
  now rewrite Hv.
Qed.

Lemma parse_elements_strings (args : list jsstring) :
  forall (f : nat) (acc : list jsval) (rest : jsstring),
    args <> [] -> Forall valid_string args -> (length args <= f)%nat ->
    parse_elements (S f) acc
      (join [44] (map QuoteJSONString args) ++ 93 :: rest)
    = Some (JArr (acc ++ map JStr args), rest).
Proof.
  induction args as [| a more IH]; intros f acc rest Hne Hall Hlen;
    [contradiction |].
  apply Forall_cons in Hall as [Ha Hmore].
  destruct f as [| f]; [cbn in Hlen; lia |].
  rewrite parse_elements_S.
  destruct more as [| b more].
  - cbn [map join].
    rewrite parse_value_compact_string by assumption.
    rewrite skip_ws_stop by reflexivity.
    change (93 =? 44) with false. change (93 =? 93) with true. reflexivity.
  - change (join [44] (map QuoteJSONString (a :: b :: more)))
      with (QuoteJSONString a ++ [44]
            ++ join [44] (map QuoteJSONString (b :: more))).
    rewrite <- !app_assoc. cbn [app].
    rewrite parse_value_compact_string by assumption.
    rewrite skip_ws_stop by reflexivity.
    change (44 =? 44) with true. cbv iota.
    cbn [length] in Hlen.
    rewrite IH; [| discriminate | assumption | cbn [length]; lia].
    now rewrite <- app_assoc.
Qed.

Lemma serialize_string_array (args : list jsstring) :
  SerializeJSONProperty [] [] (JArr (map JStr args))
  = Some (match args with
          | [] => js "[]"
          | _ => 91 :: join [44] (map QuoteJSONString args) ++ [93]
          end).
Proof.
  cbn [SerializeJSONProperty]. rewrite map_map. cbn [SerializeJSONProperty].
  change (map (fun x => default (js "null") (Some (QuoteJSONString x))) args)
    with (map QuoteJSONString args).
  destruct args; reflexivity.
Qed.

Lemma parse_value_string_array (f : nat) (args : list jsstring)
  (rest : jsstring) :
  Forall valid_string args -> (length args <= f)%nat ->
  parse_value (S (S f))
    (match args with
     | [] => js "[]"
     | _ => 91 :: join [44] (map QuoteJSONString args) ++ [93]
     end ++ rest)
  = Some (JArr (map JStr args), rest).
Proof.
  intros Hall Hlen. destruct args as [| a more]; [reflexivity |].
  rewrite parse_value_S. cbn [app].
  rewrite skip_ws_stop by reflexivity.
  change (91 =? 34) with false. change (91 =? 123) with false.
  change (91 =? 91) with true. cbv iota.
  assert (Hhead : exists t,
             join [44] (map QuoteJSONString (a :: more)) ++ [93] ++ rest
             = 34 :: t).
  { destruct more; eexists; reflexivity. }
  destruct Hhead as [t Ht].
  rewrite <- app_assoc. rewrite Ht.
  rewrite skip_ws_stop by reflexivity.
  change (34 =? 93) with false. cbv iota. rewrite <- Ht. cbn [app].
  now rewrite parse_elements_strings.
Qed.

(** X23. The body sent for a proxied method, with no parameters or with
    string parameters, is JSON that reads back as the payload: an object
    with [jsonrpc] ["2.0"], [id] 1, the method name and the parameters
    ([[]] when there are none), whatever characters the name and the
    parameters hold.  Quotes, backslashes and control characters in them
    cannot change the structure of the request. *)
Theorem proxied_body_reads_back (env : Env) (p : Provider)
  (method : jsstring) (params : jsval) (args : list jsstring) (st : State) :
  ~ In method handled_methods ->
  valid_string method -> Forall valid_string args ->
  coalesce params (JArr []) = JArr (map JStr args) ->
  exists req,
    http_posts (snd (request env p method params st)) = http_posts st ++ [req] /\
    JSON_parse (http_body req)
    = Some (JObj [(js "jsonrpc", JStr (js "2.0"));
                  (js "id", JNum (Fin 1 0));
                  (js "method", JStr method);
                  (js "params", JArr (map JStr args))]).
Proof.
  intros Hout Hm Hargs Hparams.
  exists (rpc_request p method params). split.
  { rewrite (request_unhandled env p method params Hout).
    now destruct (proxyToRpc_run env p method params st) as (-> & _). }
  unfold rpc_request. cbn [http_body].
  rewrite (rpc_body_eq method params _
             (eq_trans (f_equal (SerializeJSONProperty [] []) Hparams)
                       (serialize_string_array args))).
  set (params_text := match args with
                      | [] => js "[]"
                      | _ => 91 :: join [44] (map QuoteJSONString args) ++ [93]
                      end).
  apply JSON_parse_complete.
  exists (S (S (S (S (S (S (S (length args)))))))), [].
  split; [| reflexivity].
  change (jsq "{'jsonrpc':'2.0','id':1,'method':" ++ QuoteJSONString method
          ++ jsq ",'params':" ++ params_text ++ js "}")
    with (123 :: QuoteJSONString (js "jsonrpc") ++ 58 ::
          QuoteJSONString (js "2.0") ++ 44 ::
          QuoteJSONString (js "id") ++ 58 :: 49 :: 44 ::
          QuoteJSONString (js "method") ++ 58 ::
          QuoteJSONString method ++ 44 ::
          QuoteJSONString (js "params") ++ 58 :: params_text ++ [125]).
  rewrite parse_object_open.
  rewrite (parse_member_compact _ _ _ _ (JStr (js "2.0"))
             (44 :: QuoteJSONString (js "id") ++ 58 :: 49 :: 44 ::
              QuoteJSONString (js "method") ++ 58 ::
              QuoteJSONString method ++ 44 ::
              QuoteJSONString (js "params") ++ 58 :: params_text ++ [125]));
    [| repeat constructor; reflexivity
     | apply parse_value_compact_string; repeat constructor; reflexivity].
  rewrite skip_ws_stop by reflexivity.
  change (44 =? 44) with true. cbv iota.
  rewrite (parse_member_compact _ _ _ _ (JNum (Fin 1 0))
             (44 :: QuoteJSONString (js "method") ++ 58 ::
              QuoteJSONString method ++ 44 ::
              QuoteJSONString (js "params") ++ 58 :: params_text ++ [125]));
    [| repeat constructor; reflexivity | reflexivity].
  rewrite skip_ws_stop by reflexivity.
  change (44 =? 44) with true. cbv iota.
  rewrite (parse_member_compact _ _ _ _ (JStr method)
             (44 :: QuoteJSONString (js "params") ++ 58 :: params_text ++ [125]));
    [| repeat constructor; reflexivity
     | now apply parse_value_compact_string].
  rewrite skip_ws_stop by reflexivity.
  change (44 =? 44) with true. cbv iota.
  rewrite (parse_member_compact _ _ _ _ (JArr (map JStr args)) [125]);
    [| repeat constructor; reflexivity
     | now apply parse_value_string_array].
  reflexivity.
Qed.

Lemma proxied_body_reads_back_witness :
  exists req,
    http_posts
      (snd (request stub_env sepolia_provider
              (jsq "eth_call','params':['injected'],'x':'")
              (JArr [JStr (js "0xaa"); JStr (js "latest")]) empty_state))
    = http_posts empty_state ++ [req] /\
    JSON_parse (http_body req)
    = Some (JObj [(js "jsonrpc", JStr (js "2.0"));
                  (js "id", JNum (Fin 1 0));
                  (js "method", JStr (jsq "eth_call','params':['injected'],'x':'"));
                  (js "params", JArr (map JStr [js "0xaa"; js "latest"]))]).
Proof.
  apply (proxied_body_reads_back stub_env sepolia_provider
           (jsq "eth_call','params':['injected'],'x':'")
           (JArr [JStr (js "0xaa"); JStr (js "latest")])
           [js "0xaa"; js "latest"] empty_state).
  - intros H.
    repeat (destruct H as [H | H]; [vm_compute in H; discriminate H |]).
    exact H.
  - repeat constructor; reflexivity.
  - repeat constructor; reflexivity.
  - reflexivity.
Defined.
